(** * CatieCli: credential lifecycle of the Antigravity pool

    A shallow embedding of the credential-management routes
    ([backend/app/routers/antigravity_manage.py],
    [backend/app/routers/antigravity_oauth.py]) and of the read-through cache
    ([backend/app/cache.py], [backend/app/services/auth.py]).

    Conventions used throughout:
    - a Python [str] is a Rocq [string] holding its UTF-8 bytes; slicing and
      [len] count code points, as Python does ([PyStr.take], [PyStr.len]);
    - Python [None] is [None]; an [Optional[str]] is an [option string];
    - a call to a collaborator that lives outside these files (the OAuth
      token service, the upstream HTTP API, the encryption helper) is an
      outcome supplied by an environment: [Ok v] or [Raise message];
    - the database session is a list of rows that is passed along. *)

From Stdlib Require Import ZArith Lia Bool Ascii String List SpecFloat.
From stdpp Require Import base option list strings gmap pretty.

Open Scope string_scope.
Open Scope Z_scope.

(** ** Python strings *)

Module PyStr.

(** A UTF-8 continuation byte is [10xxxxxx]. *)
Definition is_cont (c : ascii) : bool :=
  let n := Ascii.N_of_ascii c in ((128 <=? n) && (n <? 192))%N.

(** [len s]: number of code points of a well-formed UTF-8 string. *)
Fixpoint len (s : string) : nat :=
  match s with
  | EmptyString => 0%nat
  | String c s' => if is_cont c then len s' else S (len s')
  end.

(** [take n s] is the slice [s[:n]] (by code points). *)
Fixpoint take (n : nat) (s : string) : string :=
  match s with
  | EmptyString => EmptyString
  | String c s' =>
      if is_cont c then String c (take n s')
      else match n with
           | O => EmptyString
           | S m => String c (take m s')
           end
  end.

(** [contains needle s] is Python's [needle in s]. *)
Fixpoint contains (needle s : string) : bool :=
  String.prefix needle s ||
  match s with
  | EmptyString => false
  | String _ s' => contains needle s'
  end.

(** [s.endswith(suffix)] and [s.startswith(prefix)] *)
Definition endswith (suffix s : string) : bool :=
  (String.length suffix <=? String.length s)%nat &&
  String.eqb
    (String.substring (String.length s - String.length suffix)
                      (String.length suffix) s)
    suffix.

Definition startswith (pre s : string) : bool := String.prefix pre s.

(** [str(n)] for an [int]. *)
Definition of_int (n : Z) : string := pretty n.

(** Truthiness of an [Optional[str]]: [None] and [""] are falsy. *)
Definition truthy (o : option string) : bool :=
  match o with
  | Some (String _ _) => true
  | _ => false
  end.



Lemma length_app (s t : string) :
  String.length (s +:+ t) = (String.length s + String.length t)%nat.
Proof.
  induction s as [|c s IH]; [reflexivity|].
  change (String c s +:+ t) with (String c (s +:+ t)). simpl. rewrite IH. reflexivity.
Qed.


Lemma take_ascii_example : take 3 "timeout while reading" = "tim".
Proof. reflexivity. Qed.

Lemma take_cjk_example : take 2 "认证失败" = "认证" /\ len "认证失败" = 4%nat.
Proof. split; reflexivity. Qed.

End PyStr.

(** ** Outcomes of calls that may raise *)

(** [str(e)] of a raised exception is all the routes ever look at. *)
Inductive res (A : Type) : Type :=
| Ok (a : A)
| Raise (msg : string).

Arguments Ok {A} a.
Arguments Raise {A} msg.

Definition bind {A B : Type} (m : res A) (k : A -> res B) : res B :=
  match m with
  | Ok a => k a
  | Raise e => Raise e
  end.

Notation "x <- m ;; k" := (bind m (fun x => k))
  (at level 100, m at next level, right associativity).

(** ** Health probe (HealthProber) *)

Module Probe.

(** What one POST to [v1internal:generateContent] produced: a response with a
    status code, or an exception (network error, timeout). *)
Inductive outcome : Type :=
| Status (code : Z)
| Failed (msg : string).

Record verdict : Type := Verdict {
  is_valid : bool;
  error_msg : option string
}.

(** [resp.status_code in [200, 429]] *)
Definition status_ok (code : Z) : bool := Z.eqb code 200 || Z.eqb code 429.

(** [resp.status_code in [401, 403]] *)
Definition status_auth (code : Z) : bool := Z.eqb code 401 || Z.eqb code 403.

(** The [try: resp = await client.post(...) ... except Exception as e:] block
    of [verify_my_antigravity_credential] and of
    [admin_verify_antigravity_credential] (the two are the same text). *)
Definition classify (o : outcome) : verdict :=
  match o with
  | Status code =>
      if status_ok code then Verdict true None
      else if status_auth code then
        Verdict false (Some ("认证失败 (" +:+ PyStr.of_int code +:+ ")"))
      else Verdict false (Some ("API 返回 " +:+ PyStr.of_int code))
  | Failed e => Verdict false (Some ("请求异常: " +:+ PyStr.take 30 e))
  end.



End Probe.

Module ProbeFacts.
Import Probe.

Lemma status_ok_iff (code : Z) : status_ok code = true <-> code = 200 \/ code = 429.
Proof. unfold status_ok. rewrite orb_true_iff, !Z.eqb_eq. tauto. Qed.

Lemma status_auth_iff (code : Z) : status_auth code = true <-> code = 401 \/ code = 403.
Proof. unfold status_auth. rewrite orb_true_iff, !Z.eqb_eq. tauto. Qed.




(** Distinct status codes give distinct generic diagnostics: the code can be
    read back from the message. *)
Lemma generic_message_inj (c1 c2 : Z) :
  "API 返回 " +:+ PyStr.of_int c1 = "API 返回 " +:+ PyStr.of_int c2 -> c1 = c2.
Proof.
  intros H. apply (inj (String.app "API 返回 ")) in H.
  unfold PyStr.of_int in H. exact (inj pretty _ _ H).
Qed.



End ProbeFacts.

(** ** Data model *)

(** [MODE = "antigravity"]: the credential family of these routes. *)
Definition MODE : string := "antigravity".

(** The columns of [Credential] the routes read or write. Secret columns
    ([api_key], [refresh_token], [client_id], [client_secret]) hold the
    encrypted text. The primary key [id] is called [cred_id] here. *)
Record Credential : Type := mkCredential {
  cred_id : Z;
  user_id : Z;
  name : string;
  api_key : option string;
  refresh_token : option string;
  client_id : option string;
  client_secret : option string;
  project_id : option string;
  credential_type : string;
  email : option string;
  is_public : bool;
  is_active : bool;
  api_type : string;
  model_tier : string;
  last_error : option string;
  last_used_at : option Z
}.

(** A usage-log row: its key, the credential it points at (nullable foreign
    key) and the rest of the row. *)
Record UsageLog : Type := mkUsageLog {
  log_id : Z;
  credential_id : option Z;
  log_payload : string
}.

Record DB : Type := mkDB {
  credentials : list Credential;
  usage_logs : list UsageLog
}.

(** The values of [app.config.settings] the routes use. *)
Record Settings : Type := mkSettings {
  google_client_id : string;
  google_client_secret : string;
  force_donate : bool
}.

Definition string_eqb (a b : string) : bool := bool_decide (a = b).

Definition opt_string_eqb (a b : option string) : bool := bool_decide (a = b).

(** [x or ""] for an [Optional[str]]. *)
Definition or_empty (o : option string) : string :=
  match o with
  | Some s => s
  | None => ""
  end.

(** [result.scalar_one_or_none()]: no row, the one row, or
    [MultipleResultsFound]. *)
Definition scalar_one_or_none {A : Type} (rows : list A) : res (option A) :=
  match rows with
  | [] => Ok None
  | [r] => Ok (Some r)
  | _ => Raise "Multiple rows were found when one or none was required"
  end.

(** ** Cooldown window and the credential list *)

Module Cooldown.

Definition us_per_second : Z := 1000000.

(** A naive [datetime] is its number of microseconds since [datetime.min],
    0001-01-01T00:00:00; [datetime.max] is 9999-12-31T23:59:59.999999. *)
Definition datetime_max : Z := 315537897599999999.

Definition is_datetime (t : Z) : Prop := 0 <= t <= datetime_max.

(** [timedelta(seconds=n)] for an [int], in microseconds: [OverflowError]
    when the days pass 999999999 in magnitude. *)
Definition timedelta_seconds (n : Z) : res Z :=
  if (n / 86400 <? -999999999) || (999999999 <? n / 86400)
  then Raise "OverflowError: days; must have magnitude <= 999999999"
  else Ok (n * us_per_second).

(** [d + delta]: [OverflowError] outside the range of [datetime]. *)
Definition datetime_add (d delta : Z) : res Z :=
  if (d + delta <? 0) || (datetime_max <? d + delta)
  then Raise "OverflowError: date value out of range"
  else Ok (d + delta).

(** The integer nearest to [n / d], ties going to the even one. *)
Definition round_half_even (n d : Z) : Z :=
  let q := n / d in
  let r := n mod d in
  if 2 * r <? d then q
  else if d <? 2 * r then q + 1
  else if Z.even q then q else q + 1.

(** [floor (log2 (a / b))] for positive [a] and [b]. *)
Definition log2_quotient (a b : Z) : Z :=
  let k := Z.log2 a - Z.log2 b in
  if (if 0 <=? k then a <? b * 2 ^ k else a * 2 ^ (- k) <? b) then k - 1 else k.

(** The binary64 number nearest to [a / b] (ties to even), for positive
    integers, as mantissa and exponent: [m * 2^e] with [2^52 <= m < 2^53].
    This is what [a / b] gives on two [int]s; the quotients met here are
    far from the subnormal and the overflow range. *)
Definition nearest_double (a b : Z) : Z * Z :=
  let e := log2_quotient a b - 52 in
  let m := if e <? 0 then round_half_even (a * 2 ^ (- e)) b
           else round_half_even a (b * 2 ^ e) in
  if m =? 2 ^ 53 then (2 ^ 52, e + 1) else (m, e).

(** [a / b] on two [int]s, [b] positive. *)
Definition true_divide (a b : Z) : spec_float :=
  match a with
  | 0 => S754_zero false
  | Zpos _ =>
      S754_finite false (Z.to_pos (fst (nearest_double a b))) (snd (nearest_double a b))
  | Zneg p =>
      S754_finite true (Z.to_pos (fst (nearest_double (Zpos p) b)))
                  (snd (nearest_double (Zpos p) b))
  end.

(** [delta.total_seconds()]: the microseconds divided by [10**6]. *)
Definition total_seconds (delta : Z) : spec_float := true_divide delta us_per_second.

(** [int(x)] on a finite [float]: truncation toward zero. (An infinity or a
    NaN, on which [int] raises, is not a value of [total_seconds].) *)
Definition int_of_float (x : spec_float) : Z :=
  match x with
  | S754_finite s m e =>
      let a := if 0 <=? e then Zpos m * 2 ^ e else Zpos m / 2 ^ (- e) in
      if s then - a else a
  | _ => 0
  end.

(** [get_cd_remaining(last_used, cd_seconds)] as
    [list_my_antigravity_credentials] defines it, [now] being the route's
    [datetime.utcnow()]. A [datetime] object is always truthy, so
    [not last_used] is [None]. *)
Definition get_cd_remaining (now : Z) (last_used : option Z) (cd_seconds : Z) : res Z :=
  match last_used with
  | None => Ok 0
  | Some lu =>
      if cd_seconds <=? 0 then Ok 0
      else
        delta <- timedelta_seconds cd_seconds ;;
        cd_end <- datetime_add lu delta ;;
        let remaining := total_seconds (cd_end - now) in
        Ok (Z.max 0 (int_of_float remaining))
  end.

(** One entry of the list the route returns. The request counters and
    [created_at], columns the model of [Credential] does not carry, are
    left out. *)
Record listed : Type := mkListed {
  l_id : Z;
  l_name : string;
  l_email : option string;
  l_project_id : option string;
  l_is_public : bool;
  l_is_active : bool;
  l_last_error : option string;
  l_last_used_at : option string;
  cd_flash : Z;
  cd_pro : Z;
  cd_30 : Z
}.

(** [list_my_antigravity_credentials] on the rows its query returned:
    [get_cd_remaining] is defined in the route and never called, the three
    cooldown fields are the constant 0. [isoformat] is
    [datetime.isoformat]. *)
Definition list_my_antigravity_credentials
  (isoformat : Z -> string) (now : Z) (creds : list Credential) : list listed :=
  List.map
    (fun c =>
       mkListed (cred_id c) (name c) (email c) (project_id c) (is_public c)
         (is_active c) (last_error c)
         (match last_used_at c with
          | Some t => Some (isoformat t +:+ "Z")
          | None => None
          end)
         0 0 0)
    creds.

(** The specification's value, in whole seconds: [max(0, end - now)] rounded
    down. *)
Definition spec_remaining (now lu cd_seconds : Z) : Z :=
  Z.max 0 (lu + cd_seconds * us_per_second - now) / us_per_second.

Lemma round_half_even_close (n d : Z) :
  0 < d -> 2 * d * round_half_even n d <= 2 * n + d /\
           2 * n - d <= 2 * d * round_half_even n d.
Proof.
  intros Hd. unfold round_half_even.
  pose proof (Z.div_mod n d ltac:(lia)) as Hdm.
  pose proof (Z.mod_pos_bound n d Hd) as Hr.
  set (q := n / d) in *. set (r := n mod d) in *. cbv zeta.
  destruct (Z.ltb_spec (2 * r) d); [nia|].
  destruct (Z.ltb_spec d (2 * r)); [nia|].
  destruct (Z.even q); nia.
Qed.

Lemma log2_quotient_small (a : Z) :
  0 < a -> a < 2 ^ 34 * us_per_second -> log2_quotient a us_per_second <= 33.
Proof.
  intros Ha Hlt. unfold log2_quotient, us_per_second in *.
  change (Z.log2 1000000) with 19.
  assert (Hl : Z.log2 a <= 53).
  { apply Z.lt_succ_r. apply Z.log2_lt_pow2; [exact Ha|]. simpl. lia. }
  cbv zeta. destruct (Z.leb_spec 0 (Z.log2 a - 19)) as [Hk|Hk].
  - destruct (Z.ltb_spec a (1000000 * 2 ^ (Z.log2 a - 19))) as [H|H]; [lia|].
    destruct (Z.eq_dec (Z.log2 a) 53) as [E|E]; [|lia].
    rewrite E in H. simpl in H. lia.
  - destruct (_ <? _); lia.
Qed.

(** Below [2^34] seconds the rounding of the float division never reaches
    the next whole second. *)
Lemma int_total_seconds (a : Z) :
  0 < a -> a < 2 ^ 34 * us_per_second ->
  int_of_float (total_seconds a) = a / us_per_second.
Proof.
  intros Ha Hlt. unfold total_seconds, true_divide.
  destruct a as [|p|p]; try lia.
  pose proof (log2_quotient_small (Zpos p) Ha Hlt) as Hk.
  unfold nearest_double. cbv zeta.
  set (e := log2_quotient (Zpos p) us_per_second - 52) in *.
  assert (He : e <= -19) by (subst e; lia).
  destruct (Z.ltb_spec e 0) as [_|?]; [|lia].
  set (S := 2 ^ (- e)).
  assert (HS : 2 ^ 19 <= S) by (subst S; apply Z.pow_le_mono_r; lia).
  assert (HSe : S = 2 * 2 ^ (- (e + 1))).
  { subst S. replace (- e) with (Z.succ (- (e + 1))) by lia.
    rewrite Z.pow_succ_r by lia. reflexivity. }
  destruct (round_half_even_close (Zpos p * S) us_per_second ltac:(reflexivity))
    as [Hup Hlo].
  set (m := round_half_even (Zpos p * S) us_per_second) in *.
  pose proof (Z.div_mod (Zpos p) us_per_second ltac:(discriminate)) as Hdm.
  pose proof (Z.mod_pos_bound (Zpos p) us_per_second ltac:(reflexivity)) as Hr.
  set (n0 := Zpos p / us_per_second) in *.
  set (r0 := Zpos p mod us_per_second) in *.
  unfold us_per_second in *. simpl in HS.
  assert (Hm_lo : n0 * S <= m) by nia.
  assert (Hm_hi : m < (n0 + 1) * S) by nia.
  assert (Hm_pos : 0 < m) by nia.
  assert (Hn0 : 0 <= n0) by (subst n0; apply Z.div_pos; lia).
  assert (Hdiv : m / S = n0).
  { symmetry. apply (Z.div_unique m S n0 (m - n0 * S)); lia. }
  destruct (Z.eqb_spec m (2 ^ 53)) as [E|E]; unfold int_of_float; cbn [fst snd].
  - destruct (Z.leb_spec 0 (e + 1)); [lia|].
    rewrite Z2Pos.id by (simpl; lia).
    rewrite <- Hdiv, E, HSe.
    change (2 ^ 53) with (2 * 2 ^ 52).
    rewrite Z.div_mul_cancel_l; [reflexivity | | lia].
    apply Z.pow_nonzero; lia.
  - destruct (Z.leb_spec 0 e); [lia|].
    rewrite Z2Pos.id by exact Hm_pos. exact Hdiv.
Qed.

Lemma int_total_seconds_nonpos (a : Z) : a <= 0 -> int_of_float (total_seconds a) <= 0.
Proof.
  intros Ha. unfold total_seconds, true_divide.
  destruct a as [|p|p]; try lia; [simpl; lia|].
  unfold int_of_float.
  set (m := Zpos (Z.to_pos (fst (nearest_double (Zpos p) us_per_second)))).
  set (e := snd (nearest_double (Zpos p) us_per_second)).
  assert (Hm : 0 <= m) by (subst m; lia).
  destruct (Z.leb_spec 0 e).
  - assert (0 <= m * 2 ^ e); [|lia].
    apply Z.mul_nonneg_nonneg; [exact Hm | apply Z.pow_nonneg; lia].
  - assert (0 <= m / 2 ^ (- e)); [|lia].
    apply Z.div_pos; [exact Hm|]. apply Z.pow_pos_nonneg; lia.
Qed.

(** The helper on a window that ends within the range of [datetime]. *)
Lemma get_cd_remaining_steps (now lu cd_seconds : Z) :
  0 <= lu -> 0 < cd_seconds -> lu + cd_seconds * us_per_second <= datetime_max ->
  get_cd_remaining now (Some lu) cd_seconds
    = Ok (Z.max 0 (int_of_float
                     (total_seconds (lu + cd_seconds * us_per_second - now)))).
Proof.
  intros Hlu Hcd Hend. unfold get_cd_remaining, timedelta_seconds, datetime_add.
  unfold us_per_second, datetime_max in *.
  destruct (Z.leb_spec cd_seconds 0); [lia|].
  assert (Hdays : 0 <= cd_seconds / 86400 <= 999999999).
  { split; [apply Z.div_pos; lia|].
    apply Z.div_le_upper_bound; lia. }
  destruct (Z.ltb_spec (cd_seconds / 86400) (-999999999)); [lia|].
  destruct (Z.ltb_spec 999999999 (cd_seconds / 86400)); [lia|]. simpl.
  destruct (Z.ltb_spec (lu + cd_seconds * 1000000) 0); [lia|].
  destruct (Z.ltb_spec 315537897599999999 (lu + cd_seconds * 1000000)); [lia|].
  reflexivity.
Qed.

Lemma get_cd_remaining_formula (now lu cd_seconds : Z) :
  0 <= lu -> 0 < cd_seconds -> lu + cd_seconds * us_per_second <= datetime_max ->
  lu + cd_seconds * us_per_second - now < 2 ^ 34 * us_per_second ->
  get_cd_remaining now (Some lu) cd_seconds = Ok (spec_remaining now lu cd_seconds).
Proof.
  intros Hlu Hcd Hend Hspan. rewrite get_cd_remaining_steps by assumption.
  unfold spec_remaining. f_equal.
  set (a := lu + cd_seconds * us_per_second - now) in *.
  destruct (Z.lt_ge_cases 0 a) as [Hpos|Hneg].
  - rewrite int_total_seconds by assumption.
    rewrite (Z.max_r 0 a) by lia. apply Z.max_r. apply Z.div_pos; [lia | reflexivity].
  - pose proof (int_total_seconds_nonpos a Hneg).
    rewrite (Z.max_l 0 a) by lia. rewrite Z.max_l by lia. reflexivity.
Qed.

(** C5. The helper [get_cd_remaining] gives
    [max(0, last_used + cd_seconds - now)] rounded down to whole seconds
    whenever a cooldown is configured ([cd_seconds > 0]), there is a last
    use, the window ends within the range of [datetime] and less than
    [2^34] seconds remain; it gives 0 when there is no last use or no
    cooldown; whatever it gives is never negative; it is 0 from the instant
    [last_used + cd_seconds] on, and under the same bound it never rises as
    time passes. The list itself reports 0 in each of its three cooldown
    fields for every credential: the route does not call the helper. *)
Theorem cd_remaining_spec (now : Z) (last_used : option Z) (cd_seconds : Z) :
  is_datetime now ->
  (forall lu, last_used = Some lu -> is_datetime lu) ->
  (forall lu, last_used = Some lu -> 0 < cd_seconds ->
     lu + cd_seconds * us_per_second <= datetime_max ->
     lu + cd_seconds * us_per_second - now < 2 ^ 34 * us_per_second ->
     get_cd_remaining now last_used cd_seconds
       = Ok (Z.max 0 (lu + cd_seconds * us_per_second - now) / us_per_second)) /\
  (last_used = None \/ cd_seconds <= 0 ->
     get_cd_remaining now last_used cd_seconds = Ok 0) /\
  (forall v, get_cd_remaining now last_used cd_seconds = Ok v -> 0 <= v) /\
  (forall lu, last_used = Some lu -> 0 < cd_seconds ->
     lu + cd_seconds * us_per_second <= now ->
     get_cd_remaining now last_used cd_seconds = Ok 0) /\
  (forall lu later, last_used = Some lu -> 0 < cd_seconds ->
     lu + cd_seconds * us_per_second <= datetime_max ->
     lu + cd_seconds * us_per_second - now < 2 ^ 34 * us_per_second ->
     now <= later ->
     exists v v',
       get_cd_remaining now last_used cd_seconds = Ok v /\
       get_cd_remaining later last_used cd_seconds = Ok v' /\ v' <= v) /\
  (forall isoformat creds,
     Forall (fun e => cd_flash e = 0 /\ cd_pro e = 0 /\ cd_30 e = 0)
            (list_my_antigravity_credentials isoformat now creds) /\
     List.map l_id (list_my_antigravity_credentials isoformat now creds)
       = List.map cred_id creds).
Proof.
  intros Hnow Hlu. split; [|split; [|split; [|split; [|split]]]].
  - intros lu -> Hcd Hend Hspan. destruct (Hlu lu eq_refl) as [H0 _].
    apply get_cd_remaining_formula; assumption.
  - intros [-> | Hcd]; [reflexivity|]. unfold get_cd_remaining.
    destruct last_used; [|reflexivity].
    destruct (Z.leb_spec cd_seconds 0); [reflexivity | lia].
  - intros v. unfold get_cd_remaining. destruct last_used as [lu|]; [|intros [= <-]; lia].
    destruct (cd_seconds <=? 0); [intros [= <-]; lia|].
    destruct (timedelta_seconds cd_seconds) as [delta|]; simpl; [|discriminate].
    destruct (datetime_add lu delta) as [cd_end|]; simpl; [|discriminate].
    intros [= <-]. lia.
  - intros lu -> Hcd Hend. destruct (Hlu lu eq_refl) as [H0 _].
    destruct Hnow as [_ Hmax].
    rewrite get_cd_remaining_formula; try assumption; try lia.
    + unfold spec_remaining. rewrite Z.max_l by lia. reflexivity.
    + unfold us_per_second in *. lia.
  - intros lu later -> Hcd Hend Hspan Hlater. destruct (Hlu lu eq_refl) as [H0 _].
    exists (spec_remaining now lu cd_seconds), (spec_remaining later lu cd_seconds).
    split; [apply get_cd_remaining_formula; assumption|].
    split; [apply get_cd_remaining_formula; try assumption; lia|].
    unfold spec_remaining. apply Z.div_le_mono; [reflexivity | lia].
  - intros isoformat creds. unfold list_my_antigravity_credentials. split.
    + apply List.Forall_forall. intros e He. apply in_map_iff in He.
      destruct He as (c & <- & _). repeat split.
    + rewrite List.map_map. reflexivity.
Qed.

(** 1997-05-23T16:00:00 as a [datetime]. *)
Definition some_day : Z := 63000000000000000.

Lemma cd_remaining_spec_witness :
  get_cd_remaining (some_day + 2500000) (Some some_day) 60 = Ok 57 /\
  get_cd_remaining (some_day + 2500000) None 60 = Ok 0 /\
  get_cd_remaining (some_day + 60000000) (Some some_day) 60 = Ok 0.
Proof.
  assert (Hd : forall d, 0 <= d <= 60000000 -> is_datetime (some_day + d))
    by (intros d Hd; unfold is_datetime, some_day, datetime_max; lia).
  assert (Hs : forall lu, Some some_day = Some lu -> is_datetime lu).
  { intros lu [= <-]. replace some_day with (some_day + 0) by lia. apply Hd. lia. }
  split; [|split].
  - rewrite (proj1 (cd_remaining_spec (some_day + 2500000) (Some some_day) 60
                      (Hd 2500000 ltac:(lia)) Hs) some_day);
      [reflexivity | reflexivity | lia | vm_compute; discriminate | vm_compute; reflexivity].
  - apply (proj1 (proj2 (cd_remaining_spec (some_day + 2500000) None 60
                           (Hd 2500000 ltac:(lia)) ltac:(discriminate)))).
    left. reflexivity.
  - apply (proj1 (proj2 (proj2 (proj2
             (cd_remaining_spec (some_day + 60000000) (Some some_day) 60
                (Hd 60000000 ltac:(lia)) Hs)))) some_day);
      [reflexivity | lia | vm_compute; discriminate].
Defined.

(** With [2^34 + 1] seconds of cooldown and one microsecond gone,
    [17179869184.999999] seconds remain; the nearest [float] is
    [17179869185.0], which is what [total_seconds()] returns and [int]
    keeps. *)
Lemma cd_remaining_rounds_up :
  get_cd_remaining (some_day + 1) (Some some_day) (2 ^ 34 + 1) = Ok 17179869185 /\
  spec_remaining (some_day + 1) some_day (2 ^ 34 + 1) = 17179869184 /\
  get_cd_remaining (some_day + 1) (Some some_day) (2 ^ 34 + 1)
    <> Ok (spec_remaining (some_day + 1) some_day (2 ^ 34 + 1)).
Proof.
  split; [vm_compute; reflexivity|]. split; [vm_compute; reflexivity|].
  vm_compute. discriminate.
Qed.

(** The division agrees with [SFdiv] of the standard library's binary64
    where both operands are themselves floats. *)
Example total_seconds_is_float_division :
  total_seconds 57500000
    = SFdiv 53 1024 (S754_finite false 57500000 0) (S754_finite false 1000000 0) /\
  total_seconds (-1)
    = SFdiv 53 1024 (S754_finite true 1 0) (S754_finite false 1000000 0) /\
  total_seconds 17179869184999999
    = SFdiv 53 1024 (S754_finite false 17179869184999999 0)
            (S754_finite false 1000000 0).
Proof. vm_compute. repeat split. Qed.

End Cooldown.

(** ** Export *)

Module ExportRoutes.

Section WithCollaborators.

(** [app.services.crypto.decrypt_credential] and the settings object. *)
Variable decrypt_credential : string -> string.
Variable settings : Settings.

(** [decrypt_credential(x) if x else ""] *)
Definition decrypt_or_empty (o : option string) : string :=
  if PyStr.truthy o then decrypt_credential (or_empty o) else "".

(** The dictionary built by [export_my_antigravity_credential], as its items
    in insertion order. *)
Definition single_cred_data (cred : Credential) : list (string * string) :=
  [ ("client_id", google_client_id settings);
    ("client_secret", google_client_secret settings);
    ("refresh_token", decrypt_or_empty (refresh_token cred));
    ("token", decrypt_or_empty (api_key cred));
    ("project_id", or_empty (project_id cred));
    ("email", or_empty (email cred));
    ("type", "authorized_user") ].

(** The dictionary built per credential by [export_antigravity_credentials]. *)
Definition bulk_cred_data (cred : Credential) : list (string * string) :=
  [ ("client_id", google_client_id settings);
    ("client_secret", google_client_secret settings);
    ("refresh_token", decrypt_or_empty (refresh_token cred));
    ("token", decrypt_or_empty (api_key cred));
    ("project_id", or_empty (project_id cred));
    ("email", or_empty (email cred)) ].

(** [GET /credentials/{cred_id}/export]; a missing row is [HTTPException(404)]. *)
Definition export_my_antigravity_credential
  (db : DB) (cid : Z) (uid : Z) : res (list (string * string)) :=
  found <- scalar_one_or_none
             (List.filter
                (fun c => Z.eqb (cred_id c) cid && Z.eqb (user_id c) uid
                          && string_eqb (api_type c) MODE)
                (credentials db)) ;;
  match found with
  | None => Raise "404: 凭证不存在"
  | Some cred => Ok (single_cred_data cred)
  end.

(** [f"{cred.email or cred.id}.json"] *)
Definition export_filename (cred : Credential) : string :=
  (if PyStr.truthy (email cred) then or_empty (email cred)
   else PyStr.of_int (cred_id cred)) +:+ ".json".

(** [GET /manage/credentials/export]: the entries written to the archive. *)
Definition export_antigravity_credentials
  (db : DB) : list (string * list (string * string)) :=
  List.map (fun cred => (export_filename cred, bulk_cred_data cred))
    (List.filter (fun c => string_eqb (api_type c) MODE) (credentials db)).

(** Python [dict] lookup on the item list. *)
Fixpoint dict_get (k : string) (d : list (string * string)) : option string :=
  match d with
  | [] => None
  | (k', v) :: rest => if string_eqb k k' then Some v else dict_get k rest
  end.

(** Two credentials carry the same exportable content. *)
Definition same_exported_fields (c1 c2 : Credential) : Prop :=
  refresh_token c1 = refresh_token c2 /\ api_key c1 = api_key c2 /\
  project_id c1 = project_id c2 /\ email c1 = email c2.

Lemma cred_data_congr (c1 c2 : Credential) :
  same_exported_fields c1 c2 ->
  single_cred_data c1 = single_cred_data c2 /\ bulk_cred_data c1 = bulk_cred_data c2.
Proof.
  intros (Hr & Hk & Hp & He). unfold single_cred_data, bulk_cred_data.
  rewrite Hr, Hk, Hp, He. split; reflexivity.
Qed.

(** What an export writes for a secret column: the decrypted text, or the
    empty string for a column that is NULL or empty. *)
Definition exported_secret (column : option string) : string :=
  match column with
  | Some (String c rest) => decrypt_credential (String c rest)
  | _ => ""
  end.

(** The six fields both exports write for [cred]. *)
Definition exported_fields (cred : Credential) (d : list (string * string)) : Prop :=
  dict_get "client_id" d = Some (google_client_id settings) /\
  dict_get "client_secret" d = Some (google_client_secret settings) /\
  dict_get "refresh_token" d = Some (exported_secret (refresh_token cred)) /\
  dict_get "token" d = Some (exported_secret (api_key cred)) /\
  dict_get "project_id" d = Some (match project_id cred with Some x => x | None => "" end) /\
  dict_get "email" d = Some (match email cred with Some x => x | None => "" end).

Lemma single_cred_data_fields (cred : Credential) :
  exported_fields cred (single_cred_data cred) /\
  dict_get "type" (single_cred_data cred) = Some "authorized_user" /\
  List.map fst (single_cred_data cred)
    = ["client_id"; "client_secret"; "refresh_token"; "token"; "project_id"; "email";
       "type"].
Proof.
  unfold exported_fields, single_cred_data, decrypt_or_empty.
  destruct (refresh_token cred) as [[|? ?]|], (api_key cred) as [[|? ?]|];
    repeat split; reflexivity.
Qed.

Lemma bulk_cred_data_fields (cred : Credential) :
  exported_fields cred (bulk_cred_data cred) /\
  List.map fst (bulk_cred_data cred)
    = ["client_id"; "client_secret"; "refresh_token"; "token"; "project_id"; "email"].
Proof.
  unfold exported_fields, bulk_cred_data, decrypt_or_empty.
  destruct (refresh_token cred) as [[|? ?]|], (api_key cred) as [[|? ?]|];
    repeat split; reflexivity.
Qed.

Lemma export_my_kind (db : DB) (cid uid : Z) (d : list (string * string)) :
  export_my_antigravity_credential db cid uid = Ok d ->
  exists cred, In cred (credentials db) /\ cred_id cred = cid /\
               user_id cred = uid /\ api_type cred = MODE /\
               d = single_cred_data cred.
Proof.
  unfold export_my_antigravity_credential.
  set (p := fun c : Credential => _).
  destruct (List.filter p (credentials db)) as [|c [|c' l]] eqn:E;
    simpl; try discriminate.
  intros [= <-]. exists c.
  assert (Hin : In c (List.filter p (credentials db))) by (rewrite E; left; reflexivity).
  apply filter_In in Hin. destruct Hin as [Hin Hp]. subst p. simpl in Hp.
  apply andb_true_iff in Hp. destruct Hp as [Hp H3].
  apply andb_true_iff in Hp. destruct Hp as [H1 H2].
  apply Z.eqb_eq in H1. apply Z.eqb_eq in H2. apply bool_decide_eq_true_1 in H3. auto.
Qed.

(** C10. Both exports write the globally configured OAuth client id and
    secret, whatever overrides the credential stores, and take
    [refresh_token], [token] (the access token), [project_id] and [email]
    from the credential itself: the secrets decrypted, a missing value as
    the empty string. The single export answers for the caller's own
    credential of this kind and adds the constant [type]; the bulk export
    writes one such document per credential of this kind, in query order,
    named after the email (or the id). Two credentials that differ only in
    other columns, the stored client id and secret among them, export the
    same document. *)
Theorem export_uses_global_client (db : DB) :
  (forall cid uid d,
     export_my_antigravity_credential db cid uid = Ok d ->
     exists cred,
       In cred (credentials db) /\ cred_id cred = cid /\ user_id cred = uid /\
       api_type cred = MODE /\
       exported_fields cred d /\
       dict_get "type" d = Some "authorized_user" /\
       List.map fst d
         = ["client_id"; "client_secret"; "refresh_token"; "token"; "project_id";
            "email"; "type"]) /\
  Forall2
    (fun cred entry =>
       fst entry = (match email cred with
                    | Some (String c rest) => String c rest
                    | _ => PyStr.of_int (cred_id cred)
                    end) +:+ ".json" /\
       exported_fields cred (snd entry) /\
       List.map fst (snd entry)
         = ["client_id"; "client_secret"; "refresh_token"; "token"; "project_id";
            "email"])
    (List.filter (fun c => bool_decide (api_type c = MODE)) (credentials db))
    (export_antigravity_credentials db) /\
  (forall c1 c2,
     same_exported_fields c1 c2 ->
     single_cred_data c1 = single_cred_data c2 /\
     bulk_cred_data c1 = bulk_cred_data c2).
Proof.
  split; [|split].
  - intros cid uid d H. apply export_my_kind in H.
    destruct H as (cred & Hin & Hc & Hu & Hk & ->). exists cred.
    destruct (single_cred_data_fields cred) as (Hf & Ht & Hkeys). auto 10.
  - unfold export_antigravity_credentials, string_eqb.
    induction (List.filter (fun c => bool_decide (api_type c = MODE)) (credentials db))
      as [|c l IH]; simpl; constructor; [|exact IH].
    destruct (bulk_cred_data_fields c) as (Hf & Hkeys). simpl.
    split; [|split; assumption].
    unfold export_filename. destruct (email c) as [[|? ?]|]; reflexivity.
  - apply cred_data_congr.
Qed.

End WithCollaborators.

(** A credential that stores its own client id and secret. *)
Definition sample_settings : Settings :=
  mkSettings "global-client.apps.googleusercontent.com" "global-secret" false.

Definition sample_cred : Credential :=
  mkCredential 7 1 "Antigravity - a@example.com" (Some "enc:tok") (Some "enc:rt")
    (Some "enc:own-client") (Some "enc:own-secret") (Some "proj-1") "oauth"
    (Some "a@example.com") false true MODE "2.5" None None.

Definition sample_cred_no_override : Credential :=
  mkCredential 8 1 "other" (Some "enc:tok") (Some "enc:rt")
    None None (Some "proj-1") "oauth"
    (Some "a@example.com") false true MODE "2.5" None None.

Definition sample_db : DB := mkDB [sample_cred] [].

Lemma export_uses_global_client_witness :
  export_my_antigravity_credential (fun s => "plain:" +:+ s) sample_settings sample_db 7 1
    = Ok [ ("client_id", "global-client.apps.googleusercontent.com");
           ("client_secret", "global-secret");
           ("refresh_token", "plain:enc:rt"); ("token", "plain:enc:tok");
           ("project_id", "proj-1"); ("email", "a@example.com");
           ("type", "authorized_user") ] /\
  (exists cred,
     In cred (credentials sample_db) /\
     exported_fields (fun s => "plain:" +:+ s) sample_settings cred
       (single_cred_data (fun s => "plain:" +:+ s) sample_settings sample_cred)) /\
  single_cred_data (fun s => "plain:" +:+ s) sample_settings sample_cred
    = single_cred_data (fun s => "plain:" +:+ s) sample_settings sample_cred_no_override.
Proof.
  pose proof (export_uses_global_client (fun s => "plain:" +:+ s) sample_settings sample_db)
    as (H1 & _ & H3).
  split; [reflexivity|]. split.
  - destruct (H1 7 1 _ eq_refl) as (cred & Hin & _ & _ & _ & Hf & _).
    exists cred. split; assumption.
  - apply H3. repeat split; reflexivity.
Defined.

End ExportRoutes.

(** ** Deleting credentials *)

Module Deletion.

(** The statements a route sends through its session, in order. *)
Inductive stmt : Type :=
| NullUsageRefs (ids : list Z)   (* update(UsageLog).where(credential_id in ids).values(credential_id=None) *)
| DeleteCredential (cid : Z)     (* db.delete(cred) *)
| Commit                         (* db.commit() *)
| TryCommit.                     (* try: db.commit()  except Exception: db.rollback() *)

Definition id_in (ids : list Z) (i : Z) : bool := existsb (Z.eqb i) ids.

Definition references (ids : list Z) (l : UsageLog) : bool :=
  match credential_id l with
  | Some i => id_in ids i
  | None => false
  end.

Definition null_ref (ids : list Z) (l : UsageLog) : UsageLog :=
  if references ids l then mkUsageLog (log_id l) None (log_payload l) else l.

(** Effect of one statement on the rows as the session sees them. A commit,
    guarded or not, changes nothing there; what it makes durable, and what a
    failed commit and a rollback undo, is told by [run] below. *)
Definition exec_stmt (s : stmt) (db : DB) : DB :=
  match s with
  | NullUsageRefs ids =>
      mkDB (credentials db) (List.map (null_ref ids) (usage_logs db))
  | DeleteCredential cid =>
      mkDB (List.filter (fun c => negb (Z.eqb (cred_id c) cid)) (credentials db))
           (usage_logs db)
  | Commit | TryCommit => db
  end.

(** The session's view after a script. *)
Definition exec (script : list stmt) (db : DB) : DB :=
  fold_left (fun d s => exec_stmt s d) script db.

(** A session: the rows the database holds, and the rows as the session
    sees them (the database's, with the session's uncommitted changes). *)
Record session : Type := mkSession {
  durable : DB;
  view : DB
}.

Definition begin (db : DB) : session := mkSession db db.

Definition stage (s : stmt) (ss : session) : session :=
  mkSession (durable ss) (exec_stmt s (view ss)).

(** A commit the database accepts, and [db.rollback()]. *)
Definition committed (ss : session) : session := mkSession (view ss) (view ss).

Definition rollback (ss : session) : session := mkSession (durable ss) (durable ss).

(** The database's verdict on the next commit and the verdicts after it; a
    list that has run out means acceptance. *)
Definition next_verdict (oks : list bool) : bool * list bool :=
  match oks with
  | [] => (true, [])
  | ok :: rest => (ok, rest)
  end.

(** A script run in a session, [oks] being the database's verdicts on the
    commits to come. A [Commit] the database refuses raises out of the
    route: the run stops, and closing the session discards what was not
    committed. A refused [TryCommit] is caught: the session rolls back and
    the route goes on. The result is the session at the end and whether the
    route raised. *)
Fixpoint run (script : list stmt) (oks : list bool) (ss : session) : session * bool :=
  match script with
  | [] => (ss, false)
  | Commit :: rest =>
      if fst (next_verdict oks) then run rest (snd (next_verdict oks)) (committed ss)
      else (rollback ss, true)
  | TryCommit :: rest =>
      run rest (snd (next_verdict oks))
          (if fst (next_verdict oks) then committed ss else rollback ss)
  | s :: rest => run rest oks (stage s ss)
  end.

(** A request served on the store [db]: the store afterwards, and whether
    the request ended in an exception. The session ends with the request,
    and what it had not committed is gone. *)
Definition serve (script : list stmt) (oks : list bool) (db : DB) : DB * bool :=
  (durable (fst (run script oks (begin db))), snd (run script oks (begin db))).

(** The [where] clauses of the three routes. *)
Definition mine (uid : Z) (c : Credential) : bool :=
  Z.eqb (user_id c) uid && string_eqb (api_type c) MODE.

Definition inactive_of_mode (c : Credential) : bool :=
  string_eqb (api_type c) MODE && negb (is_active c).

(** [delete_my_antigravity_credential]: the script it runs, or 404. *)
Definition delete_my_antigravity_credential
  (db : DB) (cid uid : Z) : res (list stmt) :=
  found <- scalar_one_or_none
             (List.filter (fun c => Z.eqb (cred_id c) cid && mine uid c)
                (credentials db)) ;;
  match found with
  | None => Raise "404: 凭证不存在"
  | Some _ => Ok [NullUsageRefs [cid]; DeleteCredential cid; Commit]
  end.

(** The [for cred in inactive_creds] loop of the user's bulk delete, with
    its guarded commit after every 100th deletion. [count] is
    [deleted_count], which the loop raises at every [db.delete], whatever
    becomes of the commits. *)
Fixpoint delete_loop (creds : list Credential) (count : nat) : list stmt :=
  match creds with
  | [] => []
  | c :: rest =>
      DeleteCredential (cred_id c) ::
      (if Nat.eqb (Nat.modulo (S count) 100) 0 then [TryCommit] else []) ++
      delete_loop rest (S count)
  end.

(** [delete_my_inactive_antigravity_credentials]: the script it runs (every
    commit of it guarded) and the [deleted_count] it answers with. *)
Definition delete_my_inactive_antigravity_credentials
  (db : DB) (uid : Z) : list stmt * nat :=
  let inactive_creds :=
    List.filter (fun c => mine uid c && negb (is_active c)) (credentials db) in
  match inactive_creds with
  | [] => ([], 0%nat)
  | _ =>
      let cred_ids := List.map cred_id inactive_creds in
      (NullUsageRefs cred_ids :: delete_loop inactive_creds 0 ++ [TryCommit],
       length inactive_creds)
  end.

(** [delete_inactive_antigravity_credentials] (administrator). *)
Definition delete_inactive_antigravity_credentials (db : DB) : list stmt * nat :=
  let inactive_creds := List.filter inactive_of_mode (credentials db) in
  match inactive_creds with
  | [] => ([], 0%nat)
  | _ =>
      let cred_ids := List.map cred_id inactive_creds in
      (NullUsageRefs cred_ids ::
       List.map (fun c => DeleteCredential (cred_id c)) inactive_creds ++ [Commit],
       length inactive_creds)
  end.

(** No usage log points at credential [cid]. *)
Definition unreferenced (cid : Z) (db : DB) : Prop :=
  forall l, In l (usage_logs db) -> credential_id l <> Some cid.

(** Every deletion in the script happens in a state where the credential is
    no longer referenced by any usage log. *)
Fixpoint deletes_after_unlink (script : list stmt) (db : DB) : Prop :=
  match script with
  | [] => True
  | s :: rest =>
      match s with
      | DeleteCredential cid => unreferenced cid db
      | _ => True
      end /\ deletes_after_unlink rest (exec_stmt s db)
  end.

(** The usage logs of [db'] are those of [db], row for row, except that a
    credential reference may have become null. *)
Definition logs_kept (db db' : DB) : Prop :=
  Forall2 (fun l l' => log_id l' = log_id l /\ log_payload l' = log_payload l /\
                       (credential_id l' = credential_id l \/ credential_id l' = None))
          (usage_logs db) (usage_logs db').

Definition tail_stmt (ids : list Z) (s : stmt) : Prop :=
  match s with
  | DeleteCredential c => In c ids
  | Commit | TryCommit => True
  | NullUsageRefs _ => False
  end.

Lemma id_in_spec (ids : list Z) (i : Z) : id_in ids i = true <-> In i ids.
Proof.
  unfold id_in. rewrite existsb_exists. split.
  - intros (x & Hx & E). apply Z.eqb_eq in E. subst. exact Hx.
  - intros H. exists i. split; [exact H | apply Z.eqb_refl].
Qed.

Lemma null_ref_clears (ids : list Z) (l : UsageLog) (cid : Z) :
  In cid ids -> credential_id (null_ref ids l) <> Some cid.
Proof.
  intros Hin. unfold null_ref, references.
  destruct (credential_id l) as [i|] eqn:E; simpl; [|rewrite E; discriminate].
  destruct (id_in ids i) eqn:Hi; simpl; [discriminate|].
  rewrite E. intros [= ->]. apply id_in_spec in Hin. congruence.
Qed.

Lemma unlink_unreferenced (ids : list Z) (db : DB) (cid : Z) :
  In cid ids -> unreferenced cid (exec_stmt (NullUsageRefs ids) db).
Proof.
  intros Hin l Hl. simpl in Hl. apply in_map_iff in Hl.
  destruct Hl as (l0 & <- & _). apply null_ref_clears. exact Hin.
Qed.

Lemma null_ref_kept (ids : list Z) (l : UsageLog) :
  log_id (null_ref ids l) = log_id l /\
  log_payload (null_ref ids l) = log_payload l /\
  (credential_id (null_ref ids l) = credential_id l \/
   credential_id (null_ref ids l) = None).
Proof. unfold null_ref. destruct (references ids l); simpl; auto. Qed.

Lemma unlink_logs_kept (ids : list Z) (db : DB) :
  logs_kept db (exec_stmt (NullUsageRefs ids) db).
Proof.
  unfold logs_kept. simpl. induction (usage_logs db) as [|l ls IH]; simpl.
  - constructor.
  - constructor; [apply null_ref_kept | exact IH].
Qed.

Lemma logs_kept_same (db db' : DB) :
  usage_logs db' = usage_logs db -> logs_kept db db'.
Proof.
  unfold logs_kept. intros ->. induction (usage_logs db) as [|l ls IH];
    constructor; auto.
Qed.

Lemma logs_kept_then_same (db db1 db2 : DB) :
  logs_kept db db1 -> usage_logs db2 = usage_logs db1 -> logs_kept db db2.
Proof. unfold logs_kept. intros H ->. exact H. Qed.

(** Deletions and commits leave the usage logs alone, so a script made of
    them is safe once every credential it deletes has been unlinked. *)
Lemma tail_script_safe (ids : list Z) (script : list stmt) :
  Forall (tail_stmt ids) script ->
  forall db, (forall c, In c ids -> unreferenced c db) ->
  deletes_after_unlink script db /\ usage_logs (exec script db) = usage_logs db.
Proof.
  induction 1 as [|s rest Hs _ IH]; intros db Hun; simpl.
  - split; [exact I | reflexivity].
  - assert (Hlogs : usage_logs (exec_stmt s db) = usage_logs db)
      by (destruct s; simpl in *; [contradiction | reflexivity..]).
    destruct (IH (exec_stmt s db)) as [IH1 IH2].
    { intros c Hc l Hl. rewrite Hlogs in Hl. exact (Hun c Hc l Hl). }
    split; [split; [|exact IH1]|].
    + destruct s; simpl in *; auto.
    + change (exec (s :: rest) db) with (exec rest (exec_stmt s db)).
      rewrite IH2. exact Hlogs.
Qed.

Lemma unlink_then_tail (ids : list Z) (tail : list stmt) (db : DB) :
  Forall (tail_stmt ids) tail ->
  deletes_after_unlink (NullUsageRefs ids :: tail) db /\
  logs_kept db (exec (NullUsageRefs ids :: tail) db).
Proof.
  intros Htail.
  destruct (tail_script_safe ids tail Htail (exec_stmt (NullUsageRefs ids) db))
    as [H1 H2].
  { intros c Hc. apply unlink_unreferenced. exact Hc. }
  split.
  - simpl. split; [exact I | exact H1].
  - apply (logs_kept_then_same db (exec_stmt (NullUsageRefs ids) db)).
    + apply unlink_logs_kept.
    + exact H2.
Qed.

Lemma delete_loop_tail (ids : list Z) (creds : list Credential) (count : nat) :
  (forall c, In c creds -> In (cred_id c) ids) ->
  Forall (tail_stmt ids) (delete_loop creds count).
Proof.
  revert count. induction creds as [|c rest IH]; intros count Hin; simpl.
  - constructor.
  - constructor; [simpl; apply Hin; left; reflexivity|].
    apply Forall_app. split.
    + destruct (Nat.eqb _ 0); repeat constructor.
    + apply IH. intros c' Hc'. apply Hin. right. exact Hc'.
Qed.

Lemma delete_map_tail (ids : list Z) (creds : list Credential) :
  (forall c, In c creds -> In (cred_id c) ids) ->
  Forall (tail_stmt ids) (List.map (fun c => DeleteCredential (cred_id c)) creds).
Proof.
  intros Hin. apply List.Forall_forall. intros s Hs.
  apply in_map_iff in Hs. destruct Hs as (c & <- & Hc). simpl. auto.
Qed.

Lemma commit_tail (ids : list Z) : Forall (tail_stmt ids) [Commit].
Proof. repeat constructor. Qed.

Lemma try_commit_tail (ids : list Z) : Forall (tail_stmt ids) [TryCommit].
Proof. repeat constructor. Qed.

(** In the order the routes issue their statements, every [db.delete] comes
    after the update that nulls the references to that credential, and no
    statement deletes a usage log: within one transaction, a credential is
    deleted only when no log the session sees still points at it. *)
Lemma scripts_unlink_first (db : DB) :
  (forall cid uid script,
     delete_my_antigravity_credential db cid uid = Ok script ->
     deletes_after_unlink script db /\ logs_kept db (exec script db)) /\
  (forall uid,
     deletes_after_unlink (fst (delete_my_inactive_antigravity_credentials db uid)) db /\
     logs_kept db (exec (fst (delete_my_inactive_antigravity_credentials db uid)) db)) /\
  (deletes_after_unlink (fst (delete_inactive_antigravity_credentials db)) db /\
   logs_kept db (exec (fst (delete_inactive_antigravity_credentials db)) db)).
Proof.
  split; [|split].
  - intros cid uid script. unfold delete_my_antigravity_credential.
    destruct (scalar_one_or_none _) as [[c|]|]; simpl; try discriminate.
    intros [= <-]. apply unlink_then_tail.
    constructor; [simpl; auto | apply commit_tail].
  - intros uid. unfold delete_my_inactive_antigravity_credentials.
    destruct (List.filter _ (credentials db)) as [|c cs] eqn:E.
    + simpl. split; [exact I | apply logs_kept_same; reflexivity].
    + cbv zeta. cbn [fst]. apply unlink_then_tail.
      apply Forall_app. split; [|apply try_commit_tail].
      apply delete_loop_tail. intros c' Hc'. apply in_map. exact Hc'.
  - unfold delete_inactive_antigravity_credentials.
    destruct (List.filter _ (credentials db)) as [|c cs] eqn:E.
    + simpl. split; [exact I | apply logs_kept_same; reflexivity].
    + cbv zeta. cbn [fst]. apply unlink_then_tail.
      apply Forall_app. split; [|apply commit_tail].
      apply delete_map_tail. intros c' Hc'. apply in_map. exact Hc'.
Qed.

(** Statements other than commits. *)
Definition plain (s : stmt) : Prop :=
  match s with
  | Commit | TryCommit => False
  | _ => True
  end.

Lemma run_plain (body : list stmt) :
  Forall plain body ->
  forall rest oks ss,
  run (body ++ rest) oks ss = run rest oks (mkSession (durable ss) (exec body (view ss))).
Proof.
  induction 1 as [|s body Hs _ IH]; intros rest oks ss.
  - destruct ss; reflexivity.
  - destruct s; try contradiction; simpl; rewrite IH; reflexivity.
Qed.

(** A route whose one commit is unguarded does all or nothing: either the
    whole script becomes durable, or the commit raises and the store is as
    it was. This is the single delete and the administrator's bulk delete. *)
Lemma unguarded_all_or_nothing (body : list stmt) (oks : list bool) (db : DB) :
  Forall plain body ->
  serve (body ++ [Commit]) oks db
    = if fst (next_verdict oks) then (exec (body ++ [Commit]) db, false) else (db, true).
Proof.
  intros Hb. unfold serve. rewrite (run_plain body Hb). simpl.
  unfold exec. rewrite fold_left_app. simpl.
  destruct (fst (next_verdict oks)); reflexivity.
Qed.

Definition sample_db : DB :=
  mkDB
    [ mkCredential 7 1 "dead" None (Some "enc:rt7") None None None "oauth"
        (Some "a@example.com") false false MODE "2.5" (Some "认证失败 (401)") None;
      mkCredential 8 1 "live" None (Some "enc:rt8") None None None "oauth"
        (Some "b@example.com") false true MODE "2.5" None None ]
    [ mkUsageLog 100 (Some 7) "POST /v1/chat"; mkUsageLog 101 (Some 8) "POST /v1/chat" ].

Example delete_single_result :
  delete_my_antigravity_credential sample_db 7 1
    = Ok [NullUsageRefs [7]; DeleteCredential 7; Commit] /\
  serve [NullUsageRefs [7]; DeleteCredential 7; Commit] [true] sample_db
    = (mkDB [ mkCredential 8 1 "live" None (Some "enc:rt8") None None None "oauth"
                (Some "b@example.com") false true MODE "2.5" None None ]
            [ mkUsageLog 100 None "POST /v1/chat";
              mkUsageLog 101 (Some 8) "POST /v1/chat" ],
       false) /\
  serve [NullUsageRefs [7]; DeleteCredential 7; Commit] [false] sample_db
    = (sample_db, true).
Proof. repeat split. Qed.

(** A user with 101 inactive credentials, the first and the last of them
    referenced by a usage log. *)
Definition dead_cred (i : Z) : Credential :=
  mkCredential i 1 "dead" None (Some "enc:rt") None None None "oauth"
    (Some ("u" +:+ PyStr.of_int i +:+ "@example.com")) false false MODE "2.5"
    (Some "认证失败 (401)") None.

Definition crowded_db : DB :=
  mkDB (List.map (fun n => dead_cred (Z.of_nat n)) (seq 1 101))
       [ mkUsageLog 900 (Some 1) "POST /v1/chat";
         mkUsageLog 901 (Some 101) "POST /v1/chat" ].

(** C9 (evaluation of the user's bulk delete). The user's bulk delete over
    101 inactive credentials, when the database refuses the commit after the
    100th deletion and accepts the final one: the rollback undoes the update
    that nulled the references together with the first 100 deletions, the
    loop goes on, and the 101st credential is deleted while a usage log still
    points at it. The route answers [deleted_count = 101]; one row is gone. *)
Theorem bulk_delete_after_refused_commit :
  snd (delete_my_inactive_antigravity_credentials crowded_db 1) = 101%nat /\
  serve (fst (delete_my_inactive_antigravity_credentials crowded_db 1)) [false]
        crowded_db
    = (mkDB (List.map (fun n => dead_cred (Z.of_nat n)) (seq 1 100))
            [ mkUsageLog 900 (Some 1) "POST /v1/chat";
              mkUsageLog 901 (Some 101) "POST /v1/chat" ],
       false) /\
  ~ In 101 (List.map cred_id (List.map (fun n => dead_cred (Z.of_nat n)) (seq 1 100))).
Proof.
  split; [vm_compute; reflexivity|]. split; [vm_compute; reflexivity|].
  rewrite List.map_map. intros H. apply in_map_iff in H.
  destruct H as (n & Hn & Hin). apply in_seq in Hin. simpl in Hn. lia.
Qed.

(** The same store when every commit is accepted: all 101 rows go, and both
    logs stay, unlinked. *)
Example bulk_delete_accepted :
  serve (fst (delete_my_inactive_antigravity_credentials crowded_db 1)) [] crowded_db
    = (mkDB [] [ mkUsageLog 900 None "POST /v1/chat";
                 mkUsageLog 901 None "POST /v1/chat" ],
       false).
Proof. vm_compute. reflexivity. Qed.

End Deletion.

(** ** Visibility: the write paths of [is_public] outside the upload *)

Module Visibility.

(** ['403' in last_error or '401' in last_error], guarded by a truthy
    [last_error]. *)
Definition auth_failure (e : option string) : bool :=
  match e with
  | Some m => PyStr.truthy e && (PyStr.contains "403" m || PyStr.contains "401" m)
  | None => false
  end.

(** A credential may be public only while active and free of an
    authentication failure. *)
Definition public_ok (c : Credential) : Prop :=
  is_public c = true -> is_active c = true /\ auth_failure (last_error c) = false.

Definition set_is_public (b : bool) (c : Credential) : Credential :=
  mkCredential (cred_id c) (user_id c) (name c) (api_key c) (refresh_token c)
    (client_id c) (client_secret c) (project_id c) (credential_type c) (email c)
    b (is_active c) (api_type c) (model_tier c) (last_error c) (last_used_at c).

Definition set_is_active (b : bool) (c : Credential) : Credential :=
  mkCredential (cred_id c) (user_id c) (name c) (api_key c) (refresh_token c)
    (client_id c) (client_secret c) (project_id c) (credential_type c) (email c)
    (is_public c) b (api_type c) (model_tier c) (last_error c) (last_used_at c).

(** [PATCH /credentials/{cred_id}] on the row it found: the row committed, or
    the [HTTPException(400)] raised before anything is written. The two
    query parameters are optional. *)
Definition update_my_antigravity_credential
  (cred : Credential) (p_is_public p_is_active : option bool) : res Credential :=
  cred1 <-
    match p_is_public with
    | Some true =>
        if negb (is_active cred) then Raise "400: 无效凭证不能捐赠，请先检测"
        else if auth_failure (last_error cred)
             then Raise "400: 凭证存在认证错误，不能捐赠"
             else Ok (set_is_public true cred)
    | Some false => Ok (set_is_public false cred)
    | None => Ok cred
    end ;;
  match p_is_active with
  | Some b => Ok (set_is_active b cred1)
  | None => Ok cred1
  end.

Section Callback.

(** [app.services.crypto.encrypt_credential] *)
Variable encrypt_credential : string -> string.

(** The verification block of [antigravity_credential_from_callback_url]:
    [first] is the probe with [gemini-2.5-flash], [second] the probe with
    [gemini-3-pro-preview], sent only after a 200 or 429. The result is
    [(is_valid, detected_tier)]; only 401 and 403 clear [is_valid]. *)
Definition callback_verify (first second : Probe.outcome) : bool * string :=
  match first with
  | Probe.Status code =>
      if Probe.status_ok code then
        match second with
        | Probe.Status code3 =>
            if Probe.status_ok code3 then (true, "3") else (true, "2.5")
        | Probe.Failed _ => (true, "2.5")
        end
      else if Probe.status_auth code then (false, "2.5")
      else (true, "2.5")
  | Probe.Failed _ => (true, "2.5")
  end.

(** [antigravity_credential_from_callback_url] from the duplicate check on:
    [existing] is the caller's credential with this email, if any; [new_id]
    is the key the database gives a new row. The result is the row that is
    committed. *)
Definition callback_store
  (existing : option Credential) (new_id uid : Z)
  (access_token refresh_tok email_addr proj : string)
  (data_is_public : bool) (first second : Probe.outcome) : Credential :=
  let credential :=
    match existing with
    | Some e =>
        mkCredential (cred_id e) (user_id e) (name e)
          (Some (encrypt_credential access_token))
          (Some (encrypt_credential refresh_tok))
          (client_id e) (client_secret e) (Some proj) (credential_type e)
          (email e) (is_public e) (is_active e) (api_type e) (model_tier e)
          (last_error e) (last_used_at e)
    | None =>
        mkCredential new_id uid ("Antigravity - " +:+ email_addr)
          (Some (encrypt_credential access_token))
          (Some (encrypt_credential refresh_tok))
          None None (Some proj) "oauth" (Some email_addr)
          data_is_public true "antigravity" "2.5" None None
    end in
  let '(valid, detected_tier) := callback_verify first second in
  mkCredential (cred_id credential) (user_id credential) (name credential)
    (api_key credential) (refresh_token credential)
    (client_id credential) (client_secret credential) (project_id credential)
    (credential_type credential) (email credential) (is_public credential)
    valid (api_type credential) detected_tier
    (last_error credential) (last_used_at credential).

End Callback.

(** When the PATCH does not also write [is_active], turning a credential
    public leaves it in a permitted state. *)
Lemma patch_public_only_ok (cred cred' : Credential) :
  update_my_antigravity_credential cred (Some true) None = Ok cred' ->
  is_public cred' = true /\ public_ok cred'.
Proof.
  unfold update_my_antigravity_credential. simpl.
  destruct (is_active cred) eqn:Ha; simpl; [|discriminate].
  destruct (auth_failure (last_error cred)) eqn:He; simpl; [discriminate|].
  intros [= <-]. split; [reflexivity|]. intros _. simpl. auto.
Qed.

(** The PATCH checks [is_active] as stored, then overwrites it with the
    request's value. *)
Example patch_public_and_deactivate :
  forall cred, is_active cred = true -> last_error cred = None ->
  exists cred', update_my_antigravity_credential cred (Some true) (Some false) = Ok cred' /\
                is_public cred' = true /\ is_active cred' = false.
Proof.
  intros cred Ha He. unfold update_my_antigravity_credential.
  rewrite Ha, He. simpl. eexists. split; [reflexivity|]. split; reflexivity.
Qed.

(** C1 (evaluation of the callback route). A new credential submitted through
    the OAuth callback with [is_public = true] whose probe answers 401 is
    committed public and inactive: the callback stores the flag as requested
    and only clears [is_active]. *)
Theorem callback_commits_public_inactive :
  let c := callback_store (fun s => "enc:" +:+ s) None 42 1
             "ya29.token" "1//refresh" "a@example.com" "proj-1"
             true (Probe.Status 401) (Probe.Status 401) in
  is_public c = true /\ is_active c = false /\ ~ public_ok c.
Proof.
  cbv zeta. split; [reflexivity|]. split; [reflexivity|].
  intros H. destruct H as [H _]; [reflexivity | discriminate H].
Qed.

End Visibility.

(** ** Verifying credentials: single routes and the background batch *)

Module VerifyRoutes.

Definition set_health (active : bool) (err : option string) (c : Credential) : Credential :=
  mkCredential (cred_id c) (user_id c) (name c) (api_key c) (refresh_token c)
    (client_id c) (client_secret c) (project_id c) (credential_type c) (email c)
    (is_public c) active (api_type c) (model_tier c) err (last_used_at c).

Definition set_project_id (p : option string) (c : Credential) : Credential :=
  mkCredential (cred_id c) (user_id c) (name c) (api_key c) (refresh_token c)
    (client_id c) (client_secret c) p (credential_type c) (email c)
    (is_public c) (is_active c) (api_type c) (model_tier c) (last_error c)
    (last_used_at c).

(** What the collaborators answer during one verification:
    [CredentialPool.get_access_token] (or [refresh_access_token] in the
    batch), [fetch_project_id], and the probe request. *)
Record answers : Type := mkAnswers {
  token_answer : res (option string);
  project_answer : res (option string);
  probe_answer : Probe.outcome
}.

(** The JSON body returned by the two single-credential routes. *)
Record verify_response : Type := mkResponse {
  resp_is_valid : bool;
  resp_project_id : option string;
  resp_error : option string
}.

(** Lines "使用 Antigravity 方式重新获取 project_id" to the final [return],
    shared by both single routes once a token is at hand. *)
Definition probe_and_store
  (new_project_id : option string) (probe : Probe.outcome) (cred : Credential)
  : Credential * verify_response :=
  let cred1 := if PyStr.truthy new_project_id
               then set_project_id new_project_id cred else cred in
  let v := if PyStr.truthy (project_id cred1)
           then Probe.classify probe
           else Probe.Verdict false (Some "无 project_id") in
  (set_health (Probe.is_valid v) (Probe.error_msg v) cred1,
   mkResponse (Probe.is_valid v) (project_id cred1) (Probe.error_msg v)).

(** [verify_my_antigravity_credential] on the row it found. The first
    component is the row as committed; when the outer [except Exception]
    fires nothing has been committed and the row is as before. *)
Definition verify_my_antigravity_credential
  (a : answers) (cred : Credential) : Credential * verify_response :=
  match token_answer a with
  | Raise e =>
      let m := "获取 token 异常: " +:+ PyStr.take 50 e in
      (set_health false (Some m) cred, mkResponse false None (Some m))
  | Ok access_token =>
      if negb (PyStr.truthy access_token) then
        (set_health false (Some "无法获取 access token") cred,
         mkResponse false None (Some "无法获取 access token"))
      else
        match project_answer a with
        | Raise e =>
            (cred, mkResponse false None (Some ("检测异常: " +:+ PyStr.take 50 e)))
        | Ok new_project_id => probe_and_store new_project_id (probe_answer a) cred
        end
  end.

(** [admin_verify_antigravity_credential] on the row it found: no [try]
    surrounds the token and project-id calls, so their exceptions leave the
    route (and the row untouched). *)
Definition admin_verify_antigravity_credential
  (a : answers) (cred : Credential) : res (Credential * verify_response) :=
  access_token <- token_answer a ;;
  if negb (PyStr.truthy access_token) then
    Ok (set_health false (Some "无法获取 access token") cred,
        mkResponse false None (Some "无法获取 access token"))
  else
    new_project_id <- project_answer a ;;
    Ok (probe_and_store new_project_id (probe_answer a) cred).

(** *** The background batch of [verify_all_antigravity_credentials] *)

(** The dictionary [verify_single] returns; the two-key form
    [{"id", "is_valid"}] has no [project_id] and no [token]. *)
Record single_result : Type := mkSingle {
  r_id : Z;
  r_is_valid : bool;
  r_project_id : option string;
  r_token : option string
}.

(** [verify_single(data)], where [data] is the snapshot of the row. *)
Definition verify_single (a : answers) (data : Credential) : single_result :=
  let failed := mkSingle (cred_id data) false None None in
  let token := if PyStr.truthy (refresh_token data) then token_answer a else Ok None in
  match token with
  | Raise _ => failed
  | Ok access_token =>
      if negb (PyStr.truthy access_token) then failed
      else
        let project :=
          if PyStr.truthy (project_id data) then Ok (project_id data)
          else project_answer a in
        match project with
        | Raise _ => failed
        | Ok proj =>
            if PyStr.truthy proj then
              match probe_answer a with
              | Probe.Status code =>
                  mkSingle (cred_id data) (Probe.status_ok code) proj access_token
              | Probe.Failed _ => failed
              end
            else mkSingle (cred_id data) false proj access_token
        end
  end.

Section Batch.

Variable encrypt_credential : string -> string.

(** One iteration of [for res in results]: the [UPDATE ... WHERE id = res.id]
    with [update_vals], applied to a row. *)
Definition apply_result (r : single_result) (c : Credential) : Credential :=
  if Z.eqb (cred_id c) (r_id r) then
    mkCredential (cred_id c) (user_id c) (name c)
      (if PyStr.truthy (r_token r)
       then Some (encrypt_credential (or_empty (r_token r))) else api_key c)
      (refresh_token c) (client_id c) (client_secret c)
      (if PyStr.truthy (r_project_id r) then r_project_id r else project_id c)
      (credential_type c) (email c) (is_public c)
      (r_is_valid r)
      (api_type c) (model_tier c) (last_error c) (last_used_at c)
  else c.

(** [run_in_background]: each selected row is verified from its snapshot with
    the answers the environment gives for it, then all updates are applied. *)
Definition run_in_background
  (env : Credential -> answers) (rows : list Credential) : list Credential :=
  let selected := List.filter (fun c => string_eqb (api_type c) MODE) rows in
  let results := List.map (fun d => verify_single (env d) d) selected in
  fold_left (fun rs r => List.map (apply_result r) rs) results rows.

End Batch.

(** A refresh or probe failure, as seen by the single routes. *)
Definition observed_failure (a : answers) : Prop :=
  (exists e, token_answer a = Raise e) \/
  (exists t, token_answer a = Ok t /\ PyStr.truthy t = false) \/
  (exists t p, token_answer a = Ok t /\ PyStr.truthy t = true /\
               project_answer a = Ok p /\
               Probe.is_valid (Probe.classify (probe_answer a)) = false).

Lemma classify_invalid_has_error (o : Probe.outcome) :
  Probe.is_valid (Probe.classify o) = false ->
  exists m, Probe.error_msg (Probe.classify o) = Some m.
Proof.
  destruct o as [code|e]; simpl.
  - destruct (Probe.status_ok code); simpl; [discriminate|].
    destruct (Probe.status_auth code); simpl; eauto.
  - eauto.
Qed.

(** The user's single-credential route records every observed failure on the
    row before answering: inactive, with the diagnostic it also returns. *)
Lemma verify_my_records_failure (a : answers) (cred : Credential) :
  observed_failure a ->
  is_active (fst (verify_my_antigravity_credential a cred)) = false /\
  resp_is_valid (snd (verify_my_antigravity_credential a cred)) = false /\
  exists m, last_error (fst (verify_my_antigravity_credential a cred)) = Some m /\
            resp_error (snd (verify_my_antigravity_credential a cred)) = Some m.
Proof.
  unfold verify_my_antigravity_credential.
  intros [(e & He) | [(t & Ht & Hf) | (t & p & Ht & Htr & Hp & Hv)]].
  - rewrite He. simpl. eauto.
  - rewrite Ht, Hf. simpl. eauto.
  - rewrite Ht, Htr, Hp. simpl. unfold probe_and_store. cbv zeta.
    set (c1 := if PyStr.truthy p then set_project_id p cred else cred).
    destruct (PyStr.truthy (project_id c1)); simpl.
    + destruct (classify_invalid_has_error _ Hv) as (m & Hm).
      rewrite Hv, Hm. eauto.
    + eauto.
Qed.

(** The administrator's route does the same when the token call returns
    nothing or the probe fails; when the token call raises, the exception
    leaves the route and nothing is written. *)
Lemma admin_verify_records_failure (a : answers) (cred : Credential) (t : option string) :
  token_answer a = Ok t ->
  PyStr.truthy t = false \/
    (exists p, project_answer a = Ok p /\
               Probe.is_valid (Probe.classify (probe_answer a)) = false) ->
  exists c' r m, admin_verify_antigravity_credential a cred = Ok (c', r) /\
                 is_active c' = false /\ last_error c' = Some m /\
                 resp_is_valid r = false /\ resp_error r = Some m.
Proof.
  unfold admin_verify_antigravity_credential. intros Ht H. rewrite Ht. simpl.
  destruct (PyStr.truthy t) eqn:Htr; simpl.
  - destruct H as [H | (p & Hp & Hv)]; [discriminate|].
    rewrite Hp. simpl. unfold probe_and_store. cbv zeta.
    set (c1 := if PyStr.truthy p then set_project_id p cred else cred).
    destruct (PyStr.truthy (project_id c1)); simpl.
    + destruct (classify_invalid_has_error _ Hv) as (m & Hm).
      do 3 eexists. split; [reflexivity|]. simpl. rewrite Hv, Hm. auto.
    + do 3 eexists. split; [reflexivity|]. simpl. auto.
  - do 3 eexists. split; [reflexivity|]. simpl. auto.
Qed.

Example admin_verify_token_exception (cred : Credential) :
  admin_verify_antigravity_credential
    (mkAnswers (Raise "ConnectTimeout") (Ok None) (Probe.Status 200)) cred
  = Raise "ConnectTimeout".
Proof. reflexivity. Qed.

Lemma apply_result_last_error (enc : string -> string) (r : single_result) (c : Credential) :
  last_error (apply_result enc r c) = last_error c.
Proof. unfold apply_result. destruct (Z.eqb _ _); reflexivity. Qed.

(** The batch never writes [last_error]: whatever the verdicts, every row
    keeps the diagnostic it had. *)
Lemma batch_keeps_last_error (enc : string -> string)
  (env : Credential -> answers) (rows : list Credential) :
  List.map last_error (run_in_background enc env rows) = List.map last_error rows.
Proof.
  unfold run_in_background. cbv zeta.
  generalize (List.map (fun d => verify_single (env d) d)
                (List.filter (fun c => string_eqb (api_type c) MODE) rows)).
  intros results. revert rows.
  induction results as [|r rs IH]; intros rows; simpl; [reflexivity|].
  rewrite IH. rewrite List.map_map. apply List.map_ext.
  intros c. apply apply_result_last_error.
Qed.

Definition healthy_cred : Credential :=
  mkCredential 7 1 "Antigravity - a@example.com" (Some "enc:old") (Some "enc:rt")
    None None (Some "proj-1") "oauth" (Some "a@example.com")
    false true MODE "2.5" None None.

(** C6 (evaluation of the batch path). A credential that was healthy, and
    whose probe in the verify-all batch answers 401, is committed inactive
    with [last_error] still empty: the batch writes [is_active] (and the
    project id and token) but no diagnostic. *)
Theorem batch_failure_without_diagnostic :
  let a := mkAnswers (Ok (Some "ya29.new")) (Ok None) (Probe.Status 401) in
  let rows' := run_in_background (fun s => "enc:" +:+ s) (fun _ => a) [healthy_cred] in
  List.map is_active rows' = [false] /\ List.map last_error rows' = [None] /\
  observed_failure a.
Proof.
  cbv zeta. split; [reflexivity|]. split; [reflexivity|].
  right. right. exists (Some "ya29.new"), None. repeat split; reflexivity.
Qed.

End VerifyRoutes.

(** ** Uploading credential files *)

Module Upload.

(** A credential document after [json.loads]: an object whose fields are
    strings or [null] (the exchange format has no other field types). A
    field can be absent, present and [null] ([Some None]) or a string. *)
Abbreviation cred_doc := (gmap string (option string)).

(** [cred_data.get(k)] *)
Definition doc_get (d : cred_doc) (k : string) : option string :=
  match d !! k with
  | Some v => v
  | None => None
  end.

(** [cred_data.get(k, default)] *)
Definition doc_get_default (d : cred_doc) (k : string) (dflt : string) : option string :=
  match d !! k with
  | Some v => v
  | None => Some dflt
  end.

(** [a or b] on optional strings. *)
Definition py_or (a b : option string) : option string :=
  if PyStr.truthy a then a else b.

(** What [json.loads(content.decode('utf-8'))] makes of the bytes of one
    entry: a document, [json.JSONDecodeError], or another exception. *)
Inductive parsed : Type :=
| Document (d : cred_doc)
| JsonDecodeError
| OtherError (msg : string).

(** What opening an uploaded file as a ZIP archive gives: its members (name
    and bytes, read in [namelist()] order), or an exception after some
    members had been read. *)
Inductive zip_read : Type :=
| ZipMembers (members : list (string * parsed))
| BadZipFile (read_before : list (string * parsed))
| ZipFailure (read_before : list (string * parsed)) (msg : string).

(** An uploaded file: its name and its bytes as seen by the reader the route
    chooses from the name ([zipfile.ZipFile] or [json.loads]). *)
Record UploadFile : Type := mkUploadFile {
  filename : string;
  as_zip : zip_read;
  as_json : parsed
}.

Inductive status : Type := success | warning | error | skip | info.

(** One element of [results]. *)
Record result : Type := mkResult {
  res_filename : string;
  res_status : status;
  res_message : string
}.

(** The member filter of the extraction loop. *)
Definition wanted_member (m : string * parsed) : bool :=
  PyStr.endswith ".json" (fst m) && negb (PyStr.startswith "__MACOSX" (fst m)).

(** The pre-processing loop [for file in files]: records for archives and
    rejected files, and the collected [json_files]. *)
Fixpoint collect_json_files (files : list UploadFile)
  : list result * list (string * parsed) :=
  match files with
  | [] => ([], [])
  | file :: rest =>
      let '(rs, js) := collect_json_files rest in
      if PyStr.endswith ".zip" (filename file) then
        match as_zip file with
        | ZipMembers members =>
            (mkResult (filename file) info
               ("已解压 " +:+
                PyStr.of_int (Z.of_nat (length (List.filter (fun m => PyStr.endswith ".json" (fst m)) members)))
                +:+ " 个JSON文件") :: rs,
             (List.filter wanted_member members ++ js)%list)
        | BadZipFile read_before =>
            (mkResult (filename file) error "无效的ZIP文件" :: rs,
             (List.filter wanted_member read_before ++ js)%list)
        | ZipFailure read_before e =>
            (mkResult (filename file) error ("解压失败: " +:+ PyStr.take 50 e) :: rs,
             (List.filter wanted_member read_before ++ js)%list)
        end
      else if PyStr.endswith ".json" (filename file) then
        (rs, (filename file, as_json file) :: js)
      else
        (mkResult (filename file) error "只支持 JSON 或 ZIP 文件" :: rs, js)
  end.

Section WithCollaborators.

(** [app.services.crypto.encrypt_credential]; it is handed whatever the
    document holds, [None] included, and may raise. *)
Variable encrypt_credential : option string -> res string.

(** The answers of the token service, the project-id lookup and the probe
    while the entry named [filename] is verified. *)
Variable env : string -> VerifyRoutes.answers.

(** [encrypt_credential(d.get(k)) if d.get(k) else None] *)
Definition encrypt_if_present (d : cred_doc) (k : string) : res (option string) :=
  if PyStr.truthy (doc_get d k) then
    e <- encrypt_credential (doc_get d k) ;; Ok (Some e)
  else Ok None.

(** [encrypt_credential(d.get("token") or d.get("access_token", ""))] *)
Definition encrypt_token (d : cred_doc) : res string :=
  encrypt_credential (py_or (doc_get d "token") (doc_get_default d "access_token" "")).

(** The inner [try] block "获取 access_token 并验证":
    [(is_valid, project_id, verify_msg)] as they stand after it. *)
Definition verify_entry (fname : string) (d : cred_doc)
  : bool * option string * string :=
  let project_id0 := doc_get_default d "project_id" "" in
  let warn (e : string) (p : option string) :=
    (false, p, "⚠️ 验证失败: " +:+ PyStr.take 30 e) in
  let a := env fname in
  let temp_cred :=
    _ <- encrypt_token d ;;
    _ <- encrypt_credential (doc_get d "refresh_token") ;;
    _ <- encrypt_if_present d "client_id" ;;
    encrypt_if_present d "client_secret" in
  match temp_cred with
  | Raise e => warn e project_id0
  | Ok _ =>
      match VerifyRoutes.token_answer a with
      | Raise e => warn e project_id0
      | Ok access_token =>
          if PyStr.truthy access_token then
            let fetched :=
              if negb (PyStr.truthy project_id0)
              then VerifyRoutes.project_answer a else Ok project_id0 in
            match fetched with
            | Raise e => warn e project_id0
            | Ok proj =>
                if PyStr.truthy proj then
                  match VerifyRoutes.probe_answer a with
                  | Probe.Failed e => warn e proj
                  | Probe.Status code =>
                      if Probe.status_ok code then
                        (true, proj,
                         "✅ 有效 (project: " +:+ PyStr.take 20 (or_empty proj) +:+ "...)")
                      else
                        (false, proj, "❌ API测试失败 (" +:+ PyStr.of_int code +:+ ")")
                  end
                else (false, proj, "❌ 无法获取 project_id")
            end
          else (false, project_id0, "❌ 无法获取 access_token")
      end
  end.

(** The key the database gives the next inserted row. *)
Definition fresh_id (rows : list Credential) : Z :=
  1 + fold_right Z.max 0 (List.map cred_id rows).

(** Loop state: the rows visible to the session (pending inserts included,
    the session flushes before each query), [results], [success_count]. *)
Record state : Type := mkState {
  rows : list Credential;
  results : list result;
  success_count : nat
}.

Definition push (r : result) (s : state) : state :=
  mkState (rows s) (results s ++ [r])%list (success_count s).

(** The body of [for filename, content in json_files] for a document, inside
    the outer [try]: a [Raise] is what the outer [except Exception] catches.
    The commit after every 50th stored credential changes no row and is left
    out. *)
Definition process_document
  (uid : Z) (is_public : bool) (fname : string) (d : cred_doc) (s : state)
  : res state :=
  if negb (bool_decide (is_Some (d !! "refresh_token"))) then
    Ok (push (mkResult fname error "缺少字段: refresh_token") s)
  else
    let email_addr := or_empty (py_or (doc_get d "email") (Some fname)) in
    let refresh_tok := doc_get d "refresh_token" in
    existing <- scalar_one_or_none
                  (List.filter
                     (fun c => opt_string_eqb (email c) (Some email_addr)
                               && string_eqb (api_type c) MODE) (rows s)) ;;
    match existing with
    | Some _ => Ok (push (mkResult fname skip ("凭证已存在: " +:+ email_addr)) s)
    | None =>
        encrypted_token <- encrypt_credential refresh_tok ;;
        existing_token <- scalar_one_or_none
                            (List.filter
                               (fun c => opt_string_eqb (refresh_token c) (Some encrypted_token)
                                         && string_eqb (api_type c) MODE) (rows s)) ;;
        match existing_token with
        | Some _ => Ok (push (mkResult fname skip ("凭证token已存在: " +:+ email_addr)) s)
        | None =>
            let '(valid, proj, verify_msg) := verify_entry fname d in
            let actual_public := is_public && valid in
            k <- encrypt_token d ;;
            rt <- encrypt_credential refresh_tok ;;
            cid <- encrypt_if_present d "client_id" ;;
            csec <- encrypt_if_present d "client_secret" ;;
            let credential :=
              mkCredential (fresh_id (rows s)) uid ("Antigravity - " +:+ email_addr)
                (Some k) (Some rt) cid csec proj "oauth" (Some email_addr)
                actual_public valid MODE "2.5" None None in
            let status_msg :=
              "上传成功 " +:+ verify_msg +:+
              (if is_public && negb valid then " (无效凭证不会上传到公共池)" else "") in
            Ok (mkState (rows s ++ [credential])%list
                  (results s ++ [mkResult fname (if valid then success else warning) status_msg])%list
                  (S (success_count s)))
        end
    end.

(** One iteration of the loop, with its two [except] clauses. *)
Definition process_entry
  (uid : Z) (is_public : bool) (entry : string * parsed) (s : state) : state :=
  let fname := fst entry in
  match snd entry with
  | JsonDecodeError => push (mkResult fname error "JSON 格式错误") s
  | OtherError e => push (mkResult fname error e) s
  | Document d =>
      match process_document uid is_public fname d s with
      | Ok s' => s'
      | Raise e => push (mkResult fname error e) s
      end
  end.

(** The JSON body of the response. *)
Record response : Type := mkResponse {
  uploaded_count : nat;
  total_count : nat;
  resp_results : list result
}.

(** [upload_antigravity_credentials]: the response, and the rows as the
    session holds them at the end (the stored rows, then those handed to
    [db.add]); an empty [files] is [HTTPException(400)]. The guarded commits
    (after every 50th row and at the end) decide how many of the added rows
    become durable; they do not enter the response and are not modelled. *)
Definition upload_antigravity_credentials
  (settings : Settings) (uid : Z) (files : list UploadFile) (form_is_public : bool)
  (db_rows : list Credential) : res (response * list Credential) :=
  match files with
  | [] => Raise "400: 请选择要上传的文件"
  | _ =>
      let is_public := if force_donate settings then true else form_is_public in
      let '(pre, json_files) := collect_json_files files in
      let final :=
        fold_left (fun s entry => process_entry uid is_public entry s)
                  json_files (mkState db_rows pre 0) in
      Ok (mkResponse (success_count final) (length json_files) (results final),
          rows final)
  end.

(** [cred_data.get("email") or filename] *)
Definition entry_email (fname : string) (d : cred_doc) : string :=
  or_empty (py_or (doc_get d "email") (Some fname)).

(** The stored credentials of this kind with a given email / refresh token. *)
Definition with_email (e : string) (rs : list Credential) : list Credential :=
  List.filter (fun c => opt_string_eqb (email c) (Some e)
                        && string_eqb (api_type c) MODE) rs.

Definition with_token (t : string) (rs : list Credential) : list Credential :=
  List.filter (fun c => opt_string_eqb (refresh_token c) (Some t)
                        && string_eqb (api_type c) MODE) rs.

(** The verification block ends with [is_valid = True]. *)
Definition verifies (fname : string) (d : cred_doc) : Prop :=
  fst (fst (verify_entry fname d)) = true.

(** Neither the email nor the encrypted refresh token of the entry is stored. *)
Definition fresh_entry (fname : string) (d : cred_doc) (rs : list Credential) : Prop :=
  with_email (entry_email fname d) rs = [] /\
  forall t, encrypt_credential (doc_get d "refresh_token") = Ok t -> with_token t rs = [].

Lemma verifies_encrypts (fname : string) (d : cred_doc) :
  verifies fname d ->
  exists k rt cid csec,
    encrypt_token d = Ok k /\
    encrypt_credential (doc_get d "refresh_token") = Ok rt /\
    encrypt_if_present d "client_id" = Ok cid /\
    encrypt_if_present d "client_secret" = Ok csec.
Proof.
  unfold verifies, verify_entry. cbv zeta.
  destruct (encrypt_token d) as [k|e]; simpl; [|discriminate].
  destruct (encrypt_credential (doc_get d "refresh_token")) as [rt|e];
    simpl; [|discriminate].
  destruct (encrypt_if_present d "client_id") as [cid|e]; simpl; [|discriminate].
  destruct (encrypt_if_present d "client_secret") as [csec|e]; simpl; [|discriminate].
  intros _. do 4 eexists. repeat split; reflexivity.
Qed.

(** A fresh entry that verifies is stored, counted, and reported [success]. *)
Lemma process_entry_valid (uid : Z) (pub : bool)
  (fname : string) (d : cred_doc) (s : state) :
  is_Some (d !! "refresh_token") ->
  fresh_entry fname d (rows s) ->
  verifies fname d ->
  exists c msg,
    process_entry uid pub (fname, Document d) s
      = mkState (rows s ++ [c]) (results s ++ [mkResult fname success msg])
                (S (success_count s)) /\
    email c = Some (entry_email fname d) /\ api_type c = MODE /\
    is_active c = true /\ is_public c = pub /\ last_error c = None.
Proof.
  intros Hrt [Hem Htok] Hv.
  destruct (verifies_encrypts fname d Hv) as (k & rt & cid & csec & Hk & Hr & Hc & Hs).
  unfold process_entry, process_document. simpl.
  rewrite (bool_decide_eq_true_2 _ Hrt). simpl.
  fold (entry_email fname d). fold (with_email (entry_email fname d) (rows s)).
  rewrite Hem. simpl. rewrite Hr. simpl.
  fold (with_token rt (rows s)). rewrite (Htok rt Hr). simpl.
  unfold verifies in Hv.
  destruct (verify_entry fname d) as [[valid proj] vmsg]. simpl in Hv. subst valid.
  rewrite Hk. simpl. rewrite Hc. simpl. rewrite Hs. simpl.
  do 2 eexists. split; [reflexivity|]. simpl.
  rewrite andb_true_r. repeat split; reflexivity.
Qed.

(** An entry without the [refresh_token] key is reported [error]; nothing
    else changes. *)
Lemma process_entry_missing (uid : Z) (pub : bool)
  (fname : string) (d : cred_doc) (s : state) :
  d !! "refresh_token" = None ->
  process_entry uid pub (fname, Document d) s
    = push (mkResult fname error "缺少字段: refresh_token") s.
Proof.
  intros H. unfold process_entry, process_document. simpl.
  rewrite bool_decide_eq_false_2; [reflexivity|].
  rewrite H. intros [x Hx]. discriminate.
Qed.

(** An entry whose email is stored once is reported [skip]; nothing else
    changes. *)
Lemma process_entry_duplicate (uid : Z) (pub : bool)
  (fname : string) (d : cred_doc) (s : state) (stored : Credential) :
  is_Some (d !! "refresh_token") ->
  with_email (entry_email fname d) (rows s) = [stored] ->
  process_entry uid pub (fname, Document d) s
    = push (mkResult fname skip ("凭证已存在: " +:+ entry_email fname d)) s.
Proof.
  intros Hrt Hem. unfold process_entry, process_document. simpl.
  rewrite (bool_decide_eq_true_2 _ Hrt). simpl.
  fold (entry_email fname d). fold (with_email (entry_email fname d) (rows s)).
  rewrite Hem. reflexivity.
Qed.

Lemma with_email_app (e : string) (l1 l2 : list Credential) :
  with_email e (l1 ++ l2) = (with_email e l1 ++ with_email e l2)%list.
Proof. unfold with_email. apply List.filter_app. Qed.

Lemma collect_nil_files : collect_json_files [] = ([], []).
Proof. reflexivity. Qed.

(** C3. An upload whose JSON entries are, in order, a fresh credential that
    verifies, a document without [refresh_token], and a document whose email
    is that of a stored credential of this kind, answers with the records
    [success], [error], [skip] for the three entries (after the records of
    the pre-processing, of which a plain JSON upload has none) and with
    [uploaded_count = 1]. *)
Theorem upload_scenario
  (settings : Settings) (uid : Z) (files : list UploadFile) (form_is_public : bool)
  (db_rows : list Credential) (pre : list result)
  (f1 f2 f3 : string) (d1 d2 d3 : cred_doc) (stored : Credential) :
  collect_json_files files
    = (pre, [(f1, Document d1); (f2, Document d2); (f3, Document d3)]) ->
  is_Some (d1 !! "refresh_token") ->
  fresh_entry f1 d1 db_rows ->
  verifies f1 d1 ->
  d2 !! "refresh_token" = None ->
  is_Some (d3 !! "refresh_token") ->
  with_email (entry_email f3 d3) db_rows = [stored] ->
  exists resp rows' entry_results,
    upload_antigravity_credentials settings uid files form_is_public db_rows
      = Ok (resp, rows') /\
    resp_results resp = (pre ++ entry_results)%list /\
    List.map res_status entry_results = [success; error; skip] /\
    List.map res_filename entry_results = [f1; f2; f3] /\
    uploaded_count resp = 1%nat /\
    total_count resp = 3%nat.
Proof.
  intros Hcollect Hrt1 Hfresh Hver Hmiss Hrt3 Hdup.
  unfold upload_antigravity_credentials.
  destruct files as [|file0 files0]; [discriminate Hcollect|].
  rewrite Hcollect. cbv zeta.
  set (pub := if force_donate settings then true else form_is_public).
  set (s0 := mkState db_rows pre 0).
  destruct (process_entry_valid uid pub f1 d1 s0 Hrt1 Hfresh Hver)
    as (c & msg & H1 & Hemail & Hmode & _).
  assert (Hne : entry_email f3 d3 <> entry_email f1 d1).
  { intros E. destruct Hfresh as [Hnone _]. rewrite <- E in Hnone.
    rewrite Hnone in Hdup. discriminate Hdup. }
  assert (Hdup' : with_email (entry_email f3 d3) (db_rows ++ [c]) = [stored]).
  { rewrite with_email_app, Hdup. unfold with_email. simpl.
    unfold opt_string_eqb. rewrite Hemail.
    rewrite bool_decide_eq_false_2 by congruence. reflexivity. }
  simpl fold_left. rewrite H1.
  rewrite (process_entry_missing uid pub f2 d2 _ Hmiss).
  rewrite (process_entry_duplicate uid pub f3 d3 _ stored Hrt3);
    [|exact Hdup'].
  eexists. eexists.
  exists [mkResult f1 success msg;
          mkResult f2 error "缺少字段: refresh_token";
          mkResult f3 skip ("凭证已存在: " +:+ entry_email f3 d3)].
  split; [reflexivity|]. simpl.
  split; [rewrite <- !app_assoc; reflexivity|].
  repeat split; reflexivity.
Qed.

(** Every row the loop adds is public only if it verified, and carries no
    error: the upload path keeps the visibility rule. *)
Lemma process_entry_public_ok (uid : Z) (pub : bool)
  (entry : string * parsed) (s : state) :
  Forall Visibility.public_ok (rows s) ->
  Forall Visibility.public_ok (rows (process_entry uid pub entry s)).
Proof.
  intros Hs. destruct entry as [fname [d| |e]]; unfold process_entry; simpl;
    try exact Hs.
  unfold process_document.
  destruct (negb _); simpl; [exact Hs|].
  destruct (scalar_one_or_none _) as [[x|]|]; simpl; try exact Hs.
  destruct (encrypt_credential (doc_get d "refresh_token")) as [t|];
    simpl; [|exact Hs].
  destruct (scalar_one_or_none _) as [[x|]|]; simpl; try exact Hs.
  destruct (verify_entry fname d) as [[valid proj] vmsg].
  destruct (encrypt_token d); simpl; [|exact Hs].
  destruct (encrypt_if_present d "client_id"); simpl; [|exact Hs].
  destruct (encrypt_if_present d "client_secret"); simpl; [|exact Hs].
  apply Forall_app. split; [exact Hs|]. constructor; [|constructor].
  intros Hpub. simpl in *. apply andb_true_iff in Hpub. destruct Hpub as [_ ->].
  split; reflexivity.
Qed.

End WithCollaborators.

(** *** The scenario on concrete files *)

Definition sample_encrypt (o : option string) : res string :=
  Ok ("enc:" +:+ or_empty o).

Definition sample_env (_ : string) : VerifyRoutes.answers :=
  VerifyRoutes.mkAnswers (Ok (Some "ya29.token")) (Ok (Some "proj-1")) (Probe.Status 200).

Definition doc_valid : cred_doc :=
  {[ "refresh_token" := Some "1//rt-new"; "email" := Some "new@example.com" ]}.

Definition doc_missing : cred_doc :=
  {[ "email" := Some "incomplete@example.com"; "project_id" := Some "proj-7" ]}.

Definition doc_duplicate : cred_doc :=
  {[ "refresh_token" := Some "1//rt-old"; "email" := Some "old@example.com" ]}.

Definition stored_cred : Credential :=
  mkCredential 3 9 "Antigravity - old@example.com" (Some "enc:tok") (Some "enc:1//rt-x")
    None None (Some "proj-0") "oauth" (Some "old@example.com")
    false true MODE "2.5" None None.

Definition sample_entries : list (string * parsed) :=
  [ ("a.json", Document doc_valid);
    ("b.json", Document doc_missing);
    ("c.json", Document doc_duplicate) ].

Definition json_upload : list UploadFile :=
  List.map (fun e => mkUploadFile (fst e) (BadZipFile []) (snd e)) sample_entries.

Definition zip_upload : list UploadFile :=
  [ mkUploadFile "bundle.zip" (ZipMembers sample_entries) JsonDecodeError ].

Definition sample_settings : Settings := mkSettings "client" "secret" false.

Definition statuses (r : res (response * list Credential)) : list status :=
  match r with
  | Ok (resp, _) => List.map res_status (resp_results resp)
  | Raise _ => []
  end.

Example json_upload_statuses :
  statuses (upload_antigravity_credentials sample_encrypt sample_env sample_settings
              1 json_upload false [stored_cred])
  = [success; error; skip].
Proof. vm_compute. reflexivity. Qed.

(** A ZIP bundle with the same entries: the archive's own [info] record comes
    first, then the three entry records. *)
Example zip_upload_statuses :
  statuses (upload_antigravity_credentials sample_encrypt sample_env sample_settings
              1 zip_upload false [stored_cred])
  = [info; success; error; skip].
Proof. vm_compute. reflexivity. Qed.

Lemma upload_scenario_witness :
  exists resp rows' entry_results,
    upload_antigravity_credentials sample_encrypt sample_env sample_settings
      1 zip_upload false [stored_cred] = Ok (resp, rows') /\
    resp_results resp
      = ([mkResult "bundle.zip" info "已解压 3 个JSON文件"] ++ entry_results)%list /\
    List.map res_status entry_results = [success; error; skip] /\
    List.map res_filename entry_results = ["a.json"; "b.json"; "c.json"] /\
    uploaded_count resp = 1%nat /\
    total_count resp = 3%nat.
Proof.
  apply (upload_scenario sample_encrypt sample_env sample_settings 1 zip_upload
           false [stored_cred] [mkResult "bundle.zip" info "已解压 3 个JSON文件"]
           "a.json" "b.json" "c.json" doc_valid doc_missing doc_duplicate
           stored_cred).
  - vm_compute. reflexivity.
  - exists (Some "1//rt-new"). vm_compute. reflexivity.
  - split.
    + vm_compute. reflexivity.
    + intros t Ht. vm_compute in Ht. injection Ht as <-. vm_compute. reflexivity.
  - vm_compute. reflexivity.
  - vm_compute. reflexivity.
  - exists (Some "1//rt-old"). vm_compute. reflexivity.
  - vm_compute. reflexivity.
Defined.

End Upload.

(** ** Decoded JSON *)

Module Json.

(** JSON values as [response.json()] returns them. *)
#[warnings="-register-all"]
Inductive json : Type :=
| JNull
| JBool (b : bool)
| JNum (n : Z)
| JStr (s : string)
| JArr (items : list json)
| JObj (fields : list (string * json)).

(** Python truthiness of a decoded JSON value. *)
Definition truthy (j : json) : bool :=
  match j with
  | JNull => false
  | JBool b => b
  | JNum n => negb (Z.eqb n 0)
  | JStr s => negb (string_eqb s "")
  | JArr items => match items with [] => false | _ => true end
  | JObj fields => match fields with [] => false | _ => true end
  end.

Fixpoint lookup (k : string) (fields : list (string * json)) : option json :=
  match fields with
  | [] => None
  | (k', v) :: rest => if string_eqb k k' then Some v else lookup k rest
  end.

(** [data.get(k, default)]; on a value that is not a [dict] the attribute
    [get] does not exist and the call raises. *)
Definition get_default (data : json) (k : string) (dflt : json) : res json :=
  match data with
  | JObj fields =>
      match lookup k fields with
      | Some v => Ok v
      | None => Ok dflt
      end
  | _ => Raise "AttributeError: object has no attribute 'get'"
  end.

(** [data.get(k)] *)
Definition get (data : json) (k : string) : res json := get_default data k JNull.

(** The elements a [for] loop draws from a value: the items of a list, the
    keys of a dict, the characters of a string; other values are not
    iterable. *)
Definition iterate (j : json) : res (list json) :=
  match j with
  | JArr items => Ok items
  | JObj fields => Ok (List.map (fun kv => JStr (fst kv)) fields)
  | JStr s => Ok (List.map (fun c => JStr (String c EmptyString)) (list_ascii_of_string s))
  | _ => Raise "TypeError: object is not iterable"
  end.

End Json.

(** ** Project-id resolution (antigravity_oauth.py) *)

Module ProjectId.
Import Json.

(** What a POST gives: a response (status code, and what [response.json()]
    returns or raises), or an exception of the HTTP client. *)
Inductive http : Type :=
| Response (status_code : Z) (body : res json)
| NetworkError (msg : string).

(** The upstream as the resolver sees it: the answer to the [n]-th call of
    each endpoint. *)
Record upstream : Type := mkUpstream {
  load_code_assist : nat -> http;
  onboard_user : nat -> http
}.

(** What the resolver does to the outside world, in order. *)
Inductive event : Type :=
| CallLoadCodeAssist
| CallOnboardUser
| Sleep (seconds : Z).

(** Step 1: the body of the first [try]; [Some p] is [return project_id],
    [None] is falling through to step 2 (exceptions included). *)
Definition primary_probe (r : http) : option json :=
  match r with
  | Response status_code body =>
      if Z.eqb status_code 200 then
        match (data <- body ;;
               current_tier <- get data "currentTier" ;;
               if truthy current_tier then
                 project_id <- get data "cloudaicompanionProject" ;;
                 Ok (if truthy project_id then Some project_id else None)
               else Ok None) with
        | Ok r => r
        | Raise _ => None
        end
      else None
  | NetworkError _ => None
  end.

(** The [for tier in allowed_tiers] loop of [_get_onboard_tier]. *)
Fixpoint default_tier (tiers : list json) : res json :=
  match tiers with
  | [] => Ok (JStr "LEGACY")
  | tier :: rest =>
      is_default <- get tier "isDefault" ;;
      if truthy is_default then get tier "id" else default_tier rest
  end.

(** [_get_onboard_tier]: the tier id, or [JNull] for [None]. *)
Definition _get_onboard_tier (r : http) : json :=
  match r with
  | Response status_code body =>
      if Z.eqb status_code 200 then
        match (data <- body ;;
               allowed_tiers <- get_default data "allowedTiers" (JArr []) ;;
               tiers <- iterate allowed_tiers ;;
               default_tier tiers) with
        | Ok tier_id => tier_id
        | Raise _ => JNull
        end
      else JNull
  | NetworkError _ => JNull
  end.

(** The project id inside a completed [onboardUser] payload: [Ok p] with [p]
    truthy is [return project_id], anything else leaves the loop. *)
Definition completed_project (data : json) : res json :=
  response_data <- get_default data "response" (JObj []) ;;
  project_obj <- get_default response_data "cloudaicompanionProject" (JObj []) ;;
  match project_obj with
  | JObj _ => get project_obj "id"
  | JStr s => Ok (JStr s)
  | _ => Ok JNull
  end.

(** The polling loop [for attempt in range(5)], from attempt number
    [attempt] with [left] iterations to go. *)
Fixpoint poll (up : upstream) (attempt left : nat) : option json * list event :=
  match left with
  | O => (None, [])
  | S left' =>
      match onboard_user up attempt with
      | NetworkError _ => (None, [CallOnboardUser])
      | Response status_code body =>
          if Z.eqb status_code 200 then
            match (data <- body ;; done <- get data "done" ;; Ok (data, done)) with
            | Raise _ => (None, [CallOnboardUser])
            | Ok (data, done) =>
                if truthy done then
                  match completed_project data with
                  | Ok project_id =>
                      (if truthy project_id then Some project_id else None,
                       [CallOnboardUser])
                  | Raise _ => (None, [CallOnboardUser])
                  end
                else
                  let '(r, tr) := poll up (S attempt) left' in
                  (r, CallOnboardUser :: Sleep 2 :: tr)
            end
          else (None, [CallOnboardUser])
      end
  end.

(** [fetch_antigravity_project_id]: the value returned ([None] for Python's
    [None]) and the calls and pauses made on the way. *)
Definition fetch_antigravity_project_id (up : upstream) : option json * list event :=
  match primary_probe (load_code_assist up 0) with
  | Some project_id => (Some project_id, [CallLoadCodeAssist])
  | None =>
      let tier_id := _get_onboard_tier (load_code_assist up 1) in
      if negb (truthy tier_id) then (None, [CallLoadCodeAssist; CallLoadCodeAssist])
      else
        let '(r, tr) := poll up 0 5 in
        (r, CallLoadCodeAssist :: CallLoadCodeAssist :: tr)
  end.

(** Number of provisioning calls in a trace. *)
Fixpoint onboard_calls (tr : list event) : nat :=
  match tr with
  | [] => 0
  | CallOnboardUser :: rest => S (onboard_calls rest)
  | _ :: rest => onboard_calls rest
  end.

(** Between two provisioning calls there is exactly one pause of 2 seconds:
    a call is either the last event, or followed by [Sleep 2] and the rest. *)
Fixpoint paced (tr : list event) : bool :=
  match tr with
  | [] => true
  | CallOnboardUser :: rest =>
      match rest with
      | [] => true
      | Sleep 2 :: rest' => paced rest'
      | _ => false
      end
  | CallLoadCodeAssist :: rest => paced rest
  | Sleep _ :: _ => false
  end.

(** The completion payload [{"done": true, "response":
    {"cloudaicompanionProject": p}}]. *)
Definition completion (p : json) : json :=
  JObj [("done", JBool true);
        ("response", JObj [("cloudaicompanionProject", p)])].

Definition in_progress : json := JObj [("done", JBool false)].

Lemma poll_bounded_and_paced (up : upstream) (left attempt : nat) :
  (onboard_calls (snd (poll up attempt left)) <= left)%nat /\
  paced (snd (poll up attempt left)) = true.
Proof.
  revert attempt. induction left as [|left IH]; intros attempt; simpl.
  - split; [lia | reflexivity].
  - destruct (onboard_user up attempt) as [code body|e]; simpl;
      [|split; [lia | reflexivity]].
    destruct (Z.eqb code 200); simpl; [|split; [lia | reflexivity]].
    destruct body as [data|e]; simpl; [|split; [lia | reflexivity]].
    destruct (get data "done") as [done|e]; simpl; [|split; [lia | reflexivity]].
    destruct (truthy done).
    + destruct (completed_project data); simpl; split; (lia || reflexivity).
    + specialize (IH (S attempt)).
      destruct (poll up (S attempt) left) as [r tr]. simpl in *.
      destruct IH as [IH1 IH2]. split; [lia | exact IH2].
Qed.

Lemma primary_probe_unprovisioned (fields : list (string * json)) :
  lookup "currentTier" fields = None ->
  primary_probe (Response 200 (Ok (JObj fields))) = None.
Proof. intros H. unfold primary_probe. simpl. rewrite H. reflexivity. Qed.

Lemma completed_project_forms (s : string) :
  completed_project (completion (JStr s)) = Ok (JStr s) /\
  completed_project (completion (JObj [("id", JStr s)])) = Ok (JStr s).
Proof. split; reflexivity. Qed.

(** C4. With a discovery response that has no [currentTier] (and yields a
    tier id), and a provisioning endpoint that answers [{"done": false}] and
    then the completion carrying [{"id": "proj-9"}], the resolver returns
    ["proj-9"] after exactly 2 provisioning calls, with one 2-second pause
    between them. On every upstream it makes at most 5 provisioning calls,
    each but the last followed by a 2-second pause before the next. A
    completion is accepted with the project as a bare string and as an
    object with an [id] field. *)
Theorem project_id_polling :
  (forall (up : upstream) (fields : list (string * json)),
     load_code_assist up 0 = Response 200 (Ok (JObj fields)) ->
     lookup "currentTier" fields = None ->
     truthy (_get_onboard_tier (load_code_assist up 1)) = true ->
     onboard_user up 0 = Response 200 (Ok in_progress) ->
     onboard_user up 1
       = Response 200 (Ok (completion (JObj [("id", JStr "proj-9")]))) ->
     fst (fetch_antigravity_project_id up) = Some (JStr "proj-9") /\
     onboard_calls (snd (fetch_antigravity_project_id up)) = 2%nat /\
     snd (fetch_antigravity_project_id up)
       = [CallLoadCodeAssist; CallLoadCodeAssist;
          CallOnboardUser; Sleep 2; CallOnboardUser]) /\
  (forall up : upstream,
     (onboard_calls (snd (fetch_antigravity_project_id up)) <= 5)%nat /\
     paced (snd (fetch_antigravity_project_id up)) = true) /\
  (forall (up : upstream) (s : string) (p : json),
     s <> "" -> p = JStr s \/ p = JObj [("id", JStr s)] ->
     onboard_user up 0 = Response 200 (Ok (completion p)) ->
     poll up 0 5 = (Some (JStr s), [CallOnboardUser])).
Proof.
  split; [|split].
  - intros up fields Hload Hno Htier H0 H1.
    unfold fetch_antigravity_project_id.
    rewrite Hload, (primary_probe_unprovisioned fields Hno), Htier.
    simpl. rewrite H0. simpl. rewrite H1. simpl. repeat split.
  - intros up. unfold fetch_antigravity_project_id.
    destruct (primary_probe _); [split; [simpl; lia | reflexivity]|].
    destruct (negb _); [split; [simpl; lia | reflexivity]|].
    pose proof (poll_bounded_and_paced up 5 0) as [Hb Hp].
    destruct (poll up 0 5) as [r tr]. simpl in *. split; assumption.
  - intros up s p Hs Hp H0. simpl. rewrite H0.
    assert (Ht : truthy (JStr s) = true).
    { simpl. unfold string_eqb. rewrite bool_decide_eq_false_2 by exact Hs.
      reflexivity. }
    destruct Hp as [-> | ->]; simpl; unfold string_eqb in *;
      rewrite bool_decide_eq_false_2 by exact Hs; reflexivity.
Qed.

(** A discovery response without tiers: the tier falls back to [LEGACY]. *)
Definition sample_upstream : upstream :=
  mkUpstream
    (fun _ => Response 200 (Ok (JObj [("allowedTiers", JArr [])])))
    (fun n => match n with
              | O => Response 200 (Ok in_progress)
              | _ => Response 200 (Ok (completion (JObj [("id", JStr "proj-9")])))
              end).

Definition bare_string_upstream : upstream :=
  mkUpstream (fun _ => Response 200 (Ok (JObj [])))
             (fun _ => Response 200 (Ok (completion (JStr "proj-9")))).

Lemma project_id_polling_witness :
  fst (fetch_antigravity_project_id sample_upstream) = Some (JStr "proj-9") /\
  onboard_calls (snd (fetch_antigravity_project_id sample_upstream)) = 2%nat /\
  poll bare_string_upstream 0 5 = (Some (JStr "proj-9"), [CallOnboardUser]).
Proof.
  destruct project_id_polling as (Hscenario & _ & Hforms).
  destruct (Hscenario sample_upstream [("allowedTiers", JArr [])])
    as (Hv & Hn & _); try reflexivity.
  split; [exact Hv|]. split; [exact Hn|].
  apply (Hforms bare_string_upstream "proj-9" (JStr "proj-9")).
  - discriminate.
  - left. reflexivity.
  - reflexivity.
Defined.

(** Five answers [{"done": false}] in a row: five calls, each followed by its
    pause, and no project id. *)
Example never_done :
  fetch_antigravity_project_id
    (mkUpstream (fun _ => Response 200 (Ok (JObj [])))
                (fun _ => Response 200 (Ok in_progress)))
  = (None,
     [CallLoadCodeAssist; CallLoadCodeAssist;
      CallOnboardUser; Sleep 2; CallOnboardUser; Sleep 2; CallOnboardUser; Sleep 2;
      CallOnboardUser; Sleep 2; CallOnboardUser; Sleep 2]).
Proof. reflexivity. Qed.

End ProjectId.

(** ** The read-through cache (cache.py, services/auth.py) *)

Module Cache.
Import Json.

(** An object that comes out of, or goes into, the cache: [None], a
    coroutine object that was never awaited, or plain data. *)
Inductive pyobj : Type :=
| PyNone
| Coroutine (origin : string)
| Plain (v : json).

(** [callable(getattr(result, "__await__", None))] *)
Definition is_awaitable (o : pyobj) : bool :=
  match o with
  | Coroutine _ => true
  | _ => false
  end.

Definition is_none (o : pyobj) : bool :=
  match o with
  | PyNone => true
  | _ => false
  end.

(** Truthiness; a coroutine object is truthy like any plain object. *)
Definition py_truthy (o : pyobj) : bool :=
  match o with
  | PyNone => false
  | Coroutine _ => true
  | Plain v => truthy v
  end.

(** [redis_service] as [SimpleCache] calls it: with a plain call, no
    [await]. Each field is what that call returns or raises. *)
Record redis_calls : Type := mkRedis {
  get_json : string -> res pyobj;
  set_json : string -> pyobj -> Z -> res unit;
  delete : string -> res unit
}.

(** The service of [redis_service.py]: [get_json], [set_json] and [delete]
    are [async def], so a plain call only builds a coroutine object; it runs
    nothing and raises nothing. *)
Definition redis_service : redis_calls :=
  mkRedis (fun _ => Ok (Coroutine "RedisService.get_json"))
          (fun _ _ _ => Ok tt)
          (fun _ => Ok tt).

(** [SimpleCache]: the two in-process dictionaries. *)
Record SimpleCache : Type := mkCache {
  _memory_cache : gmap string pyobj;
  _memory_expires : gmap string Z
}.

(** What a cache-backed read does, in order. *)
Inductive event : Type :=
| CacheGet (key : string)
| CacheDelete (key : string)
| CacheSet (key : string) (value : pyobj) (ttl : Z)
| Recompute.

Section WithRedis.

Variable redis : redis_calls.

(** [time.time()] at the moment of the call. *)
Variable now : Z.

Definition memory_get (key : string) (st : SimpleCache) : pyobj * SimpleCache :=
  match _memory_cache st !! key with
  | None => (PyNone, st)
  | Some v =>
      match _memory_expires st !! key with
      | Some t =>
          if Z.ltb t now
          then (PyNone, mkCache (base.delete key (_memory_cache st))
                                (base.delete key (_memory_expires st)))
          else (v, st)
      | None => (v, st)
      end
  end.

(** [SimpleCache.get] *)
Definition cache_get (key : string) (st : SimpleCache) : pyobj * SimpleCache :=
  match get_json redis key with
  | Ok result => if negb (is_none result) then (result, st) else memory_get key st
  | Raise _ => memory_get key st
  end.

(** [SimpleCache.set] *)
Definition cache_set (key : string) (value : pyobj) (ttl : Z) (st : SimpleCache)
  : SimpleCache :=
  match set_json redis key value ttl with
  | Ok _ => st
  | Raise _ => mkCache (<[key := value]> (_memory_cache st))
                       (<[key := now + ttl]> (_memory_expires st))
  end.

(** [SimpleCache.delete]: the Redis call (its failure is only printed), then
    both dictionaries. *)
Definition cache_delete (key : string) (st : SimpleCache) : SimpleCache :=
  mkCache (base.delete key (_memory_cache st)) (base.delete key (_memory_expires st)).

(** The [wrapper] of the [cached] decorator for one call: [key] is the cache
    key it computes, [func] what awaiting the decorated function gives. The
    result is the wrapper's outcome, the cache afterwards and the trace. *)
Definition cached (key : string) (ttl : Z) (func : res pyobj) (st : SimpleCache)
  : res pyobj * SimpleCache * list event :=
  let '(result, st1) := cache_get key st in
  if negb (is_none result) && negb (is_awaitable result) then
    (Ok result, st1, [CacheGet key])
  else
    let '(st2, tr) :=
      if negb (is_none result)
      then (cache_delete key st1, [CacheGet key; CacheDelete key])
      else (st1, [CacheGet key]) in
    match func with
    | Raise e => (Raise e, st2, (tr ++ [Recompute])%list)
    | Ok r =>
        if negb (is_awaitable r)
        then (Ok r, cache_set key r ttl st2,
              (tr ++ [Recompute; CacheSet key r ttl])%list)
        else (Ok r, st2, (tr ++ [Recompute])%list)
    end.

(** *** The API-key lookup *)

(** The columns of [User] that the cached dictionary carries. *)
Record User : Type := mkUser {
  u_id : json; username : json; u_email : json; hashed_password : json;
  discord_id : json; discord_name : json; u_is_active : json; is_admin : json;
  daily_quota : json; bonus_quota : json; quota_flash : json;
  quota_25pro : json; quota_30pro : json;
  created_at : Z
}.

(** [datetime.fromisoformat] and [datetime.isoformat]. *)
Variable fromisoformat : string -> option Z.
Variable isoformat : Z -> string.

(** [d[k]]: [KeyError] on a dict without the key, [TypeError] on anything
    that is not a dict. *)
Definition index (d : json) (k : string) : res json :=
  match d with
  | JObj fields =>
      match lookup k fields with
      | Some v => Ok v
      | None => Raise "KeyError"
      end
  | _ => Raise "TypeError"
  end.

(** The [User(...)] built from the cached dictionary; every failure is one
    of the [TypeError], [KeyError], [ValueError] the route catches. *)
Definition user_of_cached (d : json) : res User :=
  a1 <- index d "id" ;; a2 <- index d "username" ;; a3 <- index d "email" ;;
  a4 <- index d "hashed_password" ;; a5 <- index d "discord_id" ;;
  a6 <- index d "discord_name" ;; a7 <- index d "is_active" ;;
  a8 <- index d "is_admin" ;; a9 <- index d "daily_quota" ;;
  a10 <- index d "bonus_quota" ;; a11 <- index d "quota_flash" ;;
  a12 <- index d "quota_25pro" ;; a13 <- index d "quota_30pro" ;;
  c <- index d "created_at" ;;
  match c with
  | JStr s =>
      match fromisoformat s with
      | Some t => Ok (mkUser a1 a2 a3 a4 a5 a6 a7 a8 a9 a10 a11 a12 a13 t)
      | None => Raise "ValueError"
      end
  | _ => Raise "TypeError"
  end.

(** [user_dict] *)
Definition dict_of_user (u : User) : json :=
  JObj [ ("id", u_id u); ("username", username u); ("email", u_email u);
         ("hashed_password", hashed_password u); ("discord_id", discord_id u);
         ("discord_name", discord_name u); ("is_active", u_is_active u);
         ("is_admin", is_admin u); ("daily_quota", daily_quota u);
         ("bonus_quota", bonus_quota u); ("quota_flash", quota_flash u);
         ("quota_25pro", quota_25pro u); ("quota_30pro", quota_30pro u);
         ("created_at", JStr (isoformat (created_at u))) ].

(** [f"{CACHE_KEYS['user']}:api_key:{api_key}"] with [CACHE_KEYS['user'] = "user:"] *)
Definition user_cache_key (api_key : string) : string :=
  "user:" +:+ ":api_key:" +:+ api_key.

(** The database part of [get_user_by_api_key]: [db_user] is the user the two
    queries arrive at ([None] without an active key or without the user). *)
Definition lookup_in_db (cache_key : string) (db_user : option User) (st : SimpleCache)
  : option User * SimpleCache * list event :=
  match db_user with
  | Some user =>
      (Some user, cache_set cache_key (Plain (dict_of_user user)) 3600 st,
       [Recompute; CacheSet cache_key (Plain (dict_of_user user)) 3600])
  | None => (None, st, [Recompute])
  end.

(** [get_user_by_api_key] *)
Definition get_user_by_api_key (api_key : string) (db_user : option User)
  (st : SimpleCache) : option User * SimpleCache * list event :=
  let cache_key := user_cache_key api_key in
  let '(cached_user_dict, st1) := cache_get cache_key st in
  let fall_through (st' : SimpleCache) (tr : list event) :=
    let '(r, st'', tr') := lookup_in_db cache_key db_user st' in
    (r, st'', (tr ++ tr')%list) in
  if py_truthy cached_user_dict then
    if is_awaitable cached_user_dict then
      fall_through (cache_delete cache_key st1) [CacheGet cache_key; CacheDelete cache_key]
    else
      match cached_user_dict with
      | Plain d =>
          match user_of_cached d with
          | Ok user => (Some user, st1, [CacheGet cache_key])
          | Raise _ =>
              fall_through (cache_delete cache_key st1)
                           [CacheGet cache_key; CacheDelete cache_key]
          end
      | _ => fall_through st1 [CacheGet cache_key]
      end
  else fall_through st1 [CacheGet cache_key].

Lemma cache_delete_lookup (key : string) (st : SimpleCache) :
  _memory_cache (cache_delete key st) !! key = None /\
  _memory_expires (cache_delete key st) !! key = None.
Proof. split; apply lookup_delete_eq. Qed.

(** A coroutine object comes back from Redis, or from the dictionary, without
    any change to the dictionaries. *)
Lemma coroutine_read_state (key : string) (st : SimpleCache) (origin : string) :
  fst (cache_get key st) = Coroutine origin -> cache_get key st = (Coroutine origin, st).
Proof.
  unfold cache_get, memory_get.
  destruct (get_json redis key) as [[| |]|]; simpl;
    try (intros [= <-]; reflexivity);
    (destruct (_memory_cache st !! key); [|discriminate];
     destruct (_memory_expires st !! key) as [t|];
     [destruct (Z.ltb t now); [discriminate|]|];
     simpl; intros ->; reflexivity).
Qed.

(** What the recomputation hands to [cache.set]: the decorated function's
    result unless it raised or is itself awaitable; the user's dictionary if
    the database has the user. *)
Definition fresh_of_func (ttl : Z) (func : res pyobj) : option (pyobj * Z) :=
  match func with
  | Ok r => if is_awaitable r then None else Some (r, ttl)
  | Raise _ => None
  end.

Definition fresh_of_user (db_user : option User) : option (pyobj * Z) :=
  match db_user with
  | Some user => Some (Plain (dict_of_user user), 3600)
  | None => None
  end.

(** The two dictionaries after the entry for [key] was dropped and [fresh],
    if any, was offered to the cache: Redis takes it, or, when the Redis
    write raises, it goes into the dictionaries with its expiry. *)
Definition after_discard (key : string) (fresh : option (pyobj * Z)) (st : SimpleCache)
  : SimpleCache :=
  match fresh with
  | Some (v, ttl) =>
      match set_json redis key v ttl with
      | Ok _ =>
          mkCache (base.delete key (_memory_cache st))
                  (base.delete key (_memory_expires st))
      | Raise _ =>
          mkCache (<[key := v]> (base.delete key (_memory_cache st)))
                  (<[key := now + ttl]> (base.delete key (_memory_expires st)))
      end
  | None =>
      mkCache (base.delete key (_memory_cache st))
              (base.delete key (_memory_expires st))
  end.

Definition writes (key : string) (fresh : option (pyobj * Z)) : list event :=
  match fresh with
  | Some (v, ttl) => [CacheSet key v ttl]
  | None => []
  end.

Lemma cached_result_resolved (key : string) (ttl : Z) (func : res pyobj)
  (st : SimpleCache) (r : pyobj) :
  (forall v, func = Ok v -> is_awaitable v = false) ->
  fst (fst (cached key ttl func st)) = Ok r ->
  is_awaitable r = false.
Proof.
  intros Hfunc. unfold cached. destruct (cache_get key st) as [result st1].
  destruct (negb (is_none result) && negb (is_awaitable result)) eqn:Hhit.
  - simpl. intros [= <-]. apply andb_true_iff in Hhit. destruct Hhit as [_ Hna].
    apply negb_true_iff in Hna. exact Hna.
  - destruct (if negb (is_none result) then _ else _) as [st2 tr].
    destruct func as [v|e]; [|discriminate].
    destruct (negb (is_awaitable v)); simpl; intros [= <-]; apply Hfunc; reflexivity.
Qed.

(** C7. In the [cached] wrapper and in the API-key lookup, when the cache
    hands back an un-awaited coroutine object: the entry for the key is
    removed from both in-process dictionaries, the underlying computation
    (the decorated function, the database lookup) is run, its outcome is what
    the caller gets, and the cache operations are exactly get, delete,
    recompute and, for a result worth caching, one set; afterwards the key
    is in the dictionaries only if that fresh result was written there. The
    wrapper never returns an awaitable unless the decorated function itself
    resolves to one; the lookup returns the database's user or nothing. *)
Theorem cached_read_discards_coroutine
  (key : string) (st : SimpleCache) (origin : string) :
  fst (cache_get key st) = Coroutine origin ->
  (forall ttl func,
     cached key ttl func st
       = (func,
          after_discard key (fresh_of_func ttl func) st,
          ([CacheGet key; CacheDelete key; Recompute]
           ++ writes key (fresh_of_func ttl func))%list)) /\
  (forall ttl func r,
     (forall v, func = Ok v -> is_awaitable v = false) ->
     fst (fst (cached key ttl func st)) = Ok r -> is_awaitable r = false) /\
  (forall api_key db_user,
     key = user_cache_key api_key ->
     get_user_by_api_key api_key db_user st
       = (db_user,
          after_discard key (fresh_of_user db_user) st,
          ([CacheGet key; CacheDelete key; Recompute]
           ++ writes key (fresh_of_user db_user))%list)) /\
  (forall fresh,
     _memory_cache (after_discard key fresh st) !! key
       = match fresh with
         | Some (v, ttl) =>
             match set_json redis key v ttl with
             | Ok _ => None
             | Raise _ => Some v
             end
         | None => None
         end).
Proof.
  intros H. apply coroutine_read_state in H.
  split; [|split; [|split]].
  - intros ttl func. unfold cached. rewrite H. simpl.
    destruct func as [r|e]; [|reflexivity]. simpl.
    destruct (is_awaitable r); simpl; [reflexivity|].
    unfold cache_set, cache_delete. simpl.
    destruct (set_json redis key r ttl); reflexivity.
  - intros ttl func r. apply cached_result_resolved.
  - intros api_key db_user ->. unfold get_user_by_api_key. cbv zeta.
    rewrite H. simpl. unfold lookup_in_db.
    destruct db_user as [u|]; simpl; [|reflexivity].
    unfold cache_set, cache_delete. simpl.
    destruct (set_json redis (user_cache_key api_key) (Plain (dict_of_user u)) 3600);
      reflexivity.
  - intros [[v ttl]|]; simpl.
    + destruct (set_json redis key v ttl); simpl;
        [apply lookup_delete_eq | apply lookup_insert_eq].
    + apply lookup_delete_eq.
Qed.

End WithRedis.

(** With the service of this repository every [SimpleCache.get] returns the
    coroutine object of the un-awaited [get_json] call, whatever the
    dictionaries hold. *)
Lemma cache_get_repo (now : Z) (key : string) (st : SimpleCache) :
  cache_get redis_service now key st = (Coroutine "RedisService.get_json", st).
Proof. reflexivity. Qed.

Definition empty_cache : SimpleCache := mkCache ∅ ∅.

Definition sample_stats : pyobj := Plain (JObj [("total", JNum 12); ("active", JNum 9)]).

(** A dictionary that still holds an old entry for the key. *)
Definition stale_cache : SimpleCache :=
  mkCache {[ "stats:get_stats:42" := Plain (JNum 1) ]} {[ "stats:get_stats:42" := 5000 ]}.

Lemma cached_read_discards_coroutine_witness :
  cached redis_service 1000 "stats:get_stats:42" 30 (Ok sample_stats) stale_cache
    = (Ok sample_stats,
       mkCache (base.delete "stats:get_stats:42" (_memory_cache stale_cache))
               (base.delete "stats:get_stats:42" (_memory_expires stale_cache)),
       [CacheGet "stats:get_stats:42"; CacheDelete "stats:get_stats:42"; Recompute;
        CacheSet "stats:get_stats:42" sample_stats 30]) /\
  _memory_cache
    (snd (fst (cached redis_service 1000 "stats:get_stats:42" 30 (Ok sample_stats)
                 stale_cache))) !! "stats:get_stats:42" = None.
Proof.
  pose proof (cached_read_discards_coroutine redis_service 1000
                (fun _ => None) (fun _ => "") "stats:get_stats:42" stale_cache
                "RedisService.get_json" eq_refl) as (H1 & _ & _ & H4).
  split.
  - rewrite H1. reflexivity.
  - rewrite H1. exact (H4 (Some (sample_stats, 30))).
Defined.

End Cache.

(** ** Quota display *)

Module Quota.

(** *** Numbers *)

(** A Python number as it arrives in the quota dictionary: an [int], or a
    [float] (IEEE binary64, as a [spec_float]). *)
Inductive number : Type :=
| PyInt (n : Z)
| PyFloat (x : spec_float).

Definition float_of_int (n : Z) : spec_float := binary_normalize 53 1024 n 0 false.

(** [remaining * 100] *)
Definition times_100 (r : number) : number :=
  match r with
  | PyInt n => PyInt (n * 100)
  | PyFloat x => PyFloat (SFmul 53 1024 x (float_of_int 100))
  end.

(** The integer nearest to [n * 2^e], ties going to the even one. *)
Definition nearest_even (n e : Z) : Z :=
  if 0 <=? e then n * 2 ^ e
  else
    let d := 2 ^ (- e) in
    let q := n / d in
    let r := n mod d in
    if 2 * r <? d then q
    else if d <? 2 * r then q + 1
    else if Z.even q then q else q + 1.

(** [round(x, 1)]. On a [float], CPython rounds the exact binary value to
    one decimal (ties to even) and converts that decimal back to the
    nearest [float]; an integral float and a non-finite one come back
    unchanged. On an [int] it is the identity. *)
Definition round_1 (v : number) : number :=
  match v with
  | PyInt n => PyInt n
  | PyFloat x =>
      PyFloat
        match x with
        | S754_finite s m e =>
            if 0 <=? e then x
            else
              match nearest_even (10 * Zpos m) e with
              | Zpos k => SFdiv 53 1024 (S754_finite s k 0) (S754_finite false 10 0)
              | _ => S754_zero s
              end
        | _ => x
        end
  end.

(** *** Dates *)

(** A [datetime]: wall-clock fields and the UTC offset of its [tzinfo] in
    seconds, if it has one. *)
Record datetime : Type := mkDatetime {
  year : Z; month : Z; day : Z;
  hour : Z; minute : Z; second : Z; microsecond : Z;
  utcoffset : option Z
}.

Definition is_leap (y : Z) : bool :=
  (y mod 4 =? 0) && (negb (y mod 100 =? 0) || (y mod 400 =? 0)).

Definition days_in_month (y m : Z) : Z :=
  if m =? 2 then (if is_leap y then 29 else 28)
  else if (m =? 4) || (m =? 6) || (m =? 9) || (m =? 11) then 30
  else 31.

(** Days in the years before [y] (proleptic Gregorian). *)
Definition days_before_year (y : Z) : Z :=
  let p := y - 1 in p * 365 + p / 4 - p / 100 + p / 400.

(** Days of year [y] before the first of month [m]. *)
Definition days_before_month (y m : Z) : Z :=
  nth (Z.to_nat m) [0; 0; 31; 59; 90; 120; 151; 181; 212; 243; 273; 304; 334] 0
  + (if (2 <? m) && is_leap y then 1 else 0).

(** [date.toordinal()] *)
Definition ordinal (d : datetime) : Z :=
  days_before_year (year d) + days_before_month (year d) (month d) + day d.

(** Seconds of the wall clock since the start of day 0. *)
Definition wall_seconds (d : datetime) : Z :=
  ordinal d * 86400 + hour d * 3600 + minute d * 60 + second d.

Definition valid (d : datetime) : Prop :=
  1 <= year d <= 9999 /\ 1 <= month d <= 12 /\
  1 <= day d <= days_in_month (year d) (month d) /\
  0 <= hour d < 24 /\ 0 <= minute d < 60 /\ 0 <= second d < 60.

Definition with_date (y m dd : Z) (d : datetime) : datetime :=
  mkDatetime y m dd (hour d) (minute d) (second d) (microsecond d) (utcoffset d).

Definition with_hour (h : Z) (d : datetime) : datetime :=
  mkDatetime (year d) (month d) (day d) h (minute d) (second d) (microsecond d)
    (utcoffset d).

(** The following calendar day; past 9999-12-31 is [OverflowError]. *)
Definition next_day (d : datetime) : option datetime :=
  if day d <? days_in_month (year d) (month d)
  then Some (with_date (year d) (month d) (day d + 1) d)
  else if month d <? 12 then Some (with_date (year d) (month d + 1) 1 d)
  else if year d <? 9999 then Some (with_date (year d + 1) 1 1 d)
  else None.

(** [d + timedelta(hours=h)] for [0 <= h < 24]: the wall clock moves, the
    [tzinfo] stays. *)
Definition plus_hours (h : Z) (d : datetime) : option datetime :=
  if hour d + h <? 24 then Some (with_hour (hour d + h) d)
  else
    match next_day d with
    | Some d' => Some (with_hour (hour d + h - 24) d')
    | None => None
    end.

(** [%m], [%d], [%H], [%M]: two digits, zero padded. *)
Definition two_digits (n : Z) : string :=
  if n <? 10 then "0" +:+ PyStr.of_int n else PyStr.of_int n.

(** [d.strftime("%m-%d %H:%M")] *)
Definition strftime_md_HM (d : datetime) : string :=
  two_digits (month d) +:+ "-" +:+ two_digits (day d) +:+ " " +:+
  two_digits (hour d) +:+ ":" +:+ two_digits (minute d).

(** [s.replace("Z", "+00:00")] *)
Fixpoint replace_Z (s : string) : string :=
  match s with
  | EmptyString => EmptyString
  | String c s' =>
      if Ascii.eqb c "Z"%char then "+00:00" +:+ replace_Z s'
      else String c (replace_Z s')
  end.

(** *** The route *)

(** One value of [quota_result["models"]]: either key may be missing. *)
Record quota_data : Type := mkQuotaData {
  remaining : option number;
  resetTime : option string
}.

(** One value of the returned [models]. *)
Record model_quota : Type := mkModelQuota {
  out_remaining : number;
  out_resetTime : string;
  out_resetTimeRaw : string
}.

Section WithParser.

(** [datetime.fromisoformat] *)
Variable fromisoformat : string -> option datetime.

(** The text handed to the parser. *)
Definition iso_text (reset_time_raw : string) : string :=
  if PyStr.endswith "Z" reset_time_raw then replace_Z reset_time_raw
  else reset_time_raw.

(** The [try] block "转换为北京时间": the display text, ["N/A"] when the raw
    text is empty or anything raises. *)
Definition beijing_text (reset_time_raw : string) : string :=
  if string_eqb reset_time_raw "" then "N/A"
  else
    match fromisoformat (iso_text reset_time_raw) with
    | Some utc_date =>
        match plus_hours 8 utc_date with
        | Some beijing_date => strftime_md_HM beijing_date
        | None => "N/A"
        end
    | None => "N/A"
    end.

(** The body of [for model_id, quota_data in ...items()]. *)
Definition convert (q : quota_data) : model_quota :=
  let r := match remaining q with Some r => r | None => PyInt 0 end in
  let reset_time_raw := or_empty (resetTime q) in
  mkModelQuota (round_1 (times_100 r)) (beijing_text reset_time_raw) reset_time_raw.

(** What [client.fetch_quota_info()] returned. *)
Record quota_result : Type := mkQuotaResult {
  q_success : bool;
  q_models : list (string * quota_data);
  q_error : option string
}.

(** The JSON body of the route. *)
Record quota_response : Type := mkQuotaResponse {
  success : bool;
  response_filename : option string;
  models : list (string * model_quota);
  response_error : option string
}.

(** [get_antigravity_credential_quota] on the row it found, given what the
    token service and [fetch_quota_info] answer. *)
Definition get_antigravity_credential_quota
  (cred : Credential) (token : res (option string)) (quota : res quota_result)
  : quota_response :=
  match token with
  | Raise e =>
      mkQuotaResponse false None [] (Some ("获取 token 失败: " +:+ PyStr.take 50 e))
  | Ok access_token =>
      if negb (PyStr.truthy access_token) then
        mkQuotaResponse false None [] (Some "无法获取 access token")
      else
        match quota with
        | Raise e =>
            mkQuotaResponse false None [] (Some ("获取配额异常: " +:+ PyStr.take 50 e))
        | Ok result =>
            if q_success result then
              mkQuotaResponse true
                (Some (if PyStr.truthy (email cred) then or_empty (email cred)
                       else "credential-" +:+ PyStr.of_int (cred_id cred)))
                (List.map (fun kv => (fst kv, convert (snd kv))) (q_models result))
                None
            else
              mkQuotaResponse false None []
                (Some (match q_error result with
                       | Some e => e
                       | None => "获取配额失败"
                       end))
        end
  end.

End WithParser.

(** *** Calendar facts *)

Lemma days_before_year_succ (y : Z) :
  days_before_year (y + 1) = days_before_year y + (if is_leap y then 366 else 365).
Proof.
  unfold days_before_year, is_leap. cbv zeta.
  replace (y + 1 - 1) with y by lia.
  destruct (Z.eqb_spec (y mod 4) 0) as [H4|H4];
  destruct (Z.eqb_spec (y mod 100) 0) as [H100|H100];
  destruct (Z.eqb_spec (y mod 400) 0) as [H400|H400]; simpl;
    Z.div_mod_to_equations; lia.
Qed.

Ltac month_cases m :=
  let H := fresh in
  assert (H : m = 1 \/ m = 2 \/ m = 3 \/ m = 4 \/ m = 5 \/ m = 6 \/
              m = 7 \/ m = 8 \/ m = 9 \/ m = 10 \/ m = 11 \/ m = 12) by lia;
  repeat (destruct H as [H | H]; [subst m|]); [..|subst m].

Lemma days_before_month_succ (y m : Z) :
  1 <= m < 12 ->
  days_before_month y (m + 1) = days_before_month y m + days_in_month y m.
Proof.
  intros Hm. month_cases m; try lia;
    unfold days_before_month, days_in_month; simpl;
    destruct (is_leap y); reflexivity.
Qed.

Lemma days_before_december (y : Z) :
  days_before_month y 12 + 31 = if is_leap y then 366 else 365.
Proof. unfold days_before_month. simpl. destruct (is_leap y); reflexivity. Qed.

Lemma days_in_month_bounds (y m : Z) : 28 <= days_in_month y m <= 31.
Proof.
  unfold days_in_month. destruct (m =? 2); [destruct (is_leap y); lia|].
  destruct ((m =? 4) || (m =? 6) || (m =? 9) || (m =? 11)); lia.
Qed.

Lemma next_day_spec (d d' : datetime) :
  valid d -> next_day d = Some d' ->
  ordinal d' = ordinal d + 1 /\ valid d' /\
  hour d' = hour d /\ minute d' = minute d /\ second d' = second d /\
  microsecond d' = microsecond d /\ utcoffset d' = utcoffset d.
Proof.
  intros (Hy & Hm & Hd & Hh & Hmi & Hs). unfold next_day.
  destruct (Z.ltb_spec (day d) (days_in_month (year d) (month d))) as [Hlt|Hge].
  - intros [= <-]. unfold ordinal, valid. simpl. repeat split; lia.
  - destruct (Z.ltb_spec (month d) 12) as [Hm12|Hm12].
    + intros [= <-]. unfold ordinal, valid. simpl.
      rewrite days_before_month_succ by lia.
      pose proof (days_in_month_bounds (year d) (month d + 1)).
      repeat split; lia.
    + destruct (Z.ltb_spec (year d) 9999) as [Hy9|Hy9]; [|discriminate].
      intros [= <-]. unfold ordinal, valid. simpl.
      assert (Hmonth : month d = 12) by lia.
      rewrite days_before_year_succ.
      pose proof (days_before_december (year d)) as Hdec.
      rewrite Hmonth in *.
      assert (Hday : day d = 31) by (unfold days_in_month in *; simpl in *; lia).
      change (days_before_month (year d + 1) 1) with
        (0 + (if (2 <? 1) && is_leap (year d + 1) then 1 else 0)).
      simpl. unfold days_in_month. simpl.
      destruct (is_leap (year d)); repeat split; lia.
Qed.

(** Adding [h] hours moves the wall clock by [h * 3600] seconds and changes
    nothing below the hour. *)
Lemma plus_hours_spec (h : Z) (d b : datetime) :
  valid d -> 0 <= h < 24 -> plus_hours h d = Some b ->
  wall_seconds b = wall_seconds d + h * 3600 /\ valid b /\
  minute b = minute d /\ second b = second d /\
  microsecond b = microsecond d /\ utcoffset b = utcoffset d.
Proof.
  intros Hv Hh. unfold plus_hours.
  destruct (Z.ltb_spec (hour d + h) 24) as [Hlt|Hge].
  - intros [= <-]. destruct Hv as (Hy & Hm & Hd & Hho & Hmi & Hs).
    unfold wall_seconds, ordinal, valid. simpl. repeat split; lia.
  - destruct (next_day d) as [d'|] eqn:E; [|discriminate].
    intros [= <-].
    destruct (next_day_spec d d' Hv E) as (Ho & Hv' & H1 & H2 & H3 & H4 & H5).
    destruct Hv as (Hy & Hm & Hd & Hho & Hmi & Hs).
    destruct Hv' as (Hy' & Hm' & Hd' & Hho' & Hmi' & Hs').
    unfold wall_seconds, valid in *. unfold ordinal in *. simpl in *.
    repeat split; try lia; congruence.
Qed.

Lemma plus_hours_total (h : Z) (d : datetime) :
  year d < 9999 -> exists b, plus_hours h d = Some b.
Proof.
  intros Hy. unfold plus_hours, next_day.
  destruct (hour d + h <? 24); [eauto|].
  destruct (day d <? _); [eauto|].
  destruct (month d <? 12); [eauto|].
  destruct (Z.ltb_spec (year d) 9999); [eauto | lia].
Qed.

(** [nearest_even n e] is within half a unit of [n * 2^e]. *)
Lemma nearest_even_close (n e : Z) :
  e < 0 -> 0 <= n ->
  2 * Z.abs (n - nearest_even n e * 2 ^ (- e)) <= 2 ^ (- e).
Proof.
  intros He Hn. unfold nearest_even.
  destruct (Z.leb_spec 0 e); [lia|]. cbv zeta.
  assert (Hd : 0 < 2 ^ (- e)) by (apply Z.pow_pos_nonneg; lia).
  set (d := 2 ^ (- e)) in *.
  pose proof (Z.div_mod n d ltac:(lia)) as Hdm.
  pose proof (Z.mod_pos_bound n d Hd) as Hr.
  set (q := n / d) in *. set (r := n mod d) in *.
  destruct (Z.ltb_spec (2 * r) d).
  - replace (n - q * d) with r by lia. lia.
  - destruct (Z.ltb_spec d (2 * r)).
    + replace (n - (q + 1) * d) with (r - d) by lia. lia.
    + destruct (Z.even q).
      * replace (n - q * d) with r by lia. lia.
      * replace (n - (q + 1) * d) with (r - d) by lia. lia.
Qed.

Lemma two_digits_length (n : Z) :
  0 <= n < 100 -> String.length (two_digits n) = 2%nat.
Proof.
  intros Hn.
  assert (Hall : forallb (fun k => Nat.eqb (String.length (two_digits (Z.of_nat k))) 2)
                         (seq 0 100) = true) by (vm_compute; reflexivity).
  rewrite forallb_forall in Hall.
  specialize (Hall (Z.to_nat n)). rewrite Z2Nat.id in Hall by lia.
  apply Nat.eqb_eq, Hall, in_seq. lia.
Qed.

Lemma strftime_length (d : datetime) :
  valid d -> String.length (strftime_md_HM d) = 11%nat.
Proof.
  intros (Hy & Hm & Hd & Hh & Hmi & Hs).
  pose proof (days_in_month_bounds (year d) (month d)).
  unfold strftime_md_HM. rewrite !PyStr.length_app.
  rewrite !two_digits_length by lia. reflexivity.
Qed.

(** *** What the claim asks of an entry, said without the route's functions *)

(** The float nearest to [k / 10], with sign [s]. *)
Definition tenths (s : bool) (k : Z) : spec_float :=
  match k with
  | Zpos p => SFdiv 53 1024 (S754_finite s p 0) (S754_finite false 10 0)
  | _ => S754_zero s
  end.

(** [v] is [x] rounded to one decimal place: for a float [m * 2^e] that is
    not integral, [v] is the float of [k / 10] where [k] is the integer
    nearest to ten times the magnitude, an exact half going to the even
    [k]; an integral float, an infinity, a NaN and an [int] stay as they
    are. *)
Definition one_decimal_of (x v : number) : Prop :=
  match x with
  | PyInt n => v = PyInt n
  | PyFloat (S754_finite s m e) =>
      if 0 <=? e then v = x
      else
        exists k,
          0 <= k /\
          2 * Z.abs (10 * Zpos m - k * 2 ^ (- e)) <= 2 ^ (- e) /\
          (2 * Z.abs (10 * Zpos m - k * 2 ^ (- e)) = 2 ^ (- e) -> Z.even k = true) /\
          v = PyFloat (tenths s k)
  | PyFloat _ => v = x
  end.

(** Reading a [MM-DD HH:MM] text back: month, day, hour, minute. *)
Definition digit_value (c : ascii) : option Z :=
  let n := Z.of_N (N_of_ascii c) in
  if (48 <=? n) && (n <=? 57) then Some (n - 48) else None.

Definition read_two (a b : ascii) : option Z :=
  match digit_value a, digit_value b with
  | Some x, Some y => Some (10 * x + y)
  | _, _ => None
  end.

Definition read_md_HM (text : string) : option (Z * Z * Z * Z) :=
  match text with
  | String m1 (String m2 (String s1 (String d1 (String d2 (String s2
      (String h1 (String h2 (String s3 (String n1 (String n2 EmptyString)))))))))) =>
      if Ascii.eqb s1 "-" && Ascii.eqb s2 " " && Ascii.eqb s3 ":" then
        match read_two m1 m2, read_two d1 d2, read_two h1 h2, read_two n1 n2 with
        | Some mo, Some d, Some h, Some mi => Some (mo, d, h, mi)
        | _, _, _, _ => None
        end
      else None
  | _ => None
  end.

(** The offset of a timestamp from UTC in seconds (none for a naive one),
    and the seconds of its instant counted on the UTC wall clock. *)
Definition offset (d : datetime) : Z :=
  match utcoffset d with
  | Some o => o
  | None => 0
  end.

Definition utc_seconds (d : datetime) : Z := wall_seconds d - offset d.

(** Eight hours later is past 9999-12-31. *)
Definition past_the_end (d : datetime) : bool :=
  (year d =? 9999) && (month d =? 12) && (day d =? 31) && (16 <=? hour d).

Section Surface.

Variable fromisoformat : string -> option datetime.

(** [text] is what the claim asks for the raw timestamp [t]: the
    [MM-DD HH:MM] of the wall clock eight hours after the one [t] denotes,
    that is the wall clock at UTC+8 for a [t] in UTC; and ["N/A"] where
    there is no such text: an empty or unreadable [t], or one whose eight
    hours later is no [datetime] any more. *)
Definition shown (t text : string) : Prop :=
  match (if string_eqb t "" then None else fromisoformat (iso_text t)) with
  | Some d =>
      if past_the_end d then text = "N/A"
      else
        exists b,
          valid b /\
          wall_seconds b = wall_seconds d + 8 * 3600 /\
          wall_seconds b = utc_seconds d + offset d + 8 * 3600 /\
          utcoffset b = utcoffset d /\
          read_md_HM text = Some (month b, day b, hour b, minute b) /\
          String.length text = 11%nat
  | None => text = "N/A"
  end.

(** What is asked of one surfaced entry [out] for the upstream entry [inp]. *)
Definition surfaced (inp : string * quota_data) (out : string * model_quota) : Prop :=
  fst out = fst inp /\
  out_resetTimeRaw (snd out)
    = match resetTime (snd inp) with Some t => t | None => "" end /\
  one_decimal_of
    (times_100 match remaining (snd inp) with Some r => r | None => PyInt 0 end)
    (out_remaining (snd out)) /\
  shown match resetTime (snd inp) with Some t => t | None => "" end
        (out_resetTime (snd out)).

End Surface.

Lemma nearest_even_spec (n e : Z) :
  e < 0 -> 0 <= n ->
  0 <= nearest_even n e /\
  2 * Z.abs (n - nearest_even n e * 2 ^ (- e)) <= 2 ^ (- e) /\
  (2 * Z.abs (n - nearest_even n e * 2 ^ (- e)) = 2 ^ (- e) ->
   Z.even (nearest_even n e) = true).
Proof.
  intros He Hn. split; [|split; [apply nearest_even_close; assumption|]].
  - unfold nearest_even. destruct (Z.leb_spec 0 e); [lia|]. cbv zeta.
    assert (Hd : 0 < 2 ^ (- e)) by (apply Z.pow_pos_nonneg; lia).
    assert (0 <= n / 2 ^ (- e)) by (apply Z.div_pos; lia).
    destruct (_ <? _); [lia|]. destruct (_ <? _); [lia|]. destruct (Z.even _); lia.
  - unfold nearest_even. destruct (Z.leb_spec 0 e); [lia|]. cbv zeta.
    assert (Hd : 0 < 2 ^ (- e)) by (apply Z.pow_pos_nonneg; lia).
    set (d := 2 ^ (- e)) in *.
    pose proof (Z.div_mod n d ltac:(lia)) as Hdm.
    pose proof (Z.mod_pos_bound n d Hd) as Hr.
    set (q := n / d) in *. set (r := n mod d) in *.
    destruct (Z.ltb_spec (2 * r) d).
    + replace (n - q * d) with r by lia. lia.
    + destruct (Z.ltb_spec d (2 * r)).
      * replace (n - (q + 1) * d) with (r - d) by lia. lia.
      * destruct (Z.even q) eqn:Hq; [intros _; exact Hq|].
        intros _. rewrite Z.even_add, Hq. reflexivity.
Qed.

Lemma round_1_one_decimal (x : number) : one_decimal_of x (round_1 x).
Proof.
  destruct x as [n|[s|s| |s m e]]; try reflexivity. simpl.
  destruct (Z.leb_spec 0 e); [reflexivity|].
  destruct (nearest_even_spec (10 * Zpos m) e ltac:(lia) ltac:(lia))
    as (H0 & Hclose & Htie).
  exists (nearest_even (10 * Zpos m) e).
  split; [exact H0|]. split; [exact Hclose|]. split; [exact Htie|].
  unfold tenths. destruct (nearest_even (10 * Zpos m) e); reflexivity.
Qed.

Lemma two_digits_read (n : Z) :
  0 <= n < 100 ->
  exists a b, two_digits n = String a (String b EmptyString) /\ read_two a b = Some n.
Proof.
  intros Hn.
  assert (Hall :
    forallb (fun k =>
               match two_digits (Z.of_nat k) with
               | String a (String b EmptyString) =>
                   match read_two a b with
                   | Some v => v =? Z.of_nat k
                   | None => false
                   end
               | _ => false
               end) (seq 0 100) = true) by (vm_compute; reflexivity).
  rewrite forallb_forall in Hall.
  specialize (Hall (Z.to_nat n)). rewrite Z2Nat.id in Hall by lia.
  specialize (Hall ltac:(apply in_seq; lia)).
  destruct (two_digits n) as [|a [|b [|? ?]]]; try discriminate.
  destruct (read_two a b) as [v|] eqn:E; [|discriminate].
  apply Z.eqb_eq in Hall. subst v. eauto.
Qed.

Lemma read_strftime (b : datetime) :
  valid b -> read_md_HM (strftime_md_HM b) = Some (month b, day b, hour b, minute b).
Proof.
  intros (Hy & Hm & Hd & Hh & Hmi & Hs).
  pose proof (days_in_month_bounds (year b) (month b)).
  destruct (two_digits_read (month b) ltac:(lia)) as (a1 & a2 & E1 & R1).
  destruct (two_digits_read (day b) ltac:(lia)) as (b1 & b2 & E2 & R2).
  destruct (two_digits_read (hour b) ltac:(lia)) as (c1 & c2 & E3 & R3).
  destruct (two_digits_read (minute b) ltac:(lia)) as (d1 & d2 & E4 & R4).
  unfold strftime_md_HM. rewrite E1, E2, E3, E4.
  cbv [String.append read_md_HM]. rewrite R1, R2, R3, R4. reflexivity.
Qed.

Lemma plus_hours_8 (d : datetime) :
  valid d ->
  if past_the_end d then plus_hours 8 d = None
  else exists b, plus_hours 8 d = Some b.
Proof.
  intros (Hy & Hm & Hd & Hh & Hmi & Hs). unfold past_the_end, plus_hours, next_day.
  destruct (Z.eqb_spec (year d) 9999) as [Ey|Ey];
  destruct (Z.eqb_spec (month d) 12) as [Em|Em];
  destruct (Z.eqb_spec (day d) 31) as [Ed|Ed];
  destruct (Z.leb_spec 16 (hour d)) as [Eh|Eh]; cbn [andb];
  destruct (Z.ltb_spec (hour d + 8) 24); try lia; eauto;
  destruct (Z.ltb_spec (day d) (days_in_month (year d) (month d))); eauto;
  destruct (Z.ltb_spec (month d) 12); eauto;
  destruct (Z.ltb_spec (year d) 9999); eauto; try lia.
  - rewrite Em in *. unfold days_in_month in *. simpl in *. lia.
  - rewrite Em in *. unfold days_in_month in *. simpl in *. lia.
Qed.

Section SurfaceFacts.

Variable fromisoformat : string -> option datetime.

(** The parser returns dates of the calendar. *)
Hypothesis parsed_valid : forall s d, fromisoformat s = Some d -> valid d.

Lemma beijing_text_shown (t : string) : shown fromisoformat t (beijing_text fromisoformat t).
Proof.
  unfold shown, beijing_text. destruct (string_eqb t ""); [reflexivity|].
  destruct (fromisoformat (iso_text t)) as [d|] eqn:E; [|reflexivity].
  pose proof (parsed_valid _ _ E) as Hv.
  pose proof (plus_hours_8 d Hv) as H8.
  destruct (past_the_end d).
  - rewrite H8. reflexivity.
  - destruct H8 as [b Hb]. rewrite Hb.
    destruct (plus_hours_spec 8 d b Hv ltac:(lia) Hb) as (Hsec & Hvb & _ & _ & _ & Hoff).
    exists b. split; [exact Hvb|]. split; [exact Hsec|].
    split; [unfold utc_seconds; lia|]. split; [exact Hoff|].
    split; [apply read_strftime; exact Hvb | apply strftime_length; exact Hvb].
Qed.

Lemma convert_surfaced (model_id : string) (q : quota_data) :
  surfaced fromisoformat (model_id, q) (model_id, convert fromisoformat q).
Proof.
  unfold surfaced, convert. cbn [fst snd out_resetTimeRaw out_remaining out_resetTime].
  split; [reflexivity|]. split; [destruct (resetTime q); reflexivity|].
  split; [apply round_1_one_decimal|].
  replace (or_empty (resetTime q))
    with (match resetTime q with Some t => t | None => "" end)
    by (destruct (resetTime q); reflexivity).
  apply beijing_text_shown.
Qed.

End SurfaceFacts.

(** C8. In a successful quota answer every upstream entry is surfaced, in
    order and under its model id, with the raw timestamp unchanged, with
    [remaining * 100] rounded to one decimal place (the nearest tenth, a
    half going to the even one, as a float; an [int] stays an [int]), and
    with a reset text that is the [MM-DD HH:MM] of the wall clock eight
    hours after the one the timestamp denotes: UTC+8 for a timestamp in
    UTC. Where the timestamp is empty or the parser refuses it, and where
    eight hours later is past 9999-12-31, the text is ["N/A"]. *)
Theorem quota_entry_surface
  (fromisoformat : string -> option datetime)
  (cred : Credential) (access_token : option string) (result : quota_result) :
  (forall s d, fromisoformat s = Some d -> valid d) ->
  PyStr.truthy access_token = true ->
  q_success result = true ->
  success (get_antigravity_credential_quota fromisoformat cred
             (Ok access_token) (Ok result)) = true /\
  Forall2 (surfaced fromisoformat)
    (q_models result)
    (models (get_antigravity_credential_quota fromisoformat cred
               (Ok access_token) (Ok result))).
Proof.
  intros Hvalid Htok Hok.
  unfold get_antigravity_credential_quota. rewrite Htok, Hok. simpl.
  split; [reflexivity|].
  induction (q_models result) as [|[model_id q] rest IH]; simpl; constructor.
  - apply convert_surfaced. exact Hvalid.
  - exact IH.
Qed.

(** *** Instances *)

Definition half : number := PyFloat (SFdiv 53 1024 (float_of_int 1) (float_of_int 2)).

Definition fifty : number := PyFloat (float_of_int 50).

(** A parser that knows two timestamps. *)
Definition sample_parser (s : string) : option datetime :=
  if string_eqb s "2025-12-31T20:30:00+00:00"
  then Some (mkDatetime 2025 12 31 20 30 0 0 (Some 0))
  else if string_eqb s "9999-12-31T20:30:00+00:00"
       then Some (mkDatetime 9999 12 31 20 30 0 0 (Some 0))
       else None.

Lemma sample_parser_valid (s : string) (d : datetime) :
  sample_parser s = Some d -> valid d.
Proof.
  unfold sample_parser.
  destruct (string_eqb s "2025-12-31T20:30:00+00:00");
    [|destruct (string_eqb s "9999-12-31T20:30:00+00:00"); [|discriminate]];
    intros [= <-]; unfold valid; vm_compute; repeat split; discriminate.
Qed.

Definition sample_result : quota_result :=
  mkQuotaResult true
    [ ("gemini-2.5-pro", mkQuotaData (Some half) (Some "2025-12-31T20:30:00Z")) ]
    None.

Example sample_quota_answer :
  models (get_antigravity_credential_quota sample_parser VerifyRoutes.healthy_cred
            (Ok (Some "ya29.token")) (Ok sample_result))
  = [ ("gemini-2.5-pro", mkModelQuota fifty "01-01 04:30" "2025-12-31T20:30:00Z") ].
Proof. vm_compute. reflexivity. Qed.

Lemma quota_entry_surface_witness :
  Forall2 (surfaced sample_parser)
    [ ("gemini-2.5-pro", mkQuotaData (Some half) (Some "2025-12-31T20:30:00Z")) ]
    [ ("gemini-2.5-pro", mkModelQuota fifty "01-01 04:30" "2025-12-31T20:30:00Z") ].
Proof.
  rewrite <- sample_quota_answer.
  apply (quota_entry_surface sample_parser VerifyRoutes.healthy_cred
           (Some "ya29.token") sample_result sample_parser_valid);
    reflexivity.
Defined.

(** A reset at 9999-12-31T20:30:00Z, a timestamp like any other: eight
    hours later is no [datetime], the [try] catches the [OverflowError],
    and the entry is returned with ["N/A"], which is no month-day
    hour:minute text. *)
Definition last_day_result : quota_result :=
  mkQuotaResult true
    [ ("gemini-2.5-pro", mkQuotaData (Some half) (Some "9999-12-31T20:30:00Z")) ]
    None.

Lemma reset_time_past_the_end :
  models (get_antigravity_credential_quota sample_parser VerifyRoutes.healthy_cred
            (Ok (Some "ya29.token")) (Ok last_day_result))
    = [ ("gemini-2.5-pro", mkModelQuota fifty "N/A" "9999-12-31T20:30:00Z") ] /\
  sample_parser (iso_text "9999-12-31T20:30:00Z")
    = Some (mkDatetime 9999 12 31 20 30 0 0 (Some 0)) /\
  read_md_HM "N/A" = None.
Proof. vm_compute. repeat split. Qed.

End Quota.

(** ** Further facts about project-id resolution *)

Module ProjectIdFacts.
Import Json ProjectId.

Lemma primary_probe_truthy (r : http) (p : json) :
  primary_probe r = Some p -> truthy p = true.
Proof.
  unfold primary_probe. destruct r as [code body|e]; [|discriminate].
  destruct (Z.eqb code 200); [|discriminate].
  destruct body as [data|e]; simpl; [|discriminate].
  destruct (get data "currentTier") as [t|e]; simpl; [|discriminate].
  destruct (truthy t); [|discriminate].
  destruct (get data "cloudaicompanionProject") as [q|e]; simpl; [|discriminate].
  destruct (truthy q) eqn:Hq; [|discriminate].
  intros [= <-]. exact Hq.
Qed.

Lemma poll_truthy (up : upstream) (left attempt : nat) (p : json) :
  fst (poll up attempt left) = Some p -> truthy p = true.
Proof.
  revert attempt. induction left as [|left IH]; intros attempt; simpl; [discriminate|].
  destruct (onboard_user up attempt) as [code body|e]; simpl; [|discriminate].
  destruct (Z.eqb code 200); simpl; [|discriminate].
  destruct body as [data|e]; simpl; [|discriminate].
  destruct (get data "done") as [done|e]; simpl; [|discriminate].
  destruct (truthy done).
  - destruct (completed_project data) as [q|e]; simpl; [|discriminate].
    destruct (truthy q) eqn:Hq; [|discriminate]. intros [= <-]. exact Hq.
  - specialize (IH (S attempt)). destruct (poll up (S attempt) left) as [r tr].
    simpl in *. exact IH.
Qed.

(** X1. The resolver never hands out an empty identifier: whatever it returns
    is truthy, so a caller's [if not project_id] sees every failure. *)
Theorem resolved_id_is_truthy (up : upstream) (p : json) :
  fst (fetch_antigravity_project_id up) = Some p -> truthy p = true.
Proof.
  unfold fetch_antigravity_project_id.
  destruct (primary_probe (load_code_assist up 0)) as [q|] eqn:E.
  - simpl. intros [= <-]. exact (primary_probe_truthy _ _ E).
  - destruct (negb _); [discriminate|].
    pose proof (poll_truthy up 5 0 p) as H.
    destruct (poll up 0 5) as [r tr]. simpl in *. exact H.
Qed.

(** X2. An account that is already provisioned is answered from the discovery
    call alone: one [loadCodeAssist] call, no [onboardUser] call, no pause. *)
Theorem provisioned_needs_one_call
  (up : upstream) (fields : list (string * json)) (tier p : json) :
  load_code_assist up 0 = Response 200 (Ok (JObj fields)) ->
  lookup "currentTier" fields = Some tier -> truthy tier = true ->
  lookup "cloudaicompanionProject" fields = Some p -> truthy p = true ->
  fetch_antigravity_project_id up = (Some p, [CallLoadCodeAssist]).
Proof.
  intros Hload Ht Htt Hp Hpt. unfold fetch_antigravity_project_id, primary_probe.
  rewrite Hload. simpl. rewrite Ht. simpl. rewrite Htt. rewrite Hp. simpl.
  rewrite Hpt. reflexivity.
Qed.

Definition provisioned_upstream : upstream :=
  mkUpstream
    (fun _ => Response 200
                (Ok (JObj [("currentTier", JStr "FREE");
                           ("cloudaicompanionProject", JStr "proj-123")])))
    (fun _ => NetworkError "unreachable").

Lemma provisioned_needs_one_call_witness :
  fetch_antigravity_project_id provisioned_upstream
    = (Some (JStr "proj-123"), [CallLoadCodeAssist]).
Proof.
  apply (provisioned_needs_one_call provisioned_upstream
           [("currentTier", JStr "FREE"); ("cloudaicompanionProject", JStr "proj-123")]
           (JStr "FREE") (JStr "proj-123")); reflexivity.
Defined.

Lemma resolved_id_is_truthy_witness :
  truthy (JStr "proj-123") = true.
Proof.
  apply (resolved_id_is_truthy provisioned_upstream (JStr "proj-123")). reflexivity.
Defined.

(** A tier entry that is an object and is not flagged as the default. *)
Definition not_default (t : json) : Prop :=
  exists f, t = JObj f /\
            forall v, lookup "isDefault" f = Some v -> truthy v = false.

Lemma default_tier_skips (pre rest : list json) :
  Forall not_default pre -> default_tier (pre ++ rest) = default_tier rest.
Proof.
  induction 1 as [|t pre (f & -> & Hf) _ IH]; [reflexivity|].
  simpl. unfold get, get_default.
  destruct (lookup "isDefault" f) as [v|] eqn:E; simpl.
  - rewrite (Hf v eq_refl). exact IH.
  - exact IH.
Qed.

(** X3. The tier sent to [onboardUser] is the [id] of the first allowed tier
    flagged [isDefault]; without a flagged tier, or without an
    [allowedTiers] list at all, it is ["LEGACY"]; a discovery answer other
    than 200 gives no tier. *)
Theorem onboard_tier_choice :
  (forall fields pre f rest v,
     lookup "allowedTiers" fields = Some (JArr (pre ++ JObj f :: rest)) ->
     Forall not_default pre ->
     lookup "isDefault" f = Some v -> truthy v = true ->
     _get_onboard_tier (Response 200 (Ok (JObj fields)))
       = match lookup "id" f with Some i => i | None => JNull end) /\
  (forall fields tiers,
     lookup "allowedTiers" fields = Some (JArr tiers) ->
     Forall not_default tiers ->
     _get_onboard_tier (Response 200 (Ok (JObj fields))) = JStr "LEGACY") /\
  (forall fields,
     lookup "allowedTiers" fields = None ->
     _get_onboard_tier (Response 200 (Ok (JObj fields))) = JStr "LEGACY") /\
  (forall code body, code <> 200 -> _get_onboard_tier (Response code body) = JNull).
Proof.
  split; [|split; [|split]].
  - intros fields pre f rest v Hl Hpre Hd Hv. unfold _get_onboard_tier. simpl.
    unfold get_default. rewrite Hl. simpl.
    rewrite (default_tier_skips pre (JObj f :: rest) Hpre). simpl.
    unfold get, get_default. rewrite Hd. simpl. rewrite Hv.
    destruct (lookup "id" f); reflexivity.
  - intros fields tiers Hl Hall. unfold _get_onboard_tier. simpl.
    unfold get_default. rewrite Hl. simpl.
    rewrite <- (app_nil_r tiers). rewrite (default_tier_skips tiers [] Hall).
    reflexivity.
  - intros fields Hl. unfold _get_onboard_tier. simpl.
    unfold get_default. rewrite Hl. reflexivity.
  - intros code body Hc. unfold _get_onboard_tier.
    destruct (Z.eqb_spec code 200); [contradiction | reflexivity].
Qed.

Lemma onboard_tier_choice_witness :
  _get_onboard_tier
    (Response 200
       (Ok (JObj [("allowedTiers",
                   JArr [JObj [("id", JStr "free-tier")];
                         JObj [("id", JStr "standard-tier"); ("isDefault", JBool true)];
                         JObj [("id", JStr "legacy-tier"); ("isDefault", JBool true)]])])))
    = JStr "standard-tier" /\
  _get_onboard_tier (Response 200 (Ok (JObj []))) = JStr "LEGACY" /\
  _get_onboard_tier (Response 503 (Raise "no body")) = JNull.
Proof.
  destruct onboard_tier_choice as (H1 & _ & H3 & H4).
  split; [|split].
  - apply (H1 _ [JObj [("id", JStr "free-tier")]]
              [("id", JStr "standard-tier"); ("isDefault", JBool true)]
              [JObj [("id", JStr "legacy-tier"); ("isDefault", JBool true)]]
              (JBool true)).
    + reflexivity.
    + constructor; [|constructor]. eexists. split; [reflexivity|].
      intros v Hv. discriminate Hv.
    + reflexivity.
    + reflexivity.
  - apply H3. reflexivity.
  - apply H4. discriminate.
Defined.

End ProjectIdFacts.

(** ** Further facts about the upload route *)

Module UploadFacts.
Import Upload.

(** A record of an entry that was stored. *)
Definition stored (r : result) : bool :=
  match res_status r with
  | success | warning => true
  | _ => false
  end.

(** No two stored credentials of this kind share an email. *)
Definition unique_emails (rs : list Credential) : Prop :=
  forall e, (length (with_email e rs) <= 1)%nat.

Section WithCollaborators.

Variable encrypt_credential : option string -> res string.
Variable env : string -> VerifyRoutes.answers.

(** What a row written by the loop looks like. *)
Definition written_by (uid : Z) (pub : bool) (c : Credential) : Prop :=
  user_id c = uid /\ api_type c = MODE /\ last_error c = None /\
  is_public c = pub && is_active c /\ credential_type c = "oauth".

(** One iteration appends exactly one record, named after the entry; it adds
    one row and counts one upload exactly when that record is [success] or
    [warning]; a row is added only for an email that was not stored. *)
Lemma process_entry_step (uid : Z) (pub : bool) (entry : string * parsed) (s : state) :
  exists r new,
    results (process_entry encrypt_credential env uid pub entry s)
      = (results s ++ [r])%list /\
    res_filename r = fst entry /\
    rows (process_entry encrypt_credential env uid pub entry s)
      = (rows s ++ new)%list /\
    length new = (if stored r then 1 else 0)%nat /\
    success_count (process_entry encrypt_credential env uid pub entry s)
      = (success_count s + (if stored r then 1 else 0))%nat /\
    Forall (written_by uid pub) new /\
    Forall (fun c => exists e, email c = Some e /\ with_email e (rows s) = []) new.
Proof.
  assert (Hpush : forall r0, stored r0 = false -> res_filename r0 = fst entry ->
    exists r new,
      results (push r0 s) = (results s ++ [r])%list /\
      res_filename r = fst entry /\
      rows (push r0 s) = (rows s ++ new)%list /\
      length new = (if stored r then 1 else 0)%nat /\
      success_count (push r0 s) = (success_count s + (if stored r then 1 else 0))%nat /\
      Forall (written_by uid pub) new /\
      Forall (fun c => exists e, email c = Some e /\ with_email e (rows s) = []) new).
  { intros r0 Hr0 Hn. exists r0, []. simpl. rewrite Hr0, app_nil_r.
    repeat split; auto; lia. }
  destruct entry as [fname [d| |e]]; unfold process_entry; simpl;
    try (apply Hpush; reflexivity).
  unfold process_document.
  destruct (negb _); simpl; [apply Hpush; reflexivity|].
  fold (entry_email fname d). fold (with_email (entry_email fname d) (rows s)).
  destruct (with_email (entry_email fname d) (rows s)) as [|x [|y l]] eqn:Hem;
    simpl; try (apply Hpush; reflexivity).
  destruct (encrypt_credential (doc_get d "refresh_token")) as [t|];
    simpl; [|apply Hpush; reflexivity].
  destruct (scalar_one_or_none _) as [[x|]|]; simpl; try (apply Hpush; reflexivity).
  destruct (verify_entry encrypt_credential env fname d) as [[valid proj] vmsg].
  destruct (encrypt_token encrypt_credential d); simpl; [|apply Hpush; reflexivity].
  destruct (encrypt_if_present encrypt_credential d "client_id");
    simpl; [|apply Hpush; reflexivity].
  destruct (encrypt_if_present encrypt_credential d "client_secret");
    simpl; [|apply Hpush; reflexivity].
  eexists. eexists. split; [reflexivity|]. split; [reflexivity|].
  split; [reflexivity|]. simpl.
  assert (Hst : stored (mkResult fname (if valid then success else warning)
                          ("上传成功 " +:+ vmsg +:+
                           (if pub && negb valid
                            then " (无效凭证不会上传到公共池)" else ""))) = true)
    by (destruct valid; reflexivity).
  rewrite Hst. split; [reflexivity|]. split; [lia|]. split.
  - constructor; [|constructor]. unfold written_by. simpl. auto.
  - constructor; [|constructor]. simpl. eauto.
Qed.

Definition run_entries (uid : Z) (pub : bool)
  (entries : list (string * parsed)) (s : state) : state :=
  fold_left (fun st entry => process_entry encrypt_credential env uid pub entry st)
            entries s.

Lemma run_entries_accounting (uid : Z) (pub : bool) (entries : list (string * parsed)) :
  forall s,
  exists ers new,
    results (run_entries uid pub entries s) = (results s ++ ers)%list /\
    List.map res_filename ers = List.map fst entries /\
    rows (run_entries uid pub entries s) = (rows s ++ new)%list /\
    length new = length (List.filter stored ers) /\
    success_count (run_entries uid pub entries s)
      = (success_count s + length (List.filter stored ers))%nat /\
    Forall (written_by uid pub) new.
Proof.
  induction entries as [|entry rest IH]; intros s.
  - exists [], []. simpl. rewrite !app_nil_r. repeat split; auto.
  - destruct (process_entry_step uid pub entry s)
      as (r & new1 & Hres & Hname & Hrows & Hlen & Hcount & Hw & _).
    destruct (IH (process_entry encrypt_credential env uid pub entry s))
      as (ers & new2 & Hres2 & Hnames2 & Hrows2 & Hlen2 & Hcount2 & Hw2).
    exists (r :: ers), (new1 ++ new2)%list.
    change (run_entries uid pub (entry :: rest) s)
      with (run_entries uid pub rest
              (process_entry encrypt_credential env uid pub entry s)).
    rewrite Hres2, Hres, Hrows2, Hrows, Hcount2, Hcount.
    rewrite <- !app_assoc. simpl.
    split; [reflexivity|]. split; [congruence|]. split; [reflexivity|].
    rewrite length_app, Hlen, Hlen2.
    destruct (stored r); simpl; repeat split; try lia.
    + apply Forall_app. split; assumption.
    + apply Forall_app. split; assumption.
Qed.

Lemma with_email_length_app (e : string) (l1 l2 : list Credential) :
  length (with_email e (l1 ++ l2))
    = (length (with_email e l1) + length (with_email e l2))%nat.
Proof. rewrite with_email_app. apply length_app. Qed.

Lemma process_entry_unique (uid : Z) (pub : bool) (entry : string * parsed) (s : state) :
  unique_emails (rows s) ->
  unique_emails (rows (process_entry encrypt_credential env uid pub entry s)).
Proof.
  intros Hu.
  destruct (process_entry_step uid pub entry s)
    as (r & new & _ & _ & Hrows & Hlen & _ & Hw & Hfresh).
  rewrite Hrows. intros e. rewrite with_email_length_app.
  destruct new as [|c [|c' l]].
  - simpl. specialize (Hu e). lia.
  - apply Forall_inv in Hfresh. destruct Hfresh as (e0 & He0 & Hnone).
    unfold with_email at 2. simpl. rewrite He0. unfold opt_string_eqb.
    destruct (bool_decide (Some e0 = Some e)) eqn:Hd.
    + apply bool_decide_eq_true_1 in Hd. injection Hd as ->.
      rewrite Hnone. simpl. destruct (string_eqb (api_type c) MODE); simpl; lia.
    + simpl. specialize (Hu e). lia.
  - destruct (stored r); discriminate Hlen.
Qed.

Lemma run_entries_unique (uid : Z) (pub : bool) (entries : list (string * parsed)) :
  forall s, unique_emails (rows s) -> unique_emails (rows (run_entries uid pub entries s)).
Proof.
  induction entries as [|entry rest IH]; intros s Hu; [exact Hu|].
  apply (IH (process_entry encrypt_credential env uid pub entry s)).
  apply process_entry_unique. exact Hu.
Qed.

(** X4. Whatever the entries hold, a non-empty upload is answered, with exactly
    one record per JSON entry in entry order after the pre-processing
    records; [total_count] is the number of entries and [uploaded_count] the
    number of [success] and [warning] records, never more than
    [total_count]. (The count is of the rows handed to the session; what the
    commits make of them is not part of the answer.) *)
Theorem upload_accounts_for_every_entry
  (settings : Settings) (uid : Z) (file : UploadFile) (files : list UploadFile)
  (form_is_public : bool) (db_rows : list Credential) :
  exists resp rows' entry_results,
    upload_antigravity_credentials encrypt_credential env settings uid
      (file :: files) form_is_public db_rows = Ok (resp, rows') /\
    resp_results resp
      = (fst (collect_json_files (file :: files)) ++ entry_results)%list /\
    List.map res_filename entry_results
      = List.map fst (snd (collect_json_files (file :: files))) /\
    total_count resp = length entry_results /\
    uploaded_count resp = length (List.filter stored entry_results) /\
    (uploaded_count resp <= total_count resp)%nat.
Proof.
  unfold upload_antigravity_credentials.
  destruct (collect_json_files (file :: files)) as [pre js]. cbv zeta.
  set (pub := if force_donate settings then true else form_is_public).
  destruct (run_entries_accounting uid pub js (mkState db_rows pre 0))
    as (ers & new & Hres & Hnames & Hrows & Hlen & Hcount & _).
  unfold run_entries in *. simpl in *.
  eexists. eexists. exists ers. split; [reflexivity|]. simpl.
  rewrite Hres, Hcount.
  split; [reflexivity|]. split; [exact Hnames|].
  pose proof (f_equal (@length string) Hnames) as Hl.
  rewrite !List.length_map in Hl. rewrite <- Hl.
  split; [reflexivity|].
  split; [reflexivity | apply List.filter_length_le].
Qed.

(** X5. Every row the upload adds belongs to the uploader, is of this kind, has
    no error recorded, and is public exactly when publication was asked for
    (by the form flag or by [force_donate]) and the credential verified. *)
Theorem upload_rows_written
  (settings : Settings) (uid : Z) (file : UploadFile) (files : list UploadFile)
  (form_is_public : bool) (db_rows : list Credential) :
  exists resp new,
    upload_antigravity_credentials encrypt_credential env settings uid
      (file :: files) form_is_public db_rows = Ok (resp, (db_rows ++ new)%list) /\
    Forall (written_by uid (force_donate settings || form_is_public)) new.
Proof.
  unfold upload_antigravity_credentials.
  destruct (collect_json_files (file :: files)) as [pre js]. cbv zeta.
  set (pub := if force_donate settings then true else form_is_public).
  assert (Hpub : pub = force_donate settings || form_is_public)
    by (subst pub; destruct (force_donate settings); reflexivity).
  destruct (run_entries_accounting uid pub js (mkState db_rows pre 0))
    as (ers & new & _ & _ & Hrows & _ & _ & Hw).
  unfold run_entries in *. simpl in *. rewrite Hrows, <- Hpub.
  eexists. exists new. split; [reflexivity | exact Hw].
Qed.

(** X6. The email check keeps stored emails unique within this kind: an upload
    into a store without duplicate emails leaves it without duplicates. *)
Theorem upload_keeps_emails_unique
  (settings : Settings) (uid : Z) (files : list UploadFile)
  (form_is_public : bool) (db_rows : list Credential)
  (resp : response) (rows' : list Credential) :
  unique_emails db_rows ->
  upload_antigravity_credentials encrypt_credential env settings uid
    files form_is_public db_rows = Ok (resp, rows') ->
  unique_emails rows'.
Proof.
  intros Hu. unfold upload_antigravity_credentials.
  destruct files as [|file files]; [discriminate|].
  destruct (collect_json_files (file :: files)) as [pre js]. cbv zeta.
  intros [= _ <-].
  apply (run_entries_unique uid _ js (mkState db_rows pre 0)). exact Hu.
Qed.

End WithCollaborators.

Lemma unique_emails_stored : unique_emails [stored_cred].
Proof.
  intros e. unfold with_email. simpl.
  destruct (opt_string_eqb _ _ && _); simpl; lia.
Qed.

Lemma upload_keeps_emails_unique_witness :
  exists resp rows',
    upload_antigravity_credentials sample_encrypt sample_env sample_settings
      1 json_upload false [stored_cred] = Ok (resp, rows') /\
    List.map email rows' = [Some "old@example.com"; Some "new@example.com"] /\
    unique_emails rows'.
Proof.
  eexists. eexists. split; [vm_compute; reflexivity|].
  split; [vm_compute; reflexivity|].
  eapply (upload_keeps_emails_unique sample_encrypt sample_env sample_settings
            1 json_upload false [stored_cred]).
  - exact unique_emails_stored.
  - vm_compute. reflexivity.
Defined.

End UploadFacts.

(** ** Further facts about deletion, and the administrator's batch action *)

Module DeletionFacts.
Import Deletion.

(** Every usage log points at a stored credential, or at none. *)
Definition integrity (db : DB) : Prop :=
  forall l i, In l (usage_logs db) -> credential_id l = Some i ->
  exists c, In c (credentials db) /\ cred_id c = i.

(** Primary keys are unique. *)
Definition unique_ids (db : DB) : Prop := List.NoDup (List.map cred_id (credentials db)).

(** The keys a script deletes, and the keys it unlinks. *)
Definition deleted_ids (script : list stmt) : list Z :=
  flat_map (fun s => match s with DeleteCredential c => [c] | _ => [] end) script.

Definition unlinked_ids (script : list stmt) : list Z :=
  flat_map (fun s => match s with NullUsageRefs ids => ids | _ => [] end) script.

Lemma exec_cons (s : stmt) (script : list stmt) (db : DB) :
  exec (s :: script) db = exec script (exec_stmt s db).
Proof. reflexivity. Qed.

Lemma exec_app (s1 s2 : list stmt) (db : DB) :
  exec (s1 ++ s2) db = exec s2 (exec s1 db).
Proof. unfold exec. apply fold_left_app. Qed.

Lemma filter_filter {A : Type} (p q : A -> bool) (l : list A) :
  List.filter p (List.filter q l) = List.filter (fun x => q x && p x) l.
Proof.
  induction l as [|x l IH]; simpl; [reflexivity|].
  destruct (q x); simpl; [destruct (p x); simpl; rewrite IH; reflexivity | exact IH].
Qed.

(** The credentials left by a script are those whose key it did not delete. *)
Lemma exec_credentials (script : list stmt) :
  forall db,
  credentials (exec script db)
    = List.filter (fun c => negb (id_in (deleted_ids script) (cred_id c)))
                  (credentials db).
Proof.
  induction script as [|s script IH]; intros db.
  - simpl. induction (credentials db) as [|c l IHl]; simpl; [reflexivity|].
    rewrite <- IHl. reflexivity.
  - rewrite exec_cons, IH. destruct s as [ids|cid| |]; simpl; try reflexivity.
    rewrite filter_filter. apply List.filter_ext. intros c.
    unfold id_in. simpl. rewrite negb_orb. reflexivity.
Qed.

(** The usage logs left by a script: each log, with its reference nulled if
    the script unlinked that key. *)
Lemma exec_usage_logs (script : list stmt) :
  forall db,
  usage_logs (exec script db)
    = List.map (null_ref (unlinked_ids script)) (usage_logs db).
Proof.
  induction script as [|s script IH]; intros db.
  - simpl. induction (usage_logs db) as [|l ls IHl]; simpl; [reflexivity|].
    rewrite <- IHl. f_equal. unfold null_ref, references.
    destruct (credential_id l); reflexivity.
  - rewrite exec_cons, IH. destruct s as [ids|cid| |]; simpl; try reflexivity.
    rewrite List.map_map. apply List.map_ext. intros l.
    unfold null_ref, references. destruct (credential_id l) as [i|] eqn:E; simpl.
    + unfold id_in. rewrite existsb_app. fold (id_in ids i).
      destruct (id_in ids i); simpl; [reflexivity|]. rewrite E. reflexivity.
    + rewrite E. reflexivity.
Qed.

(** A script that deletes only keys it unlinks keeps the references sound. *)
Lemma script_keeps_integrity (script : list stmt) (db : DB) :
  (forall c, In c (deleted_ids script) -> In c (unlinked_ids script)) ->
  integrity db -> integrity (exec script db).
Proof.
  intros Hsub Hint l i Hl Hi.
  rewrite exec_usage_logs in Hl. apply in_map_iff in Hl.
  destruct Hl as (l0 & <- & Hl0).
  assert (Hnot : ~ In i (unlinked_ids script)).
  { intros Hin. exact (null_ref_clears _ l0 i Hin Hi). }
  assert (Hi0 : credential_id l0 = Some i).
  { destruct (null_ref_kept (unlinked_ids script) l0) as (_ & _ & [E | E]);
      congruence. }
  destruct (Hint l0 i Hl0 Hi0) as (c & Hc & Hid).
  exists c. split; [|exact Hid].
  rewrite exec_credentials. apply filter_In. split; [exact Hc|].
  apply negb_true_iff. destruct (id_in (deleted_ids script) (cred_id c)) eqn:E;
    [|reflexivity].
  apply id_in_spec in E. rewrite Hid in E. apply Hsub in E. contradiction.
Qed.

Lemma deleted_ids_app (s1 s2 : list stmt) :
  deleted_ids (s1 ++ s2) = (deleted_ids s1 ++ deleted_ids s2)%list.
Proof. apply flat_map_app. Qed.

Lemma delete_loop_ids (creds : list Credential) (count : nat) :
  deleted_ids (delete_loop creds count) = List.map cred_id creds.
Proof.
  revert count. induction creds as [|c rest IH]; intros count; [reflexivity|].
  simpl. rewrite deleted_ids_app, IH.
  destruct (Nat.eqb _ 0); reflexivity.
Qed.

Lemma delete_map_ids (creds : list Credential) :
  deleted_ids (List.map (fun c => DeleteCredential (cred_id c)) creds)
    = List.map cred_id creds.
Proof. induction creds as [|c rest IH]; simpl; [reflexivity | rewrite IH; reflexivity]. Qed.

Lemma unique_key (l : list Credential) (a b : Credential) :
  List.NoDup (List.map cred_id l) -> In a l -> In b l -> cred_id a = cred_id b -> a = b.
Proof.
  induction l as [|x l IH]; simpl; [contradiction|].
  intros Hnd [->|Ha] [->|Hb] Heq; try reflexivity.
  - apply List.NoDup_cons_iff in Hnd. destruct Hnd as [Hx _]. exfalso. apply Hx.
    rewrite Heq. apply in_map. exact Hb.
  - apply List.NoDup_cons_iff in Hnd. destruct Hnd as [Hx _]. exfalso. apply Hx.
    rewrite <- Heq. apply in_map. exact Ha.
  - apply List.NoDup_cons_iff in Hnd. destruct Hnd as [_ Hnd]. exact (IH Hnd Ha Hb Heq).
Qed.

(** With unique keys, deleting the keys of the selected rows removes the
    selected rows and no other. *)
Lemma delete_selected (p : Credential -> bool) (l : list Credential) :
  List.NoDup (List.map cred_id l) ->
  List.filter (fun c => negb (id_in (List.map cred_id (List.filter p l)) (cred_id c))) l
    = List.filter (fun c => negb (p c)) l.
Proof.
  intros Hnd.
  assert (H : forall c, In c l ->
            id_in (List.map cred_id (List.filter p l)) (cred_id c) = p c).
  { intros c Hc. destruct (p c) eqn:Hp.
    - apply id_in_spec. apply in_map. apply filter_In. auto.
    - destruct (id_in _ _) eqn:E; [|reflexivity].
      apply id_in_spec in E. apply in_map_iff in E. destruct E as (c' & Heq & Hc').
      apply filter_In in Hc'. destruct Hc' as [Hin' Hp'].
      rewrite (unique_key l c' c Hnd Hin' Hc Heq) in Hp'. congruence. }
  revert H. generalize (List.map cred_id (List.filter p l)). intros ids H.
  induction l as [|x l IH]; simpl; [reflexivity|].
  rewrite (H x (or_introl eq_refl)).
  apply List.NoDup_cons_iff in Hnd. destruct Hnd as [_ Hnd].
  rewrite (IH Hnd) by (intros c Hc; apply H; right; exact Hc). reflexivity.
Qed.

Lemma filter_split_length {A : Type} (p : A -> bool) (l : list A) :
  (length (List.filter p l) + length (List.filter (fun x => negb (p x)) l))%nat
    = length l.
Proof.
  induction l as [|x l IH]; simpl; [reflexivity|].
  destruct (p x); simpl; lia.
Qed.

Lemma unlink_first_covers (ids : list Z) (tail : list stmt) :
  (forall c, In c (deleted_ids tail) -> In c ids) ->
  forall c, In c (deleted_ids (NullUsageRefs ids :: tail)) ->
            In c (unlinked_ids (NullUsageRefs ids :: tail)).
Proof.
  intros H c Hc. simpl in *. apply in_or_app. left. apply H. exact Hc.
Qed.

(** No usage log points at a key of [ids], and the references are sound. *)
Definition unlinked (ids : list Z) (db : DB) : Prop :=
  integrity db /\
  forall l i, In l (usage_logs db) -> credential_id l = Some i -> ~ In i ids.

Lemma unlink_gives_unlinked (ids : list Z) (db : DB) :
  integrity db -> unlinked ids (exec_stmt (NullUsageRefs ids) db).
Proof.
  intros Hint. split.
  - change (exec_stmt (NullUsageRefs ids) db) with (exec [NullUsageRefs ids] db).
    apply script_keeps_integrity; [|exact Hint]. simpl. contradiction.
  - intros l i Hl Hi Hin. simpl in Hl. apply in_map_iff in Hl.
    destruct Hl as (l0 & <- & _). exact (null_ref_clears ids l0 i Hin Hi).
Qed.

Lemma tail_keeps_unlinked (ids : list Z) (s : stmt) (db : DB) :
  tail_stmt ids s -> unlinked ids db -> unlinked ids (exec_stmt s db).
Proof.
  destruct s as [ids'|cid| |]; simpl; try contradiction; try (intros _ H; exact H).
  intros Hcid [Hint Hun]. split; [|exact Hun].
  intros l i Hl Hi. simpl in *. destruct (Hint l i Hl Hi) as (c & Hc & Hid).
  exists c. split; [|exact Hid]. apply filter_In. split; [exact Hc|].
  apply negb_true_iff, Z.eqb_neq. intros E. apply (Hun l i Hl Hi). congruence.
Qed.

(** Once the unlinking is durable, nothing a tail of deletions and commits
    does, refused commits and rollbacks included, can break it. *)
Lemma run_keeps_unlinked (ids : list Z) (script : list stmt) :
  Forall (tail_stmt ids) script ->
  forall oks ss,
  unlinked ids (durable ss) -> unlinked ids (view ss) ->
  unlinked ids (durable (fst (run script oks ss))).
Proof.
  induction 1 as [|s script Hs _ IH]; intros oks ss Hd Hv; [exact Hd|].
  destruct s as [ids'|cid| |]; simpl in Hs; try contradiction; simpl.
  - apply IH; [exact Hd|]. simpl. apply (tail_keeps_unlinked ids (DeleteCredential cid));
      assumption.
  - destruct (fst (next_verdict oks)); [apply IH; assumption | exact Hd].
  - destruct (fst (next_verdict oks)); apply IH; assumption.
Qed.

(** Until the first commit the unlinking lives in the session only. It
    survives if that commit is accepted, or if no commit is guarded (a
    refused one then ends the route). *)
Lemma run_first_commit (ids : list Z) (script : list stmt) :
  Forall (tail_stmt ids) script ->
  forall oks ss,
  fst (next_verdict oks) = true \/ Forall (fun s => s <> TryCommit) script ->
  integrity (durable ss) -> unlinked ids (view ss) ->
  integrity (durable (fst (run script oks ss))).
Proof.
  induction 1 as [|s script Hs Htail IH]; intros oks ss Hok Hd Hv; [exact Hd|].
  assert (Hok' : fst (next_verdict oks) = true \/
                 Forall (fun s => s <> TryCommit) script).
  { destruct Hok as [H|H]; [left; exact H | right; inversion H; assumption]. }
  destruct s as [ids'|cid| |]; simpl in Hs; try contradiction; simpl.
  - apply IH; [exact Hok' | exact Hd |]. simpl.
    apply (tail_keeps_unlinked ids (DeleteCredential cid)); assumption.
  - destruct (fst (next_verdict oks)); [|exact Hd].
    apply (run_keeps_unlinked ids script Htail); exact Hv.
  - destruct Hok as [Hok|Hno]; [|inversion Hno; congruence].
    rewrite Hok. apply (run_keeps_unlinked ids script Htail); exact Hv.
Qed.

Lemma delete_map_unguarded (creds : list Credential) :
  Forall (fun s => s <> TryCommit)
         (List.map (fun c => DeleteCredential (cred_id c)) creds ++ [Commit]).
Proof.
  apply Forall_app. split; [|repeat constructor; discriminate].
  apply List.Forall_forall. intros s Hs. apply in_map_iff in Hs.
  destruct Hs as (c & <- & _). discriminate.
Qed.

(** X7. Whatever the database makes of the commits, the single delete and
    the administrator's bulk delete leave every usage log pointing at a
    stored credential or at none, if that was so before; so does the user's
    bulk delete provided its first commit is accepted. *)
Theorem deletion_keeps_references_sound (db : DB) :
  integrity db ->
  (forall cid uid script oks,
     delete_my_antigravity_credential db cid uid = Ok script ->
     integrity (fst (serve script oks db))) /\
  (forall oks,
     integrity (fst (serve (fst (delete_inactive_antigravity_credentials db)) oks db))) /\
  (forall uid oks,
     fst (next_verdict oks) = true ->
     integrity
       (fst (serve (fst (delete_my_inactive_antigravity_credentials db uid)) oks db))).
Proof.
  intros Hint. split; [|split].
  - intros cid uid script oks. unfold delete_my_antigravity_credential.
    destruct (scalar_one_or_none _) as [[c|]|]; simpl; try discriminate.
    intros [= <-]. unfold serve. cbn [fst].
    change (run [NullUsageRefs [cid]; DeleteCredential cid; Commit] oks (begin db))
      with (run [DeleteCredential cid; Commit] oks
                (stage (NullUsageRefs [cid]) (begin db))).
    apply (run_first_commit [cid]).
    + constructor; [simpl; auto | apply commit_tail].
    + right. repeat constructor; discriminate.
    + exact Hint.
    + apply unlink_gives_unlinked. exact Hint.
  - intros oks. unfold delete_inactive_antigravity_credentials.
    destruct (List.filter _ (credentials db)) as [|c cs] eqn:E; [exact Hint|].
    cbv zeta. unfold serve. cbn [fst].
    set (creds := c :: cs).
    change (run (NullUsageRefs (List.map cred_id creds) ::
                 List.map (fun c => DeleteCredential (cred_id c)) creds ++ [Commit])
                oks (begin db))
      with (run (List.map (fun c => DeleteCredential (cred_id c)) creds ++ [Commit])
                oks (stage (NullUsageRefs (List.map cred_id creds)) (begin db))).
    apply (run_first_commit (List.map cred_id creds)).
    + apply Forall_app. split; [|apply commit_tail].
      apply delete_map_tail. intros c' Hc'. apply in_map. exact Hc'.
    + right. apply delete_map_unguarded.
    + exact Hint.
    + apply unlink_gives_unlinked. exact Hint.
  - intros uid oks Hok. unfold delete_my_inactive_antigravity_credentials.
    destruct (List.filter _ (credentials db)) as [|c cs] eqn:E; [exact Hint|].
    cbv zeta. unfold serve. cbn [fst].
    set (creds := c :: cs).
    change (run (NullUsageRefs (List.map cred_id creds) ::
                 delete_loop creds 0 ++ [TryCommit]) oks (begin db))
      with (run (delete_loop creds 0 ++ [TryCommit])
                oks (stage (NullUsageRefs (List.map cred_id creds)) (begin db))).
    apply (run_first_commit (List.map cred_id creds)).
    + apply Forall_app. split; [|apply try_commit_tail].
      apply delete_loop_tail. intros c' Hc'. apply in_map. exact Hc'.
    + left. exact Hok.
    + exact Hint.
    + apply unlink_gives_unlinked. exact Hint.
Qed.

(** When every commit is accepted, a script that ends in a commit makes the
    whole of its view durable. *)
Lemma run_accepted (c : stmt) (script : list stmt) :
  c = Commit \/ c = TryCommit ->
  forall oks ss,
  Forall (fun ok => ok = true) oks ->
  durable (fst (run (script ++ [c]) oks ss)) = exec script (view ss) /\
  snd (run (script ++ [c]) oks ss) = false.
Proof.
  intros Hc.
  assert (Hnext : forall oks, Forall (fun ok => ok = true) oks ->
            fst (next_verdict oks) = true /\
            Forall (fun ok => ok = true) (snd (next_verdict oks))).
  { intros oks H. destruct H as [|ok rest Hok Hrest]; simpl; auto. }
  induction script as [|s script IH]; intros oks ss Hoks;
    destruct (Hnext oks Hoks) as [H1 H2].
  - destruct Hc as [-> | ->]; simpl; rewrite H1; simpl; auto.
  - rewrite exec_cons.
    destruct s; cbn [app run]; try rewrite H1;
      [exact (IH oks (stage _ ss) Hoks) | exact (IH oks (stage _ ss) Hoks)
      | exact (IH _ (committed ss) H2) | exact (IH _ (committed ss) H2)].
Qed.

Lemma deleted_ids_body (ids : list Z) (tail : list stmt) :
  deleted_ids (NullUsageRefs ids :: tail) = deleted_ids tail.
Proof. reflexivity. Qed.

(** X8. With unique keys, a bulk deletion whose commits are all accepted
    removes exactly the rows it selected (the caller's inactive credentials
    of this kind, resp. all inactive credentials of this kind): every other
    row stays, in order, and [deleted_count] is the number of rows removed.
    The administrator's deletion, whose one commit is unguarded, leaves the
    store as it was and raises when that commit is refused. *)
Theorem bulk_delete_removes_selected (db : DB) :
  unique_ids db ->
  (forall uid oks,
     Forall (fun ok => ok = true) oks ->
     credentials
       (fst (serve (fst (delete_my_inactive_antigravity_credentials db uid)) oks db))
       = List.filter (fun c => negb (mine uid c && negb (is_active c))) (credentials db) /\
     (snd (delete_my_inactive_antigravity_credentials db uid)
      + length (credentials
                  (fst (serve (fst (delete_my_inactive_antigravity_credentials db uid))
                              oks db))))%nat
       = length (credentials db)) /\
  (forall oks,
     Forall (fun ok => ok = true) oks ->
     credentials (fst (serve (fst (delete_inactive_antigravity_credentials db)) oks db))
       = List.filter (fun c => negb (inactive_of_mode c)) (credentials db) /\
     (snd (delete_inactive_antigravity_credentials db)
      + length (credentials
                  (fst (serve (fst (delete_inactive_antigravity_credentials db)) oks db))))%nat
       = length (credentials db)) /\
  (forall oks,
     fst (next_verdict oks) = false ->
     List.filter inactive_of_mode (credentials db) <> [] ->
     serve (fst (delete_inactive_antigravity_credentials db)) oks db = (db, true)).
Proof.
  intros Hnd. unfold unique_ids in Hnd.
  assert (Hempty : forall (p : Credential -> bool),
            List.filter p (credentials db) = [] ->
            credentials db = List.filter (fun c => negb (p c)) (credentials db)).
  { intros p Hp. pose proof (filter_split_length p (credentials db)) as Hl.
    rewrite Hp in Hl. simpl in Hl.
    induction (credentials db) as [|x l IH]; simpl in *; [reflexivity|].
    destruct (p x) eqn:Hx; simpl in *; [discriminate Hp|].
    f_equal. apply IH; [|exact Hp|lia].
    apply List.NoDup_cons_iff in Hnd. tauto. }
  split; [|split].
  - intros uid oks Hoks.
    pose proof (filter_split_length
                  (fun c => mine uid c && negb (is_active c)) (credentials db)) as Hl.
    unfold delete_my_inactive_antigravity_credentials.
    destruct (List.filter _ (credentials db)) as [|c cs] eqn:E.
    + simpl in *. split; [apply Hempty; exact E|].
      rewrite (Hempty _ E) at 2. rewrite <- Hl. reflexivity.
    + cbv zeta. unfold serve. cbn [fst snd].
      rewrite app_comm_cons.
      rewrite (proj1 (run_accepted TryCommit _ (or_intror eq_refl) oks (begin db) Hoks)).
      simpl view. rewrite exec_credentials, deleted_ids_body, delete_loop_ids, <- E.
      rewrite (delete_selected _ _ Hnd). split; [reflexivity|]. rewrite E. exact Hl.
  - intros oks Hoks.
    pose proof (filter_split_length inactive_of_mode (credentials db)) as Hl.
    unfold delete_inactive_antigravity_credentials.
    destruct (List.filter _ (credentials db)) as [|c cs] eqn:E.
    + simpl in *. split; [apply Hempty; exact E|].
      rewrite (Hempty _ E) at 2. rewrite <- Hl. reflexivity.
    + cbv zeta. unfold serve. cbn [fst snd].
      rewrite app_comm_cons.
      rewrite (proj1 (run_accepted Commit _ (or_introl eq_refl) oks (begin db) Hoks)).
      simpl view. rewrite exec_credentials, deleted_ids_body, delete_map_ids, <- E.
      rewrite (delete_selected _ _ Hnd). split; [reflexivity|]. rewrite E. exact Hl.
  - intros oks Hno Hsel. unfold delete_inactive_antigravity_credentials.
    destruct (List.filter inactive_of_mode (credentials db)) as [|c cs] eqn:E;
      [contradiction|].
    cbv zeta. cbn [fst]. rewrite app_comm_cons.
    rewrite unguarded_all_or_nothing, Hno; [reflexivity|].
    constructor; [exact I|].
    apply List.Forall_forall. intros s Hs. apply in_map_iff in Hs.
    destruct Hs as (c' & <- & _). exact I.
Qed.

Lemma sample_db_integrity : integrity sample_db.
Proof.
  intros l i Hl Hi. simpl in Hl. destruct Hl as [<- | [<- | []]];
    simpl in Hi; injection Hi as <-.
  - eexists. split; [left; reflexivity | reflexivity].
  - eexists. split; [right; left; reflexivity | reflexivity].
Qed.

Lemma sample_db_unique_ids : unique_ids sample_db.
Proof.
  unfold unique_ids. simpl. constructor; [|constructor; [|constructor]].
  - intros [H | []]. discriminate H.
  - intros [].
Qed.

Lemma deletion_keeps_references_sound_witness :
  integrity (fst (serve [NullUsageRefs [7]; DeleteCredential 7; Commit] [false] sample_db)) /\
  integrity (fst (serve (fst (delete_my_inactive_antigravity_credentials sample_db 1))
                        [true; false] sample_db)).
Proof.
  destruct (deletion_keeps_references_sound sample_db sample_db_integrity)
    as (H1 & _ & H3).
  split; [apply (H1 7 1); reflexivity | apply H3; reflexivity].
Defined.

Lemma bulk_delete_removes_selected_witness :
  List.map cred_id
    (credentials (fst (serve (fst (delete_my_inactive_antigravity_credentials sample_db 1))
                             [true] sample_db))) = [8] /\
  credentials (fst (serve (fst (delete_my_inactive_antigravity_credentials sample_db 1))
                          [true] sample_db))
    = List.filter (fun c => negb (mine 1 c && negb (is_active c)))
                  (credentials sample_db).
Proof.
  split; [reflexivity|].
  apply (proj1 (bulk_delete_removes_selected sample_db sample_db_unique_ids) 1 [true]).
  repeat constructor.
Defined.

End DeletionFacts.

Module AdminActions.
Import Deletion DeletionFacts.

(** The rows an action addresses: listed keys, of this kind. *)
Definition addressed (ids : list Z) (c : Credential) : bool :=
  id_in ids (cred_id c) && string_eqb (api_type c) MODE.

(** [update(Credential).where(id in ids).where(api_type == MODE)
    .values(is_active=b)] *)
Definition set_active_where (ids : list Z) (b : bool) (db : DB) : DB :=
  mkDB (List.map (fun c => if addressed ids c then Visibility.set_is_active b c else c)
                 (credentials db))
       (usage_logs db).

(** The statements of the ["delete"] branch: per selected row, unlink its
    usage logs, then delete it; one commit at the end. *)
Definition delete_script (ids : list Z) (db : DB) : list stmt :=
  (flat_map (fun c => [NullUsageRefs [cred_id c]; DeleteCredential (cred_id c)])
            (List.filter (addressed ids) (credentials db)) ++ [Commit])%list.

(** [batch_antigravity_credential_action]; [ids] is the list the route
    builds from the comma-separated form field. The result is the store
    afterwards and the message. *)
Definition batch_antigravity_credential_action
  (db : DB) (action : string) (ids : list Z) : res (DB * string) :=
  match ids with
  | [] => Raise "400: 未选择凭证"
  | _ =>
      db' <-
        (if string_eqb action "enable" then Ok (set_active_where ids true db)
         else if string_eqb action "disable" then Ok (set_active_where ids false db)
         else if string_eqb action "delete" then Ok (exec (delete_script ids db) db)
         else Raise "400: 无效的操作") ;;
      Ok (db', "已对 " +:+ PyStr.of_int (Z.of_nat (length ids)) +:+ " 个凭证执行 "
               +:+ action +:+ " 操作")
  end.

Lemma delete_script_ids (ids : list Z) (db : DB) :
  deleted_ids (delete_script ids db)
    = List.map cred_id (List.filter (addressed ids) (credentials db)) /\
  unlinked_ids (delete_script ids db)
    = List.map cred_id (List.filter (addressed ids) (credentials db)).
Proof.
  unfold delete_script.
  induction (List.filter (addressed ids) (credentials db)) as [|c l [IH1 IH2]].
  - split; reflexivity.
  - split; simpl.
    + f_equal. exact IH1.
    + f_equal. exact IH2.
Qed.

Lemma delete_script_safe (ids : list Z) (sel : list Credential) :
  forall db,
  deletes_after_unlink
    (flat_map (fun c => [NullUsageRefs [cred_id c]; DeleteCredential (cred_id c)]) sel
     ++ [Commit])%list db.
Proof.
  induction sel as [|c sel IH]; intros db; simpl.
  - auto.
  - split; [exact I|]. split.
    + apply unlink_unreferenced. left. reflexivity.
    + apply IH.
Qed.

(** X9. The ["delete"] action is a fourth deletion path, and behaves like the
    others: each row is deleted after its usage logs were unlinked, the logs
    survive, and the references stay sound. *)
Theorem batch_delete_unlinks (db db' : DB) (ids : list Z) (msg : string) :
  integrity db ->
  batch_antigravity_credential_action db "delete" ids = Ok (db', msg) ->
  db' = exec (delete_script ids db) db /\
  deletes_after_unlink (delete_script ids db) db /\
  List.map log_id (usage_logs db') = List.map log_id (usage_logs db) /\
  integrity db'.
Proof.
  intros Hint. unfold batch_antigravity_credential_action.
  destruct ids as [|i ids]; [discriminate|]. simpl. intros [= <- _].
  split; [reflexivity|]. split; [apply (delete_script_safe (i :: ids))|].
  split.
  - rewrite exec_usage_logs, List.map_map. apply List.map_ext.
    intros l. apply null_ref_kept.
  - apply script_keeps_integrity; [|exact Hint].
    destruct (delete_script_ids (i :: ids) db) as [-> ->]. auto.
Qed.

(** X10. No action reaches outside its address: a stored row of another kind, or
    one whose key was not listed, is still stored unchanged afterwards
    (keys being unique). *)
Theorem batch_action_stays_in_its_kind
  (db db' : DB) (action : string) (ids : list Z) (msg : string) (c : Credential) :
  unique_ids db ->
  batch_antigravity_credential_action db action ids = Ok (db', msg) ->
  In c (credentials db) ->
  api_type c <> MODE \/ ~ In (cred_id c) ids ->
  In c (credentials db').
Proof.
  intros Hnd. unfold batch_antigravity_credential_action.
  destruct ids as [|i ids]; [discriminate|]. set (l := i :: ids).
  intros H Hc Hout.
  assert (Hna : addressed l c = false).
  { unfold addressed. destruct Hout as [Hk | Hid].
    - unfold string_eqb. rewrite (bool_decide_eq_false_2 _ Hk). apply andb_false_r.
    - destruct (id_in l (cred_id c)) eqn:E; [|reflexivity].
      apply id_in_spec in E. contradiction. }
  assert (Hset : forall b, In c (credentials (set_active_where l b db))).
  { intros b. unfold set_active_where. simpl. apply in_map_iff.
    exists c. rewrite Hna. auto. }
  destruct (string_eqb action "enable"); simpl in H.
  { injection H as <- _. apply Hset. }
  destruct (string_eqb action "disable"); simpl in H.
  { injection H as <- _. apply Hset. }
  destruct (string_eqb action "delete"); simpl in H; [|discriminate].
  injection H as <- _.
  rewrite exec_credentials. destruct (delete_script_ids l db) as [-> _].
  rewrite (delete_selected (addressed l) (credentials db) Hnd).
  apply filter_In. split; [exact Hc|]. rewrite Hna. reflexivity.
Qed.

Lemma set_active_row (l : list Z) (b : bool) (c : Credential) :
  let c' := if addressed l c then Visibility.set_is_active b c else c in
  (In (cred_id c) l /\ api_type c = MODE -> is_active c' = b) /\
  (~ (In (cred_id c) l /\ api_type c = MODE) -> c' = c) /\
  c' = mkCredential (cred_id c) (user_id c) (name c) (api_key c)
         (refresh_token c) (client_id c) (client_secret c) (project_id c)
         (credential_type c) (email c) (is_public c) (is_active c')
         (api_type c) (model_tier c) (last_error c) (last_used_at c).
Proof.
  cbv zeta. unfold addressed, string_eqb.
  destruct (id_in l (cred_id c)) eqn:Hid;
    [destruct (bool_decide (api_type c = MODE)) eqn:Hk|]; cbn [andb].
  - split; [reflexivity|]. split; [|destruct c; reflexivity].
    intros Hn. exfalso. apply Hn. split.
    + apply id_in_spec. exact Hid.
    + apply bool_decide_eq_true_1 in Hk. exact Hk.
  - apply bool_decide_eq_false_1 in Hk.
    split; [intros [_ H]; contradiction|]. split; [reflexivity | destruct c; reflexivity].
  - split; [|split; [reflexivity | destruct c; reflexivity]].
    intros [H _]. apply id_in_spec in H. congruence.
Qed.

(** X11. A batch ["enable"] (resp. ["disable"]) that is answered leaves every
    listed credential of this kind active (resp. inactive), leaves every
    other credential exactly as it was, changes no column but [is_active]
    anywhere, keeps the rows in their order and the usage logs as they
    were; the number in its message is the number of ids listed, whether
    or not they matched a row. *)
Theorem batch_enable_disable
  (db db' : DB) (action : string) (ids : list Z) (msg : string) (b : bool) :
  (action = "enable" /\ b = true) \/ (action = "disable" /\ b = false) ->
  batch_antigravity_credential_action db action ids = Ok (db', msg) ->
  usage_logs db' = usage_logs db /\
  msg = "已对 " +:+ PyStr.of_int (Z.of_nat (length ids)) +:+ " 个凭证执行 "
        +:+ action +:+ " 操作" /\
  Forall2 (fun c c' =>
             (In (cred_id c) ids /\ api_type c = MODE -> is_active c' = b) /\
             (~ (In (cred_id c) ids /\ api_type c = MODE) -> c' = c) /\
             c' = mkCredential (cred_id c) (user_id c) (name c) (api_key c)
                    (refresh_token c) (client_id c) (client_secret c) (project_id c)
                    (credential_type c) (email c) (is_public c) (is_active c')
                    (api_type c) (model_tier c) (last_error c) (last_used_at c))
          (credentials db) (credentials db').
Proof.
  intros Hact. unfold batch_antigravity_credential_action.
  destruct ids as [|i ids]; [discriminate|]. set (l := i :: ids).
  assert (Hdb : (if string_eqb action "enable" then Ok (set_active_where l true db)
                 else if string_eqb action "disable" then Ok (set_active_where l false db)
                 else if string_eqb action "delete" then Ok (exec (delete_script l db) db)
                 else Raise "400: 无效的操作") = Ok (set_active_where l b db)).
  { destruct Hact as [[-> ->] | [-> ->]]; reflexivity. }
  rewrite Hdb. cbn [bind]. intros [= <- <-].
  split; [reflexivity|]. split; [reflexivity|].
  unfold set_active_where. cbn [credentials].
  induction (credentials db) as [|c cs IH]; cbn [List.map]; constructor; [|exact IH].
  apply set_active_row.
Qed.

Lemma batch_enable_disable_witness :
  exists db',
    batch_antigravity_credential_action sample_db "disable" [8; 99]
      = Ok (db', "已对 2 个凭证执行 disable 操作") /\
    List.map is_active (credentials db') = [false; false] /\
    usage_logs db' = usage_logs sample_db.
Proof.
  eexists. split; [reflexivity|]. split; [reflexivity|].
  apply (proj1 (batch_enable_disable sample_db _ "disable" [8; 99] _ false
                  (or_intror (conj eq_refl eq_refl)) eq_refl)).
Defined.

Lemma batch_delete_unlinks_witness :
  exists db',
    batch_antigravity_credential_action sample_db "delete" [7; 99]
      = Ok (db', "已对 2 个凭证执行 delete 操作") /\
    List.map cred_id (credentials db') = [8] /\
    deletes_after_unlink (delete_script [7; 99] sample_db) sample_db /\
    integrity db'.
Proof.
  eexists. split; [reflexivity|]. split; [reflexivity|].
  destruct (batch_delete_unlinks sample_db _ [7; 99] _ sample_db_integrity eq_refl)
    as (_ & H2 & _ & H4).
  split; [exact H2 | exact H4].
Defined.

Lemma batch_action_stays_in_its_kind_witness :
  In (nth 1 (credentials sample_db) VerifyRoutes.healthy_cred)
     (credentials (exec (delete_script [7; 99] sample_db) sample_db)).
Proof.
  apply (batch_action_stays_in_its_kind sample_db _ "delete" [7; 99]
           "已对 2 个凭证执行 delete 操作" _ sample_db_unique_ids eq_refl).
  - right. left. reflexivity.
  - right. simpl. intros [H | [H | []]]; discriminate H.
Defined.

(** *** [toggle_antigravity_credential] *)

Definition flip (c : Credential) : Credential :=
  Visibility.set_is_active (negb (is_active c)) c.

(** [toggle_antigravity_credential]: the store as committed and [is_active]
    of the answer, or the [HTTPException(404)]. *)
Definition toggle_antigravity_credential (db : DB) (cid : Z) : res (DB * bool) :=
  cred <- scalar_one_or_none (List.filter (addressed [cid]) (credentials db)) ;;
  match cred with
  | None => Raise "404: 凭证不存在"
  | Some c =>
      Ok (mkDB (List.map (fun x => if addressed [cid] x then flip x else x)
                         (credentials db))
               (usage_logs db),
          is_active (flip c))
  end.

Lemma addressed_flip (ids : list Z) (c : Credential) :
  addressed ids (flip c) = addressed ids c.
Proof. reflexivity. Qed.

Lemma flip_flip (c : Credential) : flip (flip c) = c.
Proof. destruct c. unfold flip. simpl. rewrite negb_involutive. reflexivity. Qed.

Lemma filter_toggled (ids : list Z) (l : list Credential) :
  List.filter (addressed ids)
    (List.map (fun x => if addressed ids x then flip x else x) l)
    = List.map flip (List.filter (addressed ids) l).
Proof.
  induction l as [|c l IH]; simpl; [reflexivity|].
  destruct (addressed ids c) eqn:E.
  - rewrite addressed_flip, E. simpl. rewrite IH. reflexivity.
  - rewrite E. exact IH.
Qed.

Lemma toggled_twice (ids : list Z) (l : list Credential) :
  List.map (fun x => if addressed ids x then flip x else x)
    (List.map (fun x => if addressed ids x then flip x else x) l) = l.
Proof.
  induction l as [|c l IH]; simpl; [reflexivity|]. rewrite IH. f_equal.
  destruct (addressed ids c) eqn:E.
  - rewrite addressed_flip, E. apply flip_flip.
  - rewrite E. reflexivity.
Qed.

(** X12. Toggling is its own inverse: a second toggle of the same key gives back
    the store as it was and answers with the opposite state. A toggle
    writes [is_active] of the one addressed row and nothing else, so a
    public credential that is toggled off stays public. *)
Theorem toggle_is_an_involution (db db1 : DB) (cid : Z) (b : bool) :
  toggle_antigravity_credential db cid = Ok (db1, b) ->
  toggle_antigravity_credential db1 cid = Ok (db, negb b) /\
  usage_logs db1 = usage_logs db /\
  Forall2 (fun c c' =>
             if addressed [cid] c
             then is_active c = negb b /\ c' = Visibility.set_is_active b c
             else c' = c)
          (credentials db) (credentials db1).
Proof.
  unfold toggle_antigravity_credential.
  destruct (List.filter (addressed [cid]) (credentials db)) as [|c [|c2 rest]] eqn:E;
    simpl; try discriminate.
  intros [= <- <-]. simpl. rewrite filter_toggled, E. simpl.
  rewrite toggled_twice, negb_involutive. destruct db as [creds logs]. simpl in *.
  split; [reflexivity|]. split; [reflexivity|].
  assert (Hone : forall x, In x creds -> addressed [cid] x = true -> x = c).
  { intros x Hx Ha.
    assert (Hin : In x (List.filter (addressed [cid]) creds))
      by (apply filter_In; split; assumption).
    rewrite E in Hin. destruct Hin as [<- | []]. reflexivity. }
  clear E. induction creds as [|x l IH]; simpl; constructor.
  - destruct (addressed [cid] x) eqn:Ha; [|reflexivity].
    rewrite (Hone x (or_introl eq_refl) Ha). split; reflexivity.
  - apply IH. intros y Hy. apply Hone. right. exact Hy.
Qed.

Lemma toggle_is_an_involution_witness :
  exists db1,
    toggle_antigravity_credential sample_db 8 = Ok (db1, false) /\
    toggle_antigravity_credential db1 8 = Ok (sample_db, true) /\
    List.map is_public (credentials db1) = List.map is_public (credentials sample_db).
Proof.
  eexists. split; [reflexivity|]. split; [|reflexivity].
  apply (toggle_is_an_involution sample_db _ 8 false). reflexivity.
Defined.

End AdminActions.

(** ** Start-all: refreshing every credential in the background *)

Module StartAll.

(** The dictionary [refresh_single] returns: the key and the new access
    token, [None] when the refresh returned nothing or raised. *)
Record refresh_result : Type := mkRefresh {
  rr_id : Z;
  rr_token : option string
}.

(** [refresh_single(data)]; [answer] is what
    [CredentialPool.refresh_access_token] does for this credential. *)
Definition refresh_single (answer : res (option string)) (data : Credential)
  : refresh_result :=
  match answer with
  | Ok access_token => mkRefresh (cred_id data) access_token
  | Raise _ => mkRefresh (cred_id data) None
  end.

Section WithCollaborators.

Variable encrypt_credential : string -> string.

(** [update(Credential).where(id == res.id).values(api_key=..., is_active=True,
    last_error=None)] on one row. *)
Definition enable_row (r : refresh_result) (c : Credential) : Credential :=
  if Z.eqb (cred_id c) (rr_id r) then
    mkCredential (cred_id c) (user_id c) (name c)
      (Some (encrypt_credential (or_empty (rr_token r))))
      (refresh_token c) (client_id c) (client_secret c) (project_id c)
      (credential_type c) (email c) (is_public c) true (api_type c)
      (model_tier c) None (last_used_at c)
  else c.

(** [result.rowcount] of that update. *)
Definition rowcount (r : refresh_result) (rows : list Credential) : nat :=
  length (List.filter (fun c => Z.eqb (cred_id c) (rr_id r)) rows).

(** Loop state of [for res in results]: rows, [success], [failed]. *)
Record tally : Type := mkTally {
  t_rows : list Credential;
  t_success : nat;
  t_failed : nat
}.

Definition apply_refresh (t : tally) (r : refresh_result) : tally :=
  if PyStr.truthy (rr_token r) then
    mkTally (List.map (enable_row r) (t_rows t))
            (if Nat.ltb 0 (rowcount r (t_rows t)) then S (t_success t) else t_success t)
            (t_failed t)
  else mkTally (t_rows t) (t_success t) (S (t_failed t)).

(** The rows [start_all_antigravity_credentials] selects. *)
Definition selected (c : Credential) : bool :=
  string_eqb (api_type c) MODE &&
  match refresh_token c with Some _ => true | None => false end.

(** [run_in_background] of [start_all_antigravity_credentials]: [creds] are
    the rows the request selected, [rows] is the store as the background
    session finds it. *)
Definition run_in_background
  (env : Credential -> res (option string)) (creds rows : list Credential) : tally :=
  let results := List.map (fun d => refresh_single (env d) d) creds in
  fold_left apply_refresh results (mkTally rows 0 0).

(** The request itself: the selected rows, handed to the background task,
    and [total] of the immediate answer. *)
Definition start_all_antigravity_credentials (rows : list Credential)
  : list Credential * nat :=
  let creds := List.filter selected rows in
  (creds, length creds).

(** What start-all may do to a row: nothing, or store a token, enable it and
    clear its error. Nothing else changes, visibility included. *)
Definition refreshed_or_same (c c' : Credential) : Prop :=
  c' = c \/
  (is_active c' = true /\ last_error c' = None /\
   exists k, c' = mkCredential (cred_id c) (user_id c) (name c) k
                    (refresh_token c) (client_id c) (client_secret c) (project_id c)
                    (credential_type c) (email c) (is_public c) true (api_type c)
                    (model_tier c) None (last_used_at c)).

Lemma enable_row_step (r : refresh_result) (c0 c : Credential) :
  refreshed_or_same c0 c -> refreshed_or_same c0 (enable_row r c).
Proof.
  intros H. unfold enable_row.
  destruct (Z.eqb (cred_id c) (rr_id r)); [|exact H].
  right. split; [reflexivity|]. split; [reflexivity|].
  destruct H as [-> | (_ & _ & k & ->)]; simpl; eexists; reflexivity.
Qed.

Lemma apply_refresh_rows (results : list refresh_result) :
  forall (rows0 : list Credential) (t : tally),
  Forall2 refreshed_or_same rows0 (t_rows t) ->
  Forall2 refreshed_or_same rows0 (t_rows (fold_left apply_refresh results t)).
Proof.
  induction results as [|r rs IH]; intros rows0 t H; [exact H|].
  simpl. apply IH. unfold apply_refresh.
  destruct (PyStr.truthy (rr_token r)); simpl; [|exact H].
  clear IH. induction H as [|c0 c l0 l Hc _ IHl]; simpl; constructor.
  - apply enable_row_step. exact Hc.
  - exact IHl.
Qed.

Lemma Forall2_same (l : list Credential) : Forall2 refreshed_or_same l l.
Proof. induction l; constructor; [left; reflexivity | assumption]. Qed.

(** X13. Start-all never disables anything: whatever was selected and whatever
    the refreshes answer, each stored row is left as it was or comes out
    enabled with its error cleared and a new access token; an active row
    stays active and no row changes its visibility. *)
Theorem start_all_only_enables
  (env : Credential -> res (option string)) (creds rows : list Credential) :
  Forall2 refreshed_or_same rows (t_rows (run_in_background env creds rows)) /\
  Forall2 (fun c c' => is_active c = true -> is_active c' = true)
          rows (t_rows (run_in_background env creds rows)) /\
  List.map is_public (t_rows (run_in_background env creds rows)) = List.map is_public rows.
Proof.
  assert (H : Forall2 refreshed_or_same rows (t_rows (run_in_background env creds rows))).
  { unfold run_in_background. cbv zeta. apply apply_refresh_rows. simpl.
    apply Forall2_same. }
  split; [exact H|]. split.
  - induction H as [|c c' l l' Hc _ IH]; constructor; [|exact IH].
    destruct Hc as [-> | (Ha & _)]; auto.
  - induction H as [|c c' l l' Hc _ IH]; simpl; [reflexivity|].
    rewrite IH. f_equal.
    destruct Hc as [-> | (_ & _ & k & ->)]; reflexivity.
Qed.

Lemma rowcount_map (r r' : refresh_result) (rows : list Credential) :
  rowcount r' (List.map (enable_row r) rows) = rowcount r' rows.
Proof.
  unfold rowcount. induction rows as [|c l IH]; simpl; [reflexivity|].
  assert (E : cred_id (enable_row r c) = cred_id c)
    by (unfold enable_row; destruct (Z.eqb _ _); reflexivity).
  rewrite E. destruct (Z.eqb (cred_id c) (rr_id r')); simpl; rewrite IH; reflexivity.
Qed.

Lemma tally_counts (results : list refresh_result) :
  forall t,
  Forall (fun r => (0 < rowcount r (t_rows t))%nat) results ->
  (t_success (fold_left apply_refresh results t)
   + t_failed (fold_left apply_refresh results t))%nat
    = (t_success t + t_failed t + length results)%nat.
Proof.
  induction results as [|r rs IH]; intros t Hall; simpl; [lia|].
  apply Forall_cons_1 in Hall. destruct Hall as [Hr Hrs].
  rewrite IH.
  - unfold apply_refresh. destruct (PyStr.truthy (rr_token r)); simpl; [|lia].
    destruct (Nat.ltb_spec 0 (rowcount r (t_rows t))); lia.
  - unfold apply_refresh. destruct (PyStr.truthy (rr_token r)); simpl; [|exact Hrs].
    eapply Forall_impl; [exact Hrs|]. intros r' Hr'. simpl.
    rewrite rowcount_map. exact Hr'.
Qed.

Lemma rowcount_present (d : Credential) (answer : res (option string))
  (rows : list Credential) :
  In (cred_id d) (List.map cred_id rows) ->
  (0 < rowcount (refresh_single answer d) rows)%nat.
Proof.
  intros Hd.
  assert (Hid : rr_id (refresh_single answer d) = cred_id d)
    by (unfold refresh_single; destruct answer; reflexivity).
  unfold rowcount. rewrite Hid.
  induction rows as [|c l IH]; simpl in *; [contradiction|].
  destruct Hd as [-> | Hd].
  - rewrite Z.eqb_refl. simpl. lia.
  - destruct (Z.eqb (cred_id c) (cred_id d)); simpl; [lia | apply IH; exact Hd].
Qed.

(** X14. If every selected credential is still stored when the background
    session runs, each one is counted once, as a success or as a failure:
    [success + failed] is the [total] the request answered with. *)
Theorem start_all_counts_everyone
  (env : Credential -> res (option string)) (creds rows : list Credential) :
  incl (List.map cred_id creds) (List.map cred_id rows) ->
  (t_success (run_in_background env creds rows)
   + t_failed (run_in_background env creds rows))%nat
    = length creds.
Proof.
  intros Hincl. unfold run_in_background. cbv zeta. rewrite tally_counts.
  - simpl. rewrite List.length_map. reflexivity.
  - simpl. apply List.Forall_forall. intros r Hr.
    apply in_map_iff in Hr. destruct Hr as (d & <- & Hd).
    apply rowcount_present. apply Hincl. apply in_map. exact Hd.
Qed.

(** The selected rows are stored rows. *)
Lemma selected_incl (rows : list Credential) :
  incl (List.map cred_id (fst (start_all_antigravity_credentials rows)))
       (List.map cred_id rows).
Proof.
  intros i Hi. simpl in Hi. apply in_map_iff in Hi. destruct Hi as (c & <- & Hc).
  apply filter_In in Hc. apply in_map. exact (proj1 Hc).
Qed.

End WithCollaborators.

Lemma start_all_counts_everyone_witness :
  let rows := [VerifyRoutes.healthy_cred] in
  let request := start_all_antigravity_credentials rows in
  (t_success (run_in_background (fun s => s)
                (fun _ => Ok (Some "ya29.fresh")) (fst request) rows)
   + t_failed (run_in_background (fun s => s)
                 (fun _ => Ok (Some "ya29.fresh")) (fst request) rows))%nat
    = snd request.
Proof.
  cbv zeta.
  apply (start_all_counts_everyone (fun s => s) (fun _ => Ok (Some "ya29.fresh"))
           (fst (start_all_antigravity_credentials [VerifyRoutes.healthy_cred]))
           [VerifyRoutes.healthy_cred]).
  vm_compute. intros i Hi. exact Hi.
Defined.

End StartAll.

(** ** Statistics *)

Module Stats.

Definition count (p : Credential -> bool) (rows : list Credential) : nat :=
  length (List.filter p rows).

Definition of_mode (c : Credential) : bool := string_eqb (api_type c) MODE.

(** The JSON body of [get_antigravity_stats]. *)
Record stats : Type := mkStats {
  s_total : nat; s_active : nat; s_public : nat;
  s_user_credentials : nat; s_user_active : nat
}.

(** [get_antigravity_stats] for the user [uid]. *)
Definition get_antigravity_stats (rows : list Credential) (uid : Z) : stats :=
  mkStats
    (count of_mode rows)
    (count (fun c => of_mode c && is_active c) rows)
    (count (fun c => of_mode c && is_public c && is_active c) rows)
    (count (fun c => of_mode c && Z.eqb (user_id c) uid) rows)
    (count (fun c => of_mode c && Z.eqb (user_id c) uid && is_active c) rows).

(** The three counters of [get_antigravity_credentials_status]:
    [(total, active, public)]. *)
Definition get_antigravity_credentials_status (rows : list Credential)
  : nat * nat * nat :=
  let credentials := List.filter of_mode rows in
  (length credentials,
   length (List.filter is_active credentials),
   length (List.filter is_public credentials)).

Lemma count_le (p q : Credential -> bool) (rows : list Credential) :
  (forall c, p c = true -> q c = true) -> (count p rows <= count q rows)%nat.
Proof.
  intros H. unfold count. induction rows as [|c l IH]; simpl; [lia|].
  destruct (p c) eqn:Hp.
  - rewrite (H c Hp). simpl. lia.
  - destruct (q c); simpl; lia.
Qed.

Lemma count_filter (p q : Credential -> bool) (rows : list Credential) :
  length (List.filter q (List.filter p rows)) = count (fun c => p c && q c) rows.
Proof.
  unfold count. induction rows as [|c l IH]; simpl; [reflexivity|].
  destruct (p c); simpl; [destruct (q c); simpl; rewrite IH; reflexivity | exact IH].
Qed.

Lemma count_split (p q : Credential -> bool) (rows : list Credential) :
  count p rows
    = (count (fun c => p c && q c) rows + count (fun c => p c && negb (q c)) rows)%nat.
Proof.
  unfold count. induction rows as [|c l IH]; simpl; [reflexivity|].
  destruct (p c), (q c); simpl; lia.
Qed.

(** X15. The figures are consistent: public is within active, active within
    total, and the caller's figures within the global ones. The
    administrator's status page counts the same total and active figures,
    and its public figure exceeds the statistics' one by exactly the number
    of credentials that are public but inactive. *)
Theorem stats_figures_consistent (rows : list Credential) (uid : Z) :
  let s := get_antigravity_stats rows uid in
  let '(total, active, public) := get_antigravity_credentials_status rows in
  (s_public s <= s_active s <= s_total s)%nat /\
  (s_user_active s <= s_user_credentials s <= s_total s)%nat /\
  (s_user_active s <= s_active s)%nat /\
  total = s_total s /\ active = s_active s /\
  public = (s_public s
            + count (fun c => of_mode c && is_public c && negb (is_active c)) rows)%nat.
Proof.
  unfold get_antigravity_stats, get_antigravity_credentials_status. simpl.
  repeat split.
  - apply count_le. intros c H. apply andb_true_iff in H. destruct H as [H1 H2].
    apply andb_true_iff in H1. destruct H1 as [H1 _]. rewrite H1, H2. reflexivity.
  - apply count_le. intros c H. apply andb_true_iff in H. tauto.
  - apply count_le. intros c H. apply andb_true_iff in H. destruct H as [H1 _].
    exact H1.
  - apply count_le. intros c H. apply andb_true_iff in H. tauto.
  - apply count_le. intros c H. apply andb_true_iff in H. destruct H as [H1 H2].
    apply andb_true_iff in H1. destruct H1 as [H1 _]. rewrite H1, H2. reflexivity.
  - apply count_filter.
  - rewrite count_filter.
    apply (count_split (fun c => of_mode c && is_public c) is_active).
Qed.

End Stats.

(** ** Further facts about verification and the project-id refresh *)

Module VerifyFacts.
Import VerifyRoutes.

(** The columns no verification writes: identity, secrets other than the
    access token, visibility. *)
Definition same_identity (c c' : Credential) : Prop :=
  cred_id c' = cred_id c /\ user_id c' = user_id c /\ email c' = email c /\
  refresh_token c' = refresh_token c /\ api_type c' = api_type c /\
  is_public c' = is_public c.

Lemma probe_and_store_identity (p : option string) (o : Probe.outcome) (c : Credential) :
  same_identity c (fst (probe_and_store p o c)).
Proof.
  unfold probe_and_store. cbv zeta. simpl.
  destruct (PyStr.truthy p); repeat split.
Qed.

Lemma apply_result_identity (enc : string -> string) (r : single_result) (c : Credential) :
  same_identity c (apply_result enc r c).
Proof. unfold apply_result. destruct (Z.eqb _ _); repeat split. Qed.

(** X16. No verification, single or batch, changes who a credential belongs to or
    whether it is public: a public credential stays public whatever its
    probe answers. *)
Theorem verification_keeps_visibility
  (enc : string -> string) (a : answers) (cred : Credential) :
  same_identity cred (fst (verify_my_antigravity_credential a cred)) /\
  (forall c' r, admin_verify_antigravity_credential a cred = Ok (c', r) ->
                same_identity cred c') /\
  (forall env rows,
     Forall2 same_identity rows (run_in_background enc env rows)).
Proof.
  split; [|split].
  - unfold verify_my_antigravity_credential.
    destruct (token_answer a) as [t|e]; [|repeat split].
    destruct (negb (PyStr.truthy t)); [repeat split|].
    destruct (project_answer a) as [p|e]; [|repeat split].
    apply probe_and_store_identity.
  - intros c' r. unfold admin_verify_antigravity_credential.
    destruct (token_answer a) as [t|e]; simpl; [|discriminate].
    destruct (negb (PyStr.truthy t)); [intros [= <- _]; repeat split|].
    destruct (project_answer a) as [p|e]; simpl; [|discriminate].
    intros [= H _]. rewrite <- H. apply probe_and_store_identity.
  - intros env rows. unfold run_in_background. cbv zeta.
    generalize (List.map (fun d => verify_single (env d) d)
                  (List.filter (fun c => string_eqb (api_type c) MODE) rows)).
    intros results.
    assert (Hrefl : Forall2 same_identity rows rows)
      by (induction rows; constructor; [repeat split | assumption]).
    revert Hrefl. generalize rows at 2 4. intros cur. revert cur.
    induction results as [|r rs IH]; intros cur Hcur; simpl; [exact Hcur|].
    apply IH. clear IH.
    induction Hcur as [|c0 c l0 l Hc _ IHl]; simpl; constructor; [|exact IHl].
    destruct Hc as (H1 & H2 & H3 & H4 & H5 & H6).
    destruct (apply_result_identity enc r c) as (G1 & G2 & G3 & G4 & G5 & G6).
    repeat split; congruence.
Qed.

(** X17. A single verification answers [is_valid: true] only after a probe that
    returned 200 or 429 on a credential with a project id, and the row it
    commits is then active with its error cleared. *)
Theorem verified_means_probe_passed (a : answers) (cred : Credential) :
  resp_is_valid (snd (verify_my_antigravity_credential a cred)) = true ->
  (exists code, probe_answer a = Probe.Status code /\ (code = 200 \/ code = 429)) /\
  is_active (fst (verify_my_antigravity_credential a cred)) = true /\
  last_error (fst (verify_my_antigravity_credential a cred)) = None /\
  resp_error (snd (verify_my_antigravity_credential a cred)) = None /\
  PyStr.truthy (project_id (fst (verify_my_antigravity_credential a cred))) = true.
Proof.
  unfold verify_my_antigravity_credential.
  destruct (token_answer a) as [t|e]; [|discriminate].
  destruct (negb (PyStr.truthy t)); [discriminate|].
  destruct (project_answer a) as [p|e]; [|discriminate].
  unfold probe_and_store. cbv zeta. simpl.
  set (c1 := if PyStr.truthy p then set_project_id p cred else cred).
  destruct (PyStr.truthy (project_id c1)) eqn:Hp; simpl; [|discriminate].
  destruct (probe_answer a) as [code|e]; simpl; [|discriminate].
  destruct (Probe.status_ok code) eqn:Hok; simpl.
  - intros _. apply ProbeFacts.status_ok_iff in Hok.
    split; [exists code; auto|]. auto.
  - destruct (Probe.status_auth code); discriminate.
Qed.

Lemma verified_means_probe_passed_witness :
  is_active (fst (verify_my_antigravity_credential
                    (mkAnswers (Ok (Some "ya29.t")) (Ok (Some "proj-2")) (Probe.Status 429))
                    healthy_cred)) = true /\
  last_error (fst (verify_my_antigravity_credential
                    (mkAnswers (Ok (Some "ya29.t")) (Ok (Some "proj-2")) (Probe.Status 429))
                    healthy_cred)) = None.
Proof.
  destruct (verified_means_probe_passed
              (mkAnswers (Ok (Some "ya29.t")) (Ok (Some "proj-2")) (Probe.Status 429))
              healthy_cred eq_refl)
    as (_ & H1 & H2 & _).
  split; assumption.
Defined.

(** *** [refresh_antigravity_project_id] *)

Record refresh_response : Type := mkRefreshResponse {
  rf_success : bool;
  rf_project_id : option string;
  rf_old_project_id : option string;
  rf_error : option string
}.

(** [refresh_antigravity_project_id] on the row it found: the row as
    committed and the answer. *)
Definition refresh_antigravity_project_id
  (token : res (option string)) (project : res (option string)) (cred : Credential)
  : Credential * refresh_response :=
  match token with
  | Raise e =>
      (cred, mkRefreshResponse false (project_id cred) None
               (Some ("获取 token 失败: " +:+ PyStr.take 50 e)))
  | Ok access_token =>
      if negb (PyStr.truthy access_token) then
        (cred, mkRefreshResponse false (project_id cred) None
                 (Some "无法获取 access token"))
      else
        match project with
        | Raise e =>
            (cred, mkRefreshResponse false None None
                     (Some ("刷新异常: " +:+ PyStr.take 50 e)))
        | Ok new_project_id =>
            if negb (PyStr.truthy new_project_id) then
              (cred, mkRefreshResponse false (project_id cred) None
                       (Some "无法获取 project_id"))
            else
              (set_project_id new_project_id cred,
               mkRefreshResponse true new_project_id (project_id cred) None)
        end
  end.

(** X18. Refreshing the project id writes nothing but [project_id], and writes it
    only on success, with a non-empty id; unlike a verification, a failure
    here (no token, no project) does not disable the credential or record
    an error on it. *)
Theorem project_refresh_is_harmless
  (token project : res (option string)) (cred : Credential) :
  let c' := fst (refresh_antigravity_project_id token project cred) in
  let r := snd (refresh_antigravity_project_id token project cred) in
  set_project_id (project_id cred) c' = set_project_id (project_id cred) cred /\
  is_active c' = is_active cred /\ last_error c' = last_error cred /\
  (if rf_success r
   then project_id c' = rf_project_id r /\ PyStr.truthy (project_id c') = true /\
        rf_old_project_id r = project_id cred /\ rf_error r = None
   else c' = cred /\ exists m, rf_error r = Some m).
Proof.
  cbv zeta. unfold refresh_antigravity_project_id.
  destruct token as [t|e]; [|simpl; repeat split; eauto].
  destruct (negb (PyStr.truthy t)); [simpl; repeat split; eauto|].
  destruct project as [p|e]; [|simpl; repeat split; eauto].
  destruct (negb (PyStr.truthy p)) eqn:Hp; [simpl; repeat split; eauto|].
  apply negb_false_iff in Hp. simpl. repeat split; auto.
Qed.

End VerifyFacts.

(** ** Further facts about the OAuth callback *)

Module CallbackFacts.
Import Visibility.

(** The quota figures of the settings that the reward uses. *)
Record RewardSettings : Type := mkRewardSettings {
  quota_flash : Z;
  quota_25pro : Z;
  quota_30pro : Z
}.

(** The block "奖励用户额度": [reward_quota]. *)
Definition reward_quota (settings : RewardSettings)
  (is_new_credential data_is_public is_valid : bool) (detected_tier : string) : Z :=
  if is_new_credential && data_is_public && is_valid then
    if string_eqb detected_tier "3"
    then quota_flash settings + quota_25pro settings + quota_30pro settings
    else quota_flash settings + quota_25pro settings
  else 0.

(** The reward the route grants, from what it was given: [existing] as in
    [callback_store], the request's flag and the two probes. *)
Definition callback_reward (settings : RewardSettings)
  (existing : option Credential) (data_is_public : bool)
  (first second : Probe.outcome) : Z :=
  let '(valid, detected_tier) := callback_verify first second in
  reward_quota settings
    (match existing with Some _ => false | None => true end)
    data_is_public valid detected_tier.

(** X19. The callback disables a credential on 401 and 403 only: any other
    answer of the first probe, an exception included, leaves it valid. It
    reports tier 3 exactly when both probes answer 200 or 429. *)
Theorem callback_validity (first second : Probe.outcome) :
  (fst (callback_verify first second) = false <->
   exists code, first = Probe.Status code /\ (code = 401 \/ code = 403)) /\
  (snd (callback_verify first second) = "3" <->
   exists c1 c2, first = Probe.Status c1 /\ second = Probe.Status c2 /\
                 Probe.status_ok c1 = true /\ Probe.status_ok c2 = true).
Proof.
  unfold callback_verify. split.
  - destruct first as [code|e].
    + destruct (Probe.status_ok code) eqn:Hok.
      * assert (Hno : ~ (code = 401 \/ code = 403)).
        { apply ProbeFacts.status_ok_iff in Hok. lia. }
        split.
        -- destruct second as [c3|e]; [destruct (Probe.status_ok c3)|]; discriminate.
        -- intros (c & [= <-] & Hc). contradiction.
      * destruct (Probe.status_auth code) eqn:Ha; simpl.
        -- apply ProbeFacts.status_auth_iff in Ha. split; eauto.
        -- split; [discriminate|]. intros (c & [= <-] & Hc).
           apply ProbeFacts.status_auth_iff in Hc. congruence.
    + simpl. split; [discriminate|]. intros (c & H & _). discriminate H.
  - destruct first as [code|e].
    + destruct (Probe.status_ok code) eqn:Hok.
      * destruct second as [c3|e].
        -- destruct (Probe.status_ok c3) eqn:H3; simpl; split.
           ++ intros _. exists code, c3. auto.
           ++ reflexivity.
           ++ discriminate.
           ++ intros (c1 & c2 & _ & [= <-] & _ & H). congruence.
        -- simpl. split; [discriminate|].
           intros (c1 & c2 & _ & H & _). discriminate H.
      * destruct (Probe.status_auth code); simpl; (split; [discriminate|]);
          intros (c1 & c2 & [= <-] & _ & H & _); congruence.
    + simpl. split; [discriminate|]. intros (c1 & c2 & H & _). discriminate H.
Qed.

(** X20. Quota is granted only for a credential that is new, offered as public,
    and not refused by the probe with 401 or 403; re-submitting an email
    the user already has grants nothing. *)
Theorem reward_needs_new_public_valid (settings : RewardSettings)
  (existing : option Credential) (data_is_public : bool)
  (first second : Probe.outcome) :
  callback_reward settings existing data_is_public first second <> 0 ->
  existing = None /\ data_is_public = true /\
  fst (callback_verify first second) = true /\
  callback_reward settings existing data_is_public first second
    = quota_flash settings + quota_25pro settings
      + (if string_eqb (snd (callback_verify first second)) "3"
         then quota_30pro settings else 0).
Proof.
  unfold callback_reward, reward_quota.
  destruct (callback_verify first second) as [valid tier]. simpl.
  destruct existing as [e|]; simpl; [congruence|].
  destruct data_is_public; simpl; [|congruence].
  destruct valid; simpl; [|congruence].
  intros _. repeat split. destruct (string_eqb tier "3"); lia.
Qed.

Lemma reward_needs_new_public_valid_witness :
  callback_reward (mkRewardSettings 100 50 20) None true
    (Probe.Status 200) (Probe.Status 429) = 170.
Proof.
  destruct (reward_needs_new_public_valid (mkRewardSettings 100 50 20) None true
              (Probe.Status 200) (Probe.Status 429)) as (_ & _ & _ & H).
  - vm_compute. discriminate.
  - rewrite H. reflexivity.
Defined.

End CallbackFacts.

(** ** The cache as this repository runs it *)

Module CacheFacts.
Import Json Cache.

(** One call of a function decorated with [@cached]: the cache key the
    wrapper computes, the [ttl], and what awaiting the function gives. *)
Record call : Type := mkCall {
  c_key : string;
  c_ttl : Z;
  c_func : res pyobj
}.

(** A series of calls through the wrapper on one cache, each at its own
    time: the results in order, the cache afterwards, the cache operations. *)
Fixpoint serve_calls (redis : redis_calls) (calls : list (Z * call)) (st : SimpleCache)
  : list (res pyobj) * SimpleCache * list event :=
  match calls with
  | [] => ([], st, [])
  | (now, c) :: rest =>
      let '(r, st1, tr) := cached redis now (c_key c) (c_ttl c) (c_func c) st in
      let '(rs, st2, trs) := serve_calls redis rest st1 in
      (r :: rs, st2, (tr ++ trs)%list)
  end.

Definition is_recompute (e : event) : bool :=
  match e with
  | Recompute => true
  | _ => false
  end.

Definition is_hit (tr : list event) : bool :=
  negb (existsb is_recompute tr).

(** One call with the repository's service: [get_json] hands back its
    coroutine object, the wrapper drops the key, runs the function and offers
    the result to [set_json], whose coroutine is never awaited. *)
Lemma cached_repo (now : Z) (c : call) (st : SimpleCache) :
  cached redis_service now (c_key c) (c_ttl c) (c_func c) st
    = (c_func c,
       mkCache (base.delete (c_key c) (_memory_cache st))
               (base.delete (c_key c) (_memory_expires st)),
       ([CacheGet (c_key c); CacheDelete (c_key c); Recompute]
        ++ writes (c_key c) (fresh_of_func (c_ttl c) (c_func c)))%list).
Proof.
  unfold cached. simpl. destruct (c_func c) as [r|e]; [|reflexivity]. simpl.
  destruct (is_awaitable r); reflexivity.
Qed.

Lemma writes_no_recompute (key : string) (fresh : option (pyobj * Z)) :
  List.filter is_recompute (writes key fresh) = [].
Proof. destruct fresh as [[v ttl]|]; reflexivity. Qed.

Lemma lookup_after_drops {V : Type} (ks : list string) (k : string) :
  forall m : gmap string V,
  fold_left (fun d x => base.delete x d) ks m !! k
    = if bool_decide (k ∈ ks) then None else m !! k.
Proof.
  induction ks as [|x ks IH]; intros m; cbn [fold_left].
  - rewrite bool_decide_eq_false_2 by apply not_elem_of_nil. reflexivity.
  - rewrite IH. destruct (decide (x = k)) as [->|Hne].
    + rewrite lookup_delete_eq.
      rewrite (bool_decide_eq_true_2 (k ∈ k :: ks))
        by (apply elem_of_cons; left; reflexivity).
      destruct (bool_decide (k ∈ ks)); reflexivity.
    + rewrite lookup_delete_ne by exact Hne.
      destruct (decide (k ∈ ks)) as [Hin|Hnin].
      * rewrite (bool_decide_eq_true_2 (k ∈ ks)) by exact Hin.
        rewrite bool_decide_eq_true_2; [reflexivity|].
        apply elem_of_cons. right. exact Hin.
      * rewrite (bool_decide_eq_false_2 (k ∈ ks)) by exact Hnin.
        rewrite bool_decide_eq_false_2; [reflexivity|].
        intros H. apply elem_of_cons in H. destruct H as [H|H]; [|contradiction].
        apply Hne. symmetry. exact H.
Qed.

Lemma serve_calls_repo (calls : list (Z * call)) :
  forall st,
  fst (fst (serve_calls redis_service calls st))
    = List.map (fun nc => c_func (snd nc)) calls /\
  snd (fst (serve_calls redis_service calls st))
    = mkCache (fold_left (fun d x => base.delete x d)
                         (List.map (fun nc => c_key (snd nc)) calls) (_memory_cache st))
              (fold_left (fun d x => base.delete x d)
                         (List.map (fun nc => c_key (snd nc)) calls) (_memory_expires st)) /\
  length (List.filter is_recompute (snd (serve_calls redis_service calls st)))
    = length calls.
Proof.
  induction calls as [|[now c] rest IH]; intros st.
  - destruct st. repeat split.
  - cbn [serve_calls]. rewrite cached_repo.
    specialize (IH (mkCache (base.delete (c_key c) (_memory_cache st))
                            (base.delete (c_key c) (_memory_expires st)))).
    destruct (serve_calls redis_service rest _) as [[rs st2] trs].
    cbn [fst snd] in *. destruct IH as (-> & -> & Hn).
    split; [reflexivity|]. split; [reflexivity|].
    rewrite List.filter_app, List.filter_app, writes_no_recompute.
    cbn [List.filter is_recompute app length]. rewrite Hn. reflexivity.
Qed.

(** X30. With the service this repository wires in (its [async] methods called
    without [await]), the cache never answers. However many calls go
    through the [@cached] wrapper, at whatever times and on whatever cache
    contents, every call runs the decorated function and returns its
    outcome, and the in-process dictionaries only lose the keys asked for:
    nothing is ever stored. The API-key lookup likewise always asks the
    database and returns its answer, so a key revoked there is refused at
    once. *)
Theorem repository_cache_never_serves :
  (forall calls st,
     fst (fst (serve_calls redis_service calls st))
       = List.map (fun nc => c_func (snd nc)) calls /\
     length (List.filter is_recompute (snd (serve_calls redis_service calls st)))
       = length calls /\
     forall k,
       _memory_cache (snd (fst (serve_calls redis_service calls st))) !! k
         = (if bool_decide (k ∈ List.map (fun nc => c_key (snd nc)) calls)
            then None else _memory_cache st !! k) /\
       _memory_expires (snd (fst (serve_calls redis_service calls st))) !! k
         = (if bool_decide (k ∈ List.map (fun nc => c_key (snd nc)) calls)
            then None else _memory_expires st !! k)) /\
  (forall now fromisoformat isoformat api_key db_user st,
     fst (fst (get_user_by_api_key redis_service now fromisoformat isoformat
                 api_key db_user st)) = db_user /\
     is_hit (snd (get_user_by_api_key redis_service now fromisoformat isoformat
                    api_key db_user st)) = false /\
     snd (fst (get_user_by_api_key redis_service now fromisoformat isoformat
                 api_key db_user st))
       = mkCache (base.delete (user_cache_key api_key) (_memory_cache st))
                 (base.delete (user_cache_key api_key) (_memory_expires st))).
Proof.
  split.
  - intros calls st. destruct (serve_calls_repo calls st) as (H1 & H2 & H3).
    split; [exact H1|]. split; [exact H3|]. intros k. rewrite H2. simpl.
    split; apply lookup_after_drops.
  - intros now fromisoformat isoformat api_key db_user st.
    unfold get_user_by_api_key. cbv zeta. simpl. unfold lookup_in_db.
    destruct db_user as [u|]; repeat split.
Qed.

(** Three calls of one statistics function within its 30 seconds: three
    executions. *)
Example three_calls_three_runs :
  let c := mkCall "stats:get_stats:42" 30 (Ok sample_stats) in
  serve_calls redis_service [(1000, c); (1001, c); (1002, c)] empty_cache
    = ([Ok sample_stats; Ok sample_stats; Ok sample_stats], empty_cache,
       [CacheGet "stats:get_stats:42"; CacheDelete "stats:get_stats:42"; Recompute;
        CacheSet "stats:get_stats:42" sample_stats 30;
        CacheGet "stats:get_stats:42"; CacheDelete "stats:get_stats:42"; Recompute;
        CacheSet "stats:get_stats:42" sample_stats 30;
        CacheGet "stats:get_stats:42"; CacheDelete "stats:get_stats:42"; Recompute;
        CacheSet "stats:get_stats:42" sample_stats 30]).
Proof. vm_compute. reflexivity. Qed.

End CacheFacts.

(** ** The Redis service when its methods are awaited (redis_service.py) *)

Module RedisSvc.

(** The Redis client as the service uses it: what each call on a full key
    returns or raises. *)
Record client : Type := mkClient {
  c_get : string -> res (option string);
  c_set : string -> string -> option Z -> res unit;
  c_delete : string -> res unit;
  c_exists : string -> res Z
}.

(** The fields of [RedisService] its operations use. *)
Record RedisService : Type := mkService {
  connected : bool;
  key_prefix : string;
  memory_cache : gmap string string;
  memory_expires : gmap string Z
}.

(** [self._get_key(key)] *)
Definition _get_key (s : RedisService) (key : string) : string :=
  key_prefix s +:+ key.

Definition with_memory (m : gmap string string) (e : gmap string Z) (s : RedisService)
  : RedisService :=
  mkService (connected s) (key_prefix s) m e.

(** [del d[k]]: [KeyError] when the key is absent. *)
Definition del {V : Type} (k : string) (d : gmap string V) : res (gmap string V) :=
  match d !! k with
  | Some _ => Ok (base.delete k d)
  | None => Raise "KeyError"
  end.

(** [expire] as a condition: [None] and [0] are falsy. *)
Definition py_truthy_int (o : option Z) : bool :=
  match o with
  | Some n => negb (Z.eqb n 0)
  | None => false
  end.

Section WithClient.

Variable cl : client.

(** [time.time()] at the call. *)
Variable now : Z.

(** The in-memory part of [get]: the expiry check, then [dict.get]. *)
Definition memory_lookup (full_key : string) (s : RedisService)
  : res (option string * RedisService) :=
  match memory_expires s !! full_key with
  | Some t =>
      if Z.ltb t now then
        m <- del full_key (memory_cache s) ;;
        e <- del full_key (memory_expires s) ;;
        Ok (None, with_memory m e s)
      else Ok (memory_cache s !! full_key, s)
  | None => Ok (memory_cache s !! full_key, s)
  end.

(** [await redis_service.get(key)] *)
Definition get (key : string) (s : RedisService) : res (option string * RedisService) :=
  let full_key := _get_key s key in
  let from_memory := memory_lookup full_key s in
  if connected s then
    match c_get cl full_key with
    | Ok v => Ok (v, s)
    | Raise _ => from_memory
    end
  else from_memory.

(** [await redis_service.set(key, value, expire)]; it returns [True]. *)
Definition set (key : string) (value : string) (expire : option Z) (s : RedisService)
  : RedisService :=
  let full_key := _get_key s key in
  let to_memory :=
    with_memory (<[full_key := value]> (memory_cache s))
                (if py_truthy_int expire
                 then <[full_key := now + default 0 expire]> (memory_expires s)
                 else memory_expires s) s in
  if connected s then
    match c_set cl full_key value (if py_truthy_int expire then expire else None) with
    | Ok _ => s
    | Raise _ => to_memory
    end
  else to_memory.

(** [await redis_service.delete(key)]; it returns [True]. *)
Definition delete (key : string) (s : RedisService) : RedisService :=
  let full_key := _get_key s key in
  let from_memory :=
    with_memory (base.delete full_key (memory_cache s))
                (base.delete full_key (memory_expires s)) s in
  if connected s then
    match c_delete cl full_key with
    | Ok _ => s
    | Raise _ => from_memory
    end
  else from_memory.

(** [await redis_service.exists(key)] *)
Definition exists_ (key : string) (s : RedisService) : res (bool * RedisService) :=
  let full_key := _get_key s key in
  let from_memory :=
    match memory_expires s !! full_key with
    | Some t =>
        if Z.ltb t now then
          m <- del full_key (memory_cache s) ;;
          e <- del full_key (memory_expires s) ;;
          Ok (false, with_memory m e s)
        else Ok (bool_decide (is_Some (memory_cache s !! full_key)), s)
    | None => Ok (bool_decide (is_Some (memory_cache s !! full_key)), s)
    end in
  if connected s then
    match c_exists cl full_key with
    | Ok n => Ok (Z.ltb 0 n, s)
    | Raise _ => from_memory
    end
  else from_memory.

Section Json.

(** [json.loads] ([None] for [JSONDecodeError]) and [json.dumps]. *)
Variable loads : string -> option Json.json.
Variable dumps : Json.json -> string.

(** [await redis_service.get_json(key)]: [Ok None] is Python's [None]. *)
Definition get_json (key : string) (s : RedisService)
  : res (option Json.json * RedisService) :=
  r <- get key s ;;
  let '(value, s') := r in
  if PyStr.truthy value then Ok (loads (or_empty value), s') else Ok (None, s').

(** [await redis_service.set_json(key, value, expire)] *)
Definition set_json (key : string) (value : Json.json) (expire : option Z)
  (s : RedisService) : RedisService :=
  set key (dumps value) expire s.

End Json.

End WithClient.

(** Every key with an expiry has a value. *)
Definition expiry_has_value (s : RedisService) : Prop :=
  forall k t, memory_expires s !! k = Some t -> is_Some (memory_cache s !! k).

Definition fresh_service (prefix : string) (is_connected : bool) : RedisService :=
  mkService is_connected prefix ∅ ∅.

Lemma fresh_service_ok (prefix : string) (b : bool) :
  expiry_has_value (fresh_service prefix b).
Proof. intros k t H. simpl in H. rewrite lookup_empty in H. discriminate. Qed.

Lemma memory_lookup_ok (now : Z) (k : string) (s : RedisService) :
  expiry_has_value s ->
  exists v s', memory_lookup now k s = Ok (v, s') /\ expiry_has_value s' /\
               connected s' = connected s /\ key_prefix s' = key_prefix s.
Proof.
  intros Hinv. unfold memory_lookup.
  destruct (memory_expires s !! k) as [t|] eqn:Et; [|eauto 6].
  destruct (Z.ltb t now); [|eauto 6].
  destruct (Hinv k t Et) as [v Hv]. unfold del. rewrite Hv, Et. simpl.
  do 2 eexists. split; [reflexivity|]. split; [|split; reflexivity].
  intros k' t' H'. simpl in *.
  destruct (decide (k = k')) as [<-|Hne].
  - rewrite lookup_delete_eq in H'. discriminate.
  - rewrite lookup_delete_ne in H' by exact Hne.
    rewrite lookup_delete_ne by exact Hne. exact (Hinv k' t' H').
Qed.

Lemma set_keeps_invariant (cl : client) (now : Z) (key value : string)
  (expire : option Z) (s : RedisService) :
  expiry_has_value s -> expiry_has_value (set cl now key value expire s).
Proof.
  intros Hinv. unfold set. cbv zeta.
  assert (Hmem : expiry_has_value
            (with_memory (<[_get_key s key := value]> (memory_cache s))
               (if py_truthy_int expire
                then <[_get_key s key := now + default 0 expire]> (memory_expires s)
                else memory_expires s) s)).
  { intros k t H. simpl in *.
    destruct (decide (_get_key s key = k)) as [<-|Hne].
    - rewrite lookup_insert_eq. eauto.
    - rewrite lookup_insert_ne by exact Hne.
      destruct (py_truthy_int expire).
      + rewrite lookup_insert_ne in H by exact Hne. exact (Hinv k t H).
      + exact (Hinv k t H). }
  destruct (connected s); [|exact Hmem].
  destruct (c_set cl _ _ _); [exact Hinv | exact Hmem].
Qed.

Lemma delete_keeps_invariant (cl : client) (key : string) (s : RedisService) :
  expiry_has_value s -> expiry_has_value (delete cl key s).
Proof.
  intros Hinv. unfold delete. cbv zeta.
  assert (Hmem : expiry_has_value
            (with_memory (base.delete (_get_key s key) (memory_cache s))
                         (base.delete (_get_key s key) (memory_expires s)) s)).
  { intros k t H. simpl in *.
    destruct (decide (_get_key s key = k)) as [<-|Hne].
    - rewrite lookup_delete_eq in H. discriminate.
    - rewrite lookup_delete_ne in H by exact Hne.
      rewrite lookup_delete_ne by exact Hne. exact (Hinv k t H). }
  destruct (connected s); [|exact Hmem].
  destruct (c_delete cl _); [exact Hinv | exact Hmem].
Qed.

(** X25. The service keeps a value for every key that has an expiry; this holds
    of a new service and is kept by [get], [set], [delete] and [exists], and
    it is what makes the two [del] statements of the expiry path safe:
    [get] and [exists] never fail with [KeyError]. *)
Theorem expiry_path_never_raises
  (cl : client) (now : Z) (key value : string) (expire : option Z)
  (s : RedisService) :
  expiry_has_value s ->
  (exists v s', get cl now key s = Ok (v, s') /\ expiry_has_value s') /\
  (exists b s', exists_ cl now key s = Ok (b, s') /\ expiry_has_value s') /\
  expiry_has_value (set cl now key value expire s) /\
  expiry_has_value (delete cl key s).
Proof.
  intros Hinv. split; [|split; [|split]].
  - unfold get. cbv zeta.
    destruct (memory_lookup_ok now (_get_key s key) s Hinv) as (v & s' & H & Hs' & _).
    destruct (connected s); [|eauto].
    destruct (c_get cl _); eauto.
  - unfold exists_. cbv zeta.
    assert (Hmem : exists b s',
      match memory_expires s !! _get_key s key with
      | Some t =>
          if Z.ltb t now then
            m <- del (_get_key s key) (memory_cache s) ;;
            e <- del (_get_key s key) (memory_expires s) ;;
            Ok (false, with_memory m e s)
          else Ok (bool_decide (is_Some (memory_cache s !! _get_key s key)), s)
      | None => Ok (bool_decide (is_Some (memory_cache s !! _get_key s key)), s)
      end = Ok (b, s') /\ expiry_has_value s').
    { pose proof (memory_lookup_ok now (_get_key s key) s Hinv) as Hl.
      unfold memory_lookup in Hl.
      destruct (memory_expires s !! _get_key s key) as [t|] eqn:Et; [|eauto].
      destruct (Z.ltb t now); [|eauto].
      destruct Hl as (v & s' & Hl & Hs' & _).
      destruct (del (_get_key s key) (memory_cache s)) as [m|]; simpl in *;
        [|discriminate].
      destruct (del (_get_key s key) (memory_expires s)) as [e|]; simpl in *;
        [|discriminate].
      injection Hl as _ <-. eauto. }
    destruct (connected s); [|exact Hmem].
    destruct (c_exists cl _); [eauto | exact Hmem].
  - apply set_keeps_invariant. exact Hinv.
  - apply delete_keeps_invariant. exact Hinv.
Qed.

Definition failing_client : client :=
  mkClient (fun _ => Raise "ConnectionError") (fun _ _ _ => Raise "ConnectionError")
           (fun _ => Raise "ConnectionError") (fun _ => Raise "ConnectionError").

Lemma expiry_path_never_raises_witness :
  exists v s',
    get failing_client 200 "k"
      (set failing_client 100 "k" "v" (Some 30) (fresh_service "catie:" true))
    = Ok (v, s') /\ expiry_has_value s'.
Proof.
  apply (expiry_path_never_raises failing_client 200 "k" "v" None
           (set failing_client 100 "k" "v" (Some 30) (fresh_service "catie:" true))).
  apply set_keeps_invariant. apply fresh_service_ok.
Defined.

Example expired_entry_is_evicted :
  get failing_client 200 "k"
    (set failing_client 100 "k" "v" (Some 30) (fresh_service "catie:" true))
  = Ok (None, fresh_service "catie:" true).
Proof. vm_compute. reflexivity. Qed.

(** The service without a usable Redis: not connected, or every call fails. *)
Definition on_memory (cl : client) (s : RedisService) : Prop :=
  connected s = false \/
  ((forall k, exists e, c_get cl k = Raise e) /\
   (forall k v x, exists e, c_set cl k v x = Raise e)).

Lemma get_on_memory (cl : client) (now : Z) (key : string) (s : RedisService) :
  on_memory cl s -> get cl now key s = memory_lookup now (_get_key s key) s.
Proof.
  intros [H | [Hg _]]; unfold get; cbv zeta.
  - rewrite H. reflexivity.
  - destruct (connected s); [|reflexivity].
    destruct (Hg (_get_key s key)) as (e & ->). reflexivity.
Qed.

Lemma set_on_memory (cl : client) (now : Z) (key value : string) (expire : option Z)
  (s : RedisService) :
  on_memory cl s ->
  set cl now key value expire s
    = with_memory (<[_get_key s key := value]> (memory_cache s))
        (if py_truthy_int expire
         then <[_get_key s key := now + default 0 expire]> (memory_expires s)
         else memory_expires s) s /\
  on_memory cl (set cl now key value expire s).
Proof.
  intros H. assert (E : set cl now key value expire s
    = with_memory (<[_get_key s key := value]> (memory_cache s))
        (if py_truthy_int expire
         then <[_get_key s key := now + default 0 expire]> (memory_expires s)
         else memory_expires s) s).
  { destruct H as [H | [_ Hs]]; unfold set; cbv zeta.
    - rewrite H. reflexivity.
    - destruct (connected s); [|reflexivity].
      destruct (Hs (_get_key s key) value
                  (if py_truthy_int expire then expire else None)) as (e & ->).
      reflexivity. }
  split; [exact E|]. rewrite E. destruct H as [H | H]; [left; exact H | right; exact H].
Qed.

(** X26. On the in-memory fallback a value written with an expiry is read back
    until the expiry and gone after it. A later write of the same key
    without an expiry replaces the value but keeps the old deadline: the
    new value disappears when the old expiry passes. *)
Theorem fallback_expiry
  (cl : client) (t0 t1 t2 e : Z) (key v1 v2 : string) (s : RedisService) :
  on_memory cl s -> 0 < e -> t0 <= t1 <= t0 + e -> t0 + e < t2 ->
  let s1 := set cl t0 key v1 (Some e) s in
  let s2 := set cl t1 key v2 None s1 in
  get cl t1 key s1 = Ok (Some v1, s1) /\
  fst <$> (match get cl t2 key s1 with Ok r => Some r | Raise _ => None end) = Some None /\
  get cl t1 key s2 = Ok (Some v2, s2) /\
  fst <$> (match get cl t2 key s2 with Ok r => Some r | Raise _ => None end) = Some None.
Proof.
  intros Hmem He Ht1 Ht2. cbv zeta.
  destruct (set_on_memory cl t0 key v1 (Some e) s Hmem) as [E1 Hmem1].
  destruct (set_on_memory cl t1 key v2 None _ Hmem1) as [E2 Hmem2].
  rewrite !get_on_memory by assumption.
  assert (Hexp : py_truthy_int (Some e) = true)
    by (simpl; destruct (Z.eqb_spec e 0); [lia | reflexivity]).
  rewrite E2, E1. rewrite Hexp. unfold memory_lookup, del. simpl.
  rewrite !lookup_insert_eq. simpl.
  destruct (Z.ltb_spec (t0 + e) t1); [lia|].
  destruct (Z.ltb_spec (t0 + e) t2); [|lia]. simpl.
  repeat split; reflexivity.
Qed.

Lemma fallback_expiry_witness :
  let s1 := set failing_client 100 "k" "old" (Some 30) (fresh_service "catie:" true) in
  let s2 := set failing_client 105 "k" "new" None s1 in
  get failing_client 105 "k" s1 = Ok (Some "old", s1) /\
  fst <$> (match get failing_client 131 "k" s1 with Ok r => Some r | Raise _ => None end)
    = Some None /\
  get failing_client 105 "k" s2 = Ok (Some "new", s2) /\
  fst <$> (match get failing_client 131 "k" s2 with Ok r => Some r | Raise _ => None end)
    = Some None.
Proof.
  apply (fallback_expiry failing_client 100 105 131 30 "k" "old" "new"
           (fresh_service "catie:" true)); try lia.
  right. split; intros; eexists; reflexivity.
Defined.

End RedisSvc.

(** ** Request translation (openai2gemini.py) *)

Module OpenAI2Gemini.

(** Python values as they occur in a decoded request body. *)
#[warnings="-register-all"]
Inductive value : Type :=
| VNone
| VBool (b : bool)
| VInt (n : Z)
| VFloat (x : spec_float)
| VStr (s : string)
| VList (items : list value)
| VDict (fields : list (string * value)).

(** The exceptions the translation can meet. *)
Inductive exn : Type := AttributeError | TypeError | KeyError | JSONDecodeError.

Inductive outcome (A : Type) : Type :=
| Return (a : A)
| Throw (e : exn).

Arguments Return {A} a.
Arguments Throw {A} e.

Definition obind {A B : Type} (m : outcome A) (k : A -> outcome B) : outcome B :=
  match m with
  | Return a => k a
  | Throw e => Throw e
  end.

Notation "x <~ m ;; k" := (obind m (fun x => k))
  (at level 100, m at next level, right associativity).

Definition truthy (v : value) : bool :=
  match v with
  | VNone => false
  | VBool b => b
  | VInt n => negb (Z.eqb n 0)
  | VFloat (S754_zero _) => false
  | VFloat _ => true
  | VStr s => negb (string_eqb s "")
  | VList items => match items with [] => false | _ => true end
  | VDict fields => match fields with [] => false | _ => true end
  end.

(** [v == "text"] for a string literal. *)
Definition is_str (v : value) (s : string) : bool :=
  match v with
  | VStr t => string_eqb t s
  | _ => false
  end.

Fixpoint lookup (k : string) (fields : list (string * value)) : option value :=
  match fields with
  | [] => None
  | (k', v) :: rest => if string_eqb k k' then Some v else lookup k rest
  end.

(** [d[k] = v] on a dict: in place when the key exists, appended otherwise. *)
Fixpoint dict_set (k : string) (v : value) (fields : list (string * value))
  : list (string * value) :=
  match fields with
  | [] => [(k, v)]
  | (k', v') :: rest =>
      if string_eqb k k' then (k', v) :: rest else (k', v') :: dict_set k v rest
  end.

(** [d.get(k, default)]; only a dict has [get]. *)
Definition get_default (d : value) (k : string) (dflt : value) : outcome value :=
  match d with
  | VDict fields =>
      match lookup k fields with
      | Some v => Return v
      | None => Return dflt
      end
  | _ => Throw AttributeError
  end.

Definition get (d : value) (k : string) : outcome value := get_default d k VNone.

(** [d[k]] with a string key. *)
Definition index (d : value) (k : string) : outcome value :=
  match d with
  | VDict fields =>
      match lookup k fields with
      | Some v => Return v
      | None => Throw KeyError
      end
  | _ => Throw TypeError
  end.

(** The elements a [for] loop draws from a value. *)
Definition iterate (v : value) : outcome (list value) :=
  match v with
  | VList items => Return items
  | VDict fields => Return (List.map (fun kv => VStr (fst kv)) fields)
  | VStr s => Return (List.map (fun c => VStr (String c EmptyString)) (list_ascii_of_string s))
  | _ => Throw TypeError
  end.

Definition text_part (content : value) : value := VDict [("text", content)].

(** *** [merge_system_messages] *)

(** The parts one system message contributes. *)
Definition system_parts_of (content : value) : list value :=
  match content with
  | VStr _ => [text_part content]
  | VList items =>
      flat_map
        (fun item =>
           match item with
           | VDict fields =>
               if match lookup "type" fields with
                  | Some t => is_str t "text"
                  | None => false
                  end
               then [text_part (match lookup "text" fields with
                                | Some t => t
                                | None => VStr ""
                                end)]
               else []
           | VStr _ => [text_part item]
           | _ => []
           end)
        items
  | _ => []
  end.

(** The loop [for msg in messages]: [(system_parts, other_messages)]. *)
Fixpoint split_messages (messages : list value) : outcome (list value * list value) :=
  match messages with
  | [] => Return ([], [])
  | msg :: rest =>
      role <~ get msg "role" ;;
      content <~ (if is_str role "system" then get_default msg "content" (VStr "")
                  else Return VNone) ;;
      r <~ split_messages rest ;;
      let '(system_parts, other_messages) := r in
      if is_str role "system"
      then Return ((system_parts_of content ++ system_parts)%list, other_messages)
      else Return (system_parts, msg :: other_messages)
  end.

Definition merge_system_messages (openai_request : value) : outcome value :=
  messages <~ get_default openai_request "messages" (VList []) ;;
  if negb (truthy messages) then Return openai_request
  else
    msgs <~ iterate messages ;;
    r <~ split_messages msgs ;;
    let '(system_parts, other_messages) := r in
    match openai_request with
    | VDict fields =>
        let result := dict_set "messages" (VList other_messages) fields in
        Return (VDict (match system_parts with
                       | [] => result
                       | _ => dict_set "systemInstruction"
                                (VDict [("parts", VList system_parts)]) result
                       end))
    | _ => Throw AttributeError
    end.

(** *** [convert_openai_to_gemini_request] *)

Section WithLibraries.

(** [json.loads] on a string ([None] for [JSONDecodeError]) and
    [re.match(r"^data:image/(\w+);base64,(.+)$", url)] (its two groups). *)
Variable loads : string -> option value.
Variable match_data_url : string -> option (string * string).

(** The branch [if role == "tool"]. *)
Definition tool_message (message content : value) : outcome value :=
  tool_call_id <~ get_default message "tool_call_id" (VStr "") ;;
  func_name <~ get_default message "name" (VStr "unknown_function") ;;
  let response_data :=
    match content with
    | VStr s =>
        match loads s with
        | Some v => v
        | None => VDict [("result", VStr s)]
        end
    | _ => content
    end in
  let response_data :=
    match response_data with
    | VDict _ => response_data
    | _ => VDict [("result", response_data)]
    end in
  Return
    (VDict [("role", VStr "user");
            ("parts",
             VList [VDict [("functionResponse",
                            VDict [("id", tool_call_id); ("name", func_name);
                                   ("response", response_data)])]])]).

(** The [try] body for one tool call. *)
Definition function_call_part (tool_call : value) : outcome value :=
  f <~ index tool_call "function" ;;
  a <~ index f "arguments" ;;
  args <~ match a with
          | VStr s =>
              match loads s with
              | Some v => Return v
              | None => Throw JSONDecodeError
              end
          | _ => Return a
          end ;;
  call_id <~ get_default tool_call "id" (VStr "") ;;
  fname <~ index f "name" ;;
  Return
    (VDict [("functionCall",
             VDict [("id", call_id); ("name", fname); ("args", args)]);
            ("thoughtSignature", VStr "skip_thought_signature_validator")]).

(** The loop [for tool_call in tool_calls] with its
    [except (json.JSONDecodeError, KeyError): continue]. *)
Fixpoint function_call_parts (tool_calls : list value) : outcome (list value) :=
  match tool_calls with
  | [] => Return []
  | tool_call :: rest =>
      match function_call_part tool_call with
      | Return part => parts <~ function_call_parts rest ;; Return (part :: parts)
      | Throw KeyError | Throw JSONDecodeError => function_call_parts rest
      | Throw e => Throw e
      end
  end.

(** One element of a list-valued [content]. *)
Definition content_part (part : value) : outcome (list value) :=
  match part with
  | VDict fields =>
      let ptype := match lookup "type" fields with Some t => t | None => VNone end in
      if is_str ptype "text" then
        Return [text_part (match lookup "text" fields with
                           | Some t => t
                           | None => VStr ""
                           end)]
      else if is_str ptype "image_url" then
        image_url <~ get_default
                       (match lookup "image_url" fields with
                        | Some u => u
                        | None => VDict []
                        end) "url" (VStr "") ;;
        if truthy image_url then
          match image_url with
          | VStr url =>
              if PyStr.startswith "data:image/" url then
                match match_data_url url with
                | Some (mime_type, base64_data) =>
                    Return [VDict [("inlineData",
                                    VDict [("mimeType", VStr ("image/" +:+ mime_type));
                                           ("data", VStr base64_data)])]]
                | None => Return []
                end
              else Return []
          | _ => Throw AttributeError
          end
        else Return []
      else Return []
  | _ => Return []
  end.

Fixpoint content_parts (items : list value) : outcome (list value) :=
  match items with
  | [] => Return []
  | part :: rest =>
      ps <~ content_part part ;;
      qs <~ content_parts rest ;;
      Return (ps ++ qs)%list
  end.

Definition content_entry (role : value) (parts : list value) : option value :=
  match parts with
  | [] => None
  | _ => Some (VDict [("role", role); ("parts", VList parts)])
  end.

(** The body of [for message in messages]: the entry appended to
    [contents], if any. *)
Definition convert_message (message : value) : outcome (option value) :=
  role <~ get_default message "role" (VStr "user") ;;
  content <~ get_default message "content" (VStr "") ;;
  if is_str role "system" then Return None
  else if is_str role "tool" then
    entry <~ tool_message message content ;; Return (Some entry)
  else
    let gemini_role := if is_str role "assistant" then VStr "model" else role in
    tool_calls <~ get message "tool_calls" ;;
    if truthy tool_calls then
      calls <~ iterate tool_calls ;;
      call_parts <~ function_call_parts calls ;;
      Return (content_entry gemini_role
                ((if truthy content then [text_part content] else []) ++ call_parts)%list)
    else
      match content with
      | VList items =>
          parts <~ content_parts items ;;
          Return (content_entry gemini_role parts)
      | _ =>
          if truthy content
          then Return (Some (VDict [("role", gemini_role);
                                    ("parts", VList [text_part content])]))
          else Return None
      end.

Fixpoint convert_messages (messages : list value) : outcome (list value) :=
  match messages with
  | [] => Return []
  | message :: rest =>
      entry <~ convert_message message ;;
      entries <~ convert_messages rest ;;
      Return (match entry with
              | Some e => e :: entries
              | None => entries
              end)
  end.

(** [if src in request: config[dst] = request[src]] *)
Definition copied (request : list (string * value)) (src dst : string)
  : list (string * value) :=
  match lookup src request with
  | Some v => [(dst, v)]
  | None => []
  end.

(** The block "构建生成配置" up to and including [response_format]; the keys
    written are distinct, so each assignment appends. *)
Definition generation_config (request : list (string * value))
  : outcome (list (string * value)) :=
  let max_tokens :=
    match lookup "max_tokens" request, lookup "max_completion_tokens" request with
    | None, None => []
    | mt, mct =>
        let a := match mct with Some v => v | None => VNone end in
        let b := match mt with Some v => v | None => VNone end in
        let chosen := if truthy a then a else b in
        if truthy chosen then [("maxOutputTokens", chosen)] else []
    end in
  let stop :=
    match lookup "stop" request with
    | Some (VStr s) => [("stopSequences", VList [VStr s])]
    | Some v => [("stopSequences", v)]
    | None => []
    end in
  mime <~ match lookup "response_format" request with
          | Some response_format =>
              if truthy response_format then
                format_type <~ get response_format "type" ;;
                if is_str format_type "json_object"
                then Return [("responseMimeType", VStr "application/json")]
                else if is_str format_type "text"
                     then Return [("responseMimeType", VStr "text/plain")]
                     else Return []
              else Return []
          | None => Return []
          end ;;
  Return (copied request "temperature" "temperature" ++
          copied request "top_p" "topP" ++
          copied request "top_k" "topK" ++
          max_tokens ++ stop ++
          copied request "frequency_penalty" "frequencyPenalty" ++
          copied request "presence_penalty" "presencePenalty" ++
          copied request "n" "candidateCount" ++
          copied request "seed" "seed" ++ mime)%list.

Definition default_contents : list value :=
  [VDict [("role", VStr "user");
          ("parts", VList [text_part (VStr "请根据系统指令回答。")])]].

Definition convert_openai_to_gemini_request (openai_request : value) : outcome value :=
  merged <~ merge_system_messages openai_request ;;
  messages <~ get_default merged "messages" (VList []) ;;
  msgs <~ iterate messages ;;
  contents <~ convert_messages msgs ;;
  match merged with
  | VDict request =>
      config <~ generation_config request ;;
      let contents := match contents with [] => default_contents | _ => contents end in
      Return
        (VDict ([("contents", VList contents); ("generationConfig", VDict config)] ++
                match lookup "systemInstruction" request with
                | Some si => [("systemInstruction", si)]
                | None => []
                end)%list)
  | _ => Throw AttributeError
  end.

End WithLibraries.

End OpenAI2Gemini.

Module OpenAI2GeminiFacts.
Import OpenAI2Gemini.

Lemma lookup_dict_set_eq (k : string) (v : value) (fields : list (string * value)) :
  lookup k (dict_set k v fields) = Some v.
Proof.
  induction fields as [|[k' v'] rest IH]; simpl.
  - unfold string_eqb. rewrite bool_decide_eq_true_2; reflexivity.
  - destruct (string_eqb k k') eqn:E; simpl; rewrite E; [reflexivity | exact IH].
Qed.

Lemma lookup_dict_set_ne (k k0 : string) (v : value) (fields : list (string * value)) :
  k0 <> k -> lookup k0 (dict_set k v fields) = lookup k0 fields.
Proof.
  intros Hne. induction fields as [|[k' v'] rest IH]; simpl.
  - unfold string_eqb. rewrite bool_decide_eq_false_2; [reflexivity | exact Hne].
  - destruct (string_eqb k k') eqn:E; simpl.
    + apply bool_decide_eq_true_1 in E. subst k'.
      unfold string_eqb. rewrite bool_decide_eq_false_2 by exact Hne. reflexivity.
    + rewrite IH. reflexivity.
Qed.

(** A message that is a dict with [role == "system"]. *)
Definition is_system (m : value) : bool :=
  match m with
  | VDict fields =>
      match lookup "role" fields with
      | Some r => is_str r "system"
      | None => false
      end
  | _ => false
  end.

Definition is_dict (m : value) : Prop := exists fields, m = VDict fields.

(** [msg.get("content", "")] of a dict. *)
Definition content_of (m : value) : value :=
  match m with
  | VDict fields =>
      match lookup "content" fields with
      | Some c => c
      | None => VStr ""
      end
  | _ => VNone
  end.

Lemma split_messages_dicts (msgs : list value) :
  Forall is_dict msgs ->
  split_messages msgs
    = Return (flat_map (fun m => system_parts_of (content_of m))
                       (List.filter is_system msgs),
              List.filter (fun m => negb (is_system m)) msgs).
Proof.
  induction 1 as [|m rest (fields & ->) _ IH]; [reflexivity|].
  simpl. rewrite IH. simpl.
  destruct (lookup "role" fields) as [r|]; simpl.
  - destruct (is_str r "system"); simpl.
    + destruct (lookup "content" fields); reflexivity.
    + reflexivity.
  - reflexivity.
Qed.

Lemma filter_all_false (p : value -> bool) (l : list value) :
  Forall (fun m => p m = false) (List.filter (fun m => negb (p m)) l).
Proof.
  induction l as [|x l IH]; simpl; [constructor|].
  destruct (p x) eqn:E; simpl; [exact IH | constructor; assumption].
Qed.

(** X27. On a request whose [messages] is a non-empty list of dicts, the merge
    returns the request with every system message taken out of [messages]
    (the others keep their order), their text parts gathered, in message
    order, under [systemInstruction], and every other key as it was; when
    there is no system text, [systemInstruction] is left as the caller set
    it. *)
Theorem merge_takes_out_system_messages
  (fields : list (string * value)) (m : value) (msgs : list value) :
  lookup "messages" fields = Some (VList (m :: msgs)) ->
  Forall is_dict (m :: msgs) ->
  exists fields',
    merge_system_messages (VDict fields) = Return (VDict fields') /\
    lookup "messages" fields'
      = Some (VList (List.filter (fun x => negb (is_system x)) (m :: msgs))) /\
    Forall (fun x => is_system x = false)
           (List.filter (fun x => negb (is_system x)) (m :: msgs)) /\
    (forall k, k <> "messages" -> k <> "systemInstruction" ->
               lookup k fields' = lookup k fields) /\
    lookup "systemInstruction" fields'
      = match flat_map (fun x => system_parts_of (content_of x))
                       (List.filter is_system (m :: msgs)) with
        | [] => lookup "systemInstruction" fields
        | parts => Some (VDict [("parts", VList parts)])
        end.
Proof.
  intros Hl Hd. unfold merge_system_messages, get_default. rewrite Hl.
  cbn [obind truthy negb iterate]. rewrite (split_messages_dicts _ Hd).
  cbn [obind].
  set (others := List.filter (fun x => negb (is_system x)) (m :: msgs)).
  set (parts := flat_map _ _).
  assert (Hothers : Forall (fun x => is_system x = false) others)
    by apply filter_all_false.
  destruct parts as [|p ps] eqn:Ep.
  - eexists. split; [reflexivity|]. split; [apply lookup_dict_set_eq|].
    split; [exact Hothers|]. split.
    + intros k Hk _. apply lookup_dict_set_ne. exact Hk.
    + apply lookup_dict_set_ne. discriminate.
  - eexists. split; [reflexivity|]. split.
    + rewrite lookup_dict_set_ne by discriminate. apply lookup_dict_set_eq.
    + split; [exact Hothers|]. split.
      * intros k Hk Hs. rewrite lookup_dict_set_ne by exact Hs.
        apply lookup_dict_set_ne. exact Hk.
      * apply lookup_dict_set_eq.
Qed.

Definition sample_request : list (string * value) :=
  [("model", VStr "gemini-2.5-pro");
   ("messages",
    VList [VDict [("role", VStr "system"); ("content", VStr "Be brief.")];
           VDict [("role", VStr "user"); ("content", VStr "hi")];
           VDict [("role", VStr "system");
                  ("content", VList [VDict [("type", VStr "text"); ("text", VStr "No emoji.")]])];
           VDict [("role", VStr "assistant"); ("content", VStr "hello")]]);
   ("temperature", VFloat (S754_finite false 6305039478318694 (-53)));
   ("max_tokens", VInt 256); ("max_completion_tokens", VInt 128);
   ("stop", VStr "END")].

Lemma merge_takes_out_system_messages_witness :
  exists fields',
    merge_system_messages (VDict sample_request) = Return (VDict fields') /\
    lookup "messages" fields'
      = Some (VList [VDict [("role", VStr "user"); ("content", VStr "hi")];
                     VDict [("role", VStr "assistant"); ("content", VStr "hello")]]) /\
    lookup "systemInstruction" fields'
      = Some (VDict [("parts", VList [text_part (VStr "Be brief.");
                                      text_part (VStr "No emoji.")])]).
Proof.
  destruct (merge_takes_out_system_messages sample_request
              (VDict [("role", VStr "system"); ("content", VStr "Be brief.")])
              [VDict [("role", VStr "user"); ("content", VStr "hi")];
               VDict [("role", VStr "system");
                      ("content", VList [VDict [("type", VStr "text");
                                                ("text", VStr "No emoji.")]])];
               VDict [("role", VStr "assistant"); ("content", VStr "hello")]])
    as (fields' & H1 & H2 & _ & _ & H5).
  - reflexivity.
  - repeat constructor; eexists; reflexivity.
  - exists fields'. split; [exact H1|]. split; [exact H2 | exact H5].
Defined.

Section WithLibraries.

Variable loads : string -> option value.
Variable match_data_url : string -> option (string * string).

(** An entry of [contents] as Gemini accepts it: a role that is none of the
    OpenAI-only roles, and at least one part. *)
Definition good_entry (e : value) : Prop :=
  exists role p ps,
    e = VDict [("role", role); ("parts", VList (p :: ps))] /\
    is_str role "assistant" = false /\ is_str role "system" = false /\
    is_str role "tool" = false.

Lemma content_entry_good (role : value) (parts : list value) (e : value) :
  is_str role "assistant" = false -> is_str role "system" = false ->
  is_str role "tool" = false ->
  content_entry role parts = Some e -> good_entry e.
Proof.
  intros H1 H2 H3. destruct parts as [|p ps]; simpl; [discriminate|].
  intros [= <-]. exists role, p, ps. auto.
Qed.

Lemma convert_message_good (message e : value) :
  convert_message loads match_data_url message = Return (Some e) -> good_entry e.
Proof.
  unfold convert_message.
  destruct (get_default message "role" (VStr "user")) as [role|]; simpl; [|discriminate].
  destruct (get_default message "content" (VStr "")) as [content|]; simpl; [|discriminate].
  destruct (is_str role "system") eqn:Hs; [discriminate|].
  destruct (is_str role "tool") eqn:Ht.
  - unfold tool_message.
    destruct (get_default message "tool_call_id" (VStr "")); simpl; [|discriminate].
    destruct (get_default message "name" (VStr "unknown_function")); simpl; [|discriminate].
    intros [= <-]. do 3 eexists. split; [reflexivity|]. repeat split; reflexivity.
  - set (gemini_role := if is_str role "assistant" then VStr "model" else role).
    assert (Hg : is_str gemini_role "assistant" = false /\
                 is_str gemini_role "system" = false /\
                 is_str gemini_role "tool" = false).
    { subst gemini_role. destruct (is_str role "assistant") eqn:Ha; auto. }
    destruct Hg as (G1 & G2 & G3).
    destruct (get message "tool_calls") as [tool_calls|]; simpl; [|discriminate].
    destruct (truthy tool_calls).
    + destruct (iterate tool_calls) as [calls|]; simpl; [|discriminate].
      destruct (function_call_parts loads calls) as [cps|]; simpl; [|discriminate].
      intros [= H]. exact (content_entry_good _ _ _ G1 G2 G3 H).
    + assert (Hplain : (if truthy content
                        then Return (Some (VDict [("role", gemini_role);
                                                  ("parts", VList [text_part content])]))
                        else Return None) = Return (Some e) -> good_entry e).
      { destruct (truthy content); [|discriminate]. intros [= <-].
        do 3 eexists. split; [reflexivity|]. auto. }
      destruct content; try exact Hplain.
      destruct (content_parts match_data_url items) as [parts|]; simpl; [|discriminate].
      intros [= H]. exact (content_entry_good _ _ _ G1 G2 G3 H).
Qed.

Lemma convert_messages_good (msgs : list value) :
  forall entries,
  convert_messages loads match_data_url msgs = Return entries ->
  Forall good_entry entries.
Proof.
  induction msgs as [|m rest IH]; simpl; intros entries.
  - intros [= <-]. constructor.
  - destruct (convert_message loads match_data_url m) as [entry|] eqn:E;
      simpl; [|discriminate].
    destruct (convert_messages loads match_data_url rest) as [es|]; simpl; [|discriminate].
    intros [= <-]. specialize (IH es eq_refl).
    destruct entry as [e|]; [|exact IH].
    constructor; [exact (convert_message_good m e E) | exact IH].
Qed.

Lemma default_contents_good : Forall good_entry default_contents.
Proof.
  constructor; [|constructor]. do 3 eexists. split; [reflexivity|].
  repeat split; reflexivity.
Qed.

(** What a successful conversion is made of. *)
Lemma convert_inversion (openai_request g : value) :
  convert_openai_to_gemini_request loads match_data_url openai_request = Return g ->
  exists request msgs contents config,
    merge_system_messages openai_request = Return (VDict request) /\
    convert_messages loads match_data_url msgs = Return contents /\
    generation_config request = Return config /\
    g = VDict ([("contents",
                 VList (match contents with [] => default_contents | _ => contents end));
                ("generationConfig", VDict config)] ++
               match lookup "systemInstruction" request with
               | Some si => [("systemInstruction", si)]
               | None => []
               end)%list.
Proof.
  unfold convert_openai_to_gemini_request.
  destruct (merge_system_messages openai_request) as [merged|]; simpl; [|discriminate].
  destruct (get_default merged "messages" (VList [])) as [messages|] eqn:Hm;
    simpl; [|discriminate].
  destruct (iterate messages) as [msgs|]; simpl; [|discriminate].
  destruct (convert_messages loads match_data_url msgs) as [contents|] eqn:Hc;
    simpl; [|discriminate].
  destruct merged as [| | | | | |request]; try discriminate.
  destruct (generation_config request) as [config|] eqn:Hg; simpl; [|discriminate].
  intros [= <-]. exists request, msgs, contents, config. auto.
Qed.

(** X28. Whatever the request, a conversion that returns yields a non-empty
    [contents] in which every entry has at least one part and a role that
    is not [assistant], [system] or [tool]: assistant turns are sent as
    [model], tool results as [user], system messages not at all, and a
    request without usable messages gets the default user prompt. *)
Theorem converted_contents_wellformed (openai_request g : value) :
  convert_openai_to_gemini_request loads match_data_url openai_request = Return g ->
  exists fields c cs,
    g = VDict fields /\
    lookup "contents" fields = Some (VList (c :: cs)) /\
    Forall good_entry (c :: cs).
Proof.
  intros H. destruct (convert_inversion _ _ H)
    as (request & msgs & contents & config & _ & Hc & _ & ->).
  pose proof (convert_messages_good msgs contents Hc) as Hgood.
  destruct contents as [|c cs].
  - eexists. exists (hd VNone default_contents), (tl default_contents).
    split; [reflexivity|]. split; [reflexivity|]. exact default_contents_good.
  - eexists. exists c, cs. split; [reflexivity|]. split; [reflexivity|]. exact Hgood.
Qed.

Lemma lookup_app (k : string) (l1 l2 : list (string * value)) :
  lookup k (l1 ++ l2)
    = match lookup k l1 with
      | Some v => Some v
      | None => lookup k l2
      end.
Proof.
  induction l1 as [|[k' v'] rest IH]; simpl; [reflexivity|].
  destruct (string_eqb k k'); [reflexivity | exact IH].
Qed.

Lemma lookup_copied (request : list (string * value)) (src dst k : string) :
  lookup k (copied request src dst)
    = if string_eqb k dst then lookup src request else None.
Proof.
  unfold copied. destruct (lookup src request); simpl;
    destruct (string_eqb k dst); reflexivity.
Qed.

(** The request keys that the merge does not write. *)
Lemma merge_keeps_other_keys (fields request : list (string * value)) (k : string) :
  merge_system_messages (VDict fields) = Return (VDict request) ->
  k <> "messages" -> k <> "systemInstruction" ->
  lookup k request = lookup k fields.
Proof.
  unfold merge_system_messages. simpl.
  destruct (lookup "messages" fields) as [messages|]; simpl.
  - destruct (truthy messages); simpl; [|intros [= <-]; reflexivity].
    destruct (iterate messages) as [msgs|]; simpl; [|discriminate].
    destruct (split_messages msgs) as [[parts others]|]; simpl; [|discriminate].
    intros [= <-] Hk Hs. destruct parts.
    + apply lookup_dict_set_ne. exact Hk.
    + rewrite lookup_dict_set_ne by exact Hs. apply lookup_dict_set_ne. exact Hk.
  - intros [= <-]. reflexivity.
Qed.

(** [request.get(k)] of a dict. *)
Definition field (fields : list (string * value)) (k : string) : value :=
  match lookup k fields with
  | Some v => v
  | None => VNone
  end.

(** A key that is written or not. *)
Definition slot (dst : string) (o : option value) : list (string * value) :=
  match o with
  | Some v => [(dst, v)]
  | None => []
  end.

Lemma lookup_slot_app (k dst : string) (o : option value) (rest : list (string * value)) :
  lookup k (slot dst o ++ rest)
    = if string_eqb k dst
      then match o with Some v => Some v | None => lookup k rest end
      else lookup k rest.
Proof.
  destruct o as [v|]; simpl.
  - destruct (string_eqb k dst); reflexivity.
  - destruct (string_eqb k dst); reflexivity.
Qed.

Definition chosen_limit (fields : list (string * value)) : option value :=
  if truthy (field fields "max_completion_tokens")
  then Some (field fields "max_completion_tokens")
  else if truthy (field fields "max_tokens")
       then Some (field fields "max_tokens")
       else None.

Definition stop_sequences (fields : list (string * value)) : option value :=
  match lookup "stop" fields with
  | Some (VStr s) => Some (VList [VStr s])
  | other => other
  end.

(** The configuration, slot by slot. *)
Lemma generation_config_slots (request fields : list (string * value))
  (config : list (string * value)) :
  (forall k, k <> "messages" -> k <> "systemInstruction" ->
             lookup k request = lookup k fields) ->
  generation_config request = Return config ->
  exists mime,
    config
      = (slot "temperature" (lookup "temperature" fields) ++
         slot "topP" (lookup "top_p" fields) ++
         slot "topK" (lookup "top_k" fields) ++
         slot "maxOutputTokens" (chosen_limit fields) ++
         slot "stopSequences" (stop_sequences fields) ++
         slot "frequencyPenalty" (lookup "frequency_penalty" fields) ++
         slot "presencePenalty" (lookup "presence_penalty" fields) ++
         slot "candidateCount" (lookup "n" fields) ++
         slot "seed" (lookup "seed" fields) ++
         slot "responseMimeType" mime ++ [])%list.
Proof.
  intros Hk Hcfg. unfold generation_config in Hcfg. cbv zeta in Hcfg.
  unfold copied in Hcfg.
  rewrite !(Hk "max_tokens"), !(Hk "max_completion_tokens"), !(Hk "stop"),
    !(Hk "response_format"), !(Hk "temperature"), !(Hk "top_p"), !(Hk "top_k"),
    !(Hk "frequency_penalty"), !(Hk "presence_penalty"), !(Hk "n"), !(Hk "seed")
    in Hcfg by discriminate.
  set (mime := match lookup "response_format" fields with
               | Some rf => _
               | None => _
               end) in Hcfg.
  assert (Hmime : forall m, mime = Return m -> exists o, m = slot "responseMimeType" o).
  { subst mime. intros m. destruct (lookup "response_format" fields) as [rf|];
      [|intros [= <-]; exists None; reflexivity].
    destruct (truthy rf); [|intros [= <-]; exists None; reflexivity].
    destruct (get rf "type") as [ft|]; simpl; [|discriminate].
    destruct (is_str ft "json_object");
      [intros [= <-]; eexists (Some _); reflexivity|].
    destruct (is_str ft "text"); intros [= <-];
      [eexists (Some _) | exists None]; reflexivity. }
  destruct mime as [m|]; simpl in Hcfg; [|discriminate].
  destruct (Hmime m eq_refl) as (o & ->). exists o.
  injection Hcfg as <-.
  rewrite app_nil_r. unfold chosen_limit, stop_sequences, field.
  destruct (lookup "max_tokens" fields) as [mt|],
    (lookup "max_completion_tokens" fields) as [mct|];
    destruct (lookup "stop" fields) as [[| | | | | |]|];
    cbv beta iota zeta; cbn [truthy];
    try (destruct (truthy mct) eqn:E1); try (destruct (truthy mt) eqn:E2);
    repeat (progress (cbv beta iota zeta; cbn [truthy];
                      try rewrite E1; try rewrite E2));
    reflexivity.
Qed.

(** X29. The sampling parameters reach [generationConfig] under their Gemini
    names with their values untouched; a bare string [stop] becomes a
    one-element list; the output limit is [max_completion_tokens] when that
    is set and non-zero, else [max_tokens] when that is, else absent. *)
Theorem generation_config_mapping (fields : list (string * value)) (g : value) :
  convert_openai_to_gemini_request loads match_data_url (VDict fields) = Return g ->
  exists gfields config,
    g = VDict gfields /\
    lookup "generationConfig" gfields = Some (VDict config) /\
    lookup "temperature" config = lookup "temperature" fields /\
    lookup "topP" config = lookup "top_p" fields /\
    lookup "topK" config = lookup "top_k" fields /\
    lookup "frequencyPenalty" config = lookup "frequency_penalty" fields /\
    lookup "presencePenalty" config = lookup "presence_penalty" fields /\
    lookup "candidateCount" config = lookup "n" fields /\
    lookup "seed" config = lookup "seed" fields /\
    lookup "stopSequences" config = stop_sequences fields /\
    lookup "maxOutputTokens" config = chosen_limit fields.
Proof.
  intros H. destruct (convert_inversion _ _ H)
    as (request & msgs & contents & config & Hmerge & _ & Hcfg & ->).
  exists ([("contents",
            VList (match contents with [] => default_contents | _ => contents end));
           ("generationConfig", VDict config)] ++
          match lookup "systemInstruction" request with
          | Some si => [("systemInstruction", si)]
          | None => []
          end)%list, config.
  split; [reflexivity|]. split; [reflexivity|].
  destruct (generation_config_slots request fields config) as (mime & ->);
    [intros k; apply merge_keeps_other_keys; exact Hmerge | exact Hcfg |].
  repeat split; rewrite !lookup_slot_app.
  - destruct (lookup "temperature" fields); reflexivity.
  - destruct (lookup "top_p" fields); reflexivity.
  - destruct (lookup "top_k" fields); reflexivity.
  - destruct (lookup "frequency_penalty" fields); reflexivity.
  - destruct (lookup "presence_penalty" fields); reflexivity.
  - destruct (lookup "n" fields); reflexivity.
  - destruct (lookup "seed" fields); reflexivity.
  - destruct (stop_sequences fields); reflexivity.
  - destruct (chosen_limit fields); reflexivity.
Qed.

End WithLibraries.

Definition no_loads (_ : string) : option value := None.
Definition no_match (_ : string) : option (string * string) := None.

Definition sample_output : value :=
  Eval vm_compute in
    match convert_openai_to_gemini_request no_loads no_match (VDict sample_request) with
    | Return g => g
    | Throw _ => VNone
    end.

Example sample_roles :
  match sample_output with
  | VDict fields =>
      match lookup "contents" fields with
      | Some (VList contents) =>
          List.map (fun c => match c with
                             | VDict f => lookup "role" f
                             | _ => None
                             end) contents
      | _ => []
      end
  | _ => []
  end = [Some (VStr "user"); Some (VStr "model")].
Proof. reflexivity. Qed.

Lemma converted_contents_wellformed_witness :
  exists fields c cs,
    sample_output = VDict fields /\
    lookup "contents" fields = Some (VList (c :: cs)) /\
    Forall good_entry (c :: cs).
Proof.
  apply (converted_contents_wellformed no_loads no_match (VDict sample_request)).
  vm_compute. reflexivity.
Defined.

Lemma generation_config_mapping_witness :
  exists gfields config,
    sample_output = VDict gfields /\
    lookup "generationConfig" gfields = Some (VDict config) /\
    lookup "stopSequences" config = Some (VList [VStr "END"]) /\
    lookup "maxOutputTokens" config = Some (VInt 128).
Proof.
  destruct (generation_config_mapping no_loads no_match sample_request sample_output)
    as (gf & cfg & H1 & H2 & _ & _ & _ & _ & _ & _ & _ & H10 & H11).
  - vm_compute. reflexivity.
  - exists gf, cfg. split; [exact H1|]. split; [exact H2|].
    split; [exact H10 | exact H11].
Defined.

End OpenAI2GeminiFacts.
